(** * npt-timecode: Normal Play Time values, ranges and timecodes

    A shallow embedding of [index.js] (classes [Time], [Range], [Timecode] and
    the two helpers [getComputedTime] and [getComputedSeconds]).

    JavaScript numbers are IEEE-754 binary64 values: they are modelled by
    Rocq's primitive [float], whose operations are the binary64 ones, so that
    [x / 60 / 60] here rounds exactly as it does in the source.  The
    ECMAScript built-ins the source calls ([Math.floor], [toFixed],
    [parseFloat], number-to-string conversion, [replace], [padStart], ...) are
    written out in module [JS], following the language specification. *)

From Stdlib Require Import ZArith Floats String Ascii List Bool Lia.
From Stdlib Require QArith Qround Qabs Qpower Lqa.
Import ListNotations.

Set Warnings "-inexact-float,-register-all".

Local Open Scope string_scope.
Local Open Scope float_scope.

(* ================================================================== *)
(** ** ECMAScript built-ins *)
(* ================================================================== *)

Module JS.

(** *** Numbers *)

(** The binary64 value nearest to the rational [p / q] (sign [s]), ties to
    even: the "Number value for" a mathematical value. *)
Definition number_of_ratio (s : bool) (p q : positive) : float :=
  SF2Prim (SFdiv prec emax (S754_finite s p 0) (S754_finite false q 0)).

(** The Number value for an integer. *)
Definition number_of_Z (z : Z) : float :=
  match z with
  | Z0 => 0
  | Zpos p => number_of_ratio false p 1
  | Zneg p => number_of_ratio true p 1
  end.

(** [Number.isNaN] on a number. *)
Definition isNaN (x : float) : bool := PrimFloat.is_nan x.

(** [ToBoolean] on a number: [0], [-0] and [NaN] are falsy. *)
Definition truthy_number (x : float) : bool :=
  negb (PrimFloat.is_zero x || PrimFloat.is_nan x).

(** [Math.floor]: the greatest integer not above [x]; [NaN], the infinities
    and the zeros are returned unchanged. *)
Definition Math_floor (x : float) : float :=
  match Prim2SF x with
  | S754_finite s m e =>
      if (0 <=? e)%Z then x
      else
        let z := Z.shiftr (if s then Z.neg m else Z.pos m) (- e) in
        number_of_Z z
  | _ => x
  end.

(** *** Decimal digits *)

Definition digit_char (d : Z) : ascii :=
  ascii_of_N (Z.to_N (48 + d)).

(** The decimal digits of a non-negative integer, most significant first;
    [fuel] bounds their number. *)
Fixpoint digits_fuel (fuel : nat) (z : Z) (acc : string) : string :=
  match fuel with
  | O => acc
  | S fuel' =>
      let acc' := String (digit_char (z mod 10)) acc in
      if (z <? 10)%Z then acc' else digits_fuel fuel' (z / 10) acc'
  end.

Definition digits_of_Z (z : Z) : string :=
  digits_fuel (S (Z.to_nat (Z.log2 z))) z "".

Fixpoint zeros (n : nat) : string :=
  match n with
  | O => ""
  | S n' => String "0" (zeros n')
  end.

Fixpoint take (n : nat) (s : string) : string :=
  match n, s with
  | S n', String c s' => String c (take n' s')
  | _, _ => ""
  end.

(** [s.slice(n)] for [0 <= n]. *)
Fixpoint slice_from (n : nat) (s : string) : string :=
  match n, s with
  | S n', String _ s' => slice_from n' s'
  | _, _ => s
  end.

(** *** Number::toString (radix 10) *)

(** The exact value of a positive finite number [m * 2^e] as a fraction. *)
Definition ratio_of (m : positive) (e : Z) : Z * Z :=
  if (0 <=? e)%Z then (Z.pos m * 2 ^ e, 1)%Z else (Z.pos m, 2 ^ (- e))%Z.

(** [s * 10^p] as a number. *)
Definition number_of_decimal (s : Z) (p : Z) : float :=
  match s with
  | Zpos sp =>
      if (0 <=? p)%Z then number_of_ratio false (sp * Z.to_pos (10 ^ p)) 1
      else number_of_ratio false sp (Z.to_pos (10 ^ (- p)))
  | _ => 0
  end.

(** The exponent [n] with [10^(n-1) <= num/den < 10^n]. *)
Fixpoint scale_up (fuel : nat) (num den : Z) (n : Z) : Z :=
  match fuel with
  | O => n
  | S fuel' =>
      if (num <? den)%Z then scale_up fuel' (num * 10) den (n - 1) else n
  end.

Fixpoint scale_down (fuel : nat) (num den : Z) (n : Z) : Z :=
  match fuel with
  | O => n
  | S fuel' =>
      if (den * 10 <=? num)%Z then scale_down fuel' num (den * 10) (n + 1) else n
  end.

Definition decimal_exponent (num den : Z) : Z :=
  if (num <? den)%Z then scale_up 400 num den 1
  else scale_down 400 num den 1.

(** The candidates with [k] digits: the two multiples of [10^(n-k)] around
    the value, kept when they convert back to [x]; of two that do, the nearer
    one, and the even one on a tie. *)
Definition candidate (x : float) (num den : Z) (n k : Z) : option (Z * Z) :=
  let p := (n - k)%Z in
  let '(a, b) := if (0 <=? p)%Z then (num, den * 10 ^ p)%Z
                 else (num * 10 ^ (- p), den)%Z in
  let lo := (a / b)%Z in
  let hi := (lo + 1)%Z in
  let ok s := (10 ^ (k - 1) <=? s)%Z && (number_of_decimal s p =? x) in
  let norm s := if (s =? 10 ^ k)%Z then (10 ^ (k - 1), n + 1)%Z else (s, n) in
  let ok_hi := (number_of_decimal hi p =? x) in
  match ok lo, ok_hi with
  | true, true =>
      let dlo := (a - lo * b)%Z in
      let dhi := (hi * b - a)%Z in
      if (dlo <? dhi)%Z then Some (lo, n)
      else if (dhi <? dlo)%Z then Some (norm hi)
      else if Z.even lo then Some (lo, n) else Some (norm hi)
  | true, false => Some (lo, n)
  | false, true => Some (norm hi)
  | false, false => None
  end.

Fixpoint shortest (fuel : nat) (x : float) (num den : Z) (n k : Z) : Z * Z * Z :=
  match candidate x num den n k with
  | Some (s, n') => (s, n', k)
  | None =>
      match fuel with
      | O => (0, n, k)%Z
      | S fuel' => shortest fuel' x num den n (k + 1)
      end
  end.

(** The digits [s], their number [k] and the exponent [n] of steps 5 to 10 of
    Number::toString, laid out as the specification says. *)
Definition layout (s n k : Z) : string :=
  let ds := digits_of_Z s in
  if (k <=? n)%Z && (n <=? 21)%Z then ds ++ zeros (Z.to_nat (n - k))
  else if (0 <? n)%Z && (n <=? 21)%Z then
    take (Z.to_nat n) ds ++ "." ++ slice_from (Z.to_nat n) ds
  else if (-6 <? n)%Z && (n <=? 0)%Z then "0." ++ zeros (Z.to_nat (- n)) ++ ds
  else
    let e := (n - 1)%Z in
    let es := (if (e <? 0)%Z then "-" else "+") ++ digits_of_Z (Z.abs e) in
    if (k =? 1)%Z then ds ++ "e" ++ es
    else take 1 ds ++ "." ++ slice_from 1 ds ++ "e" ++ es.

Definition Number_toString (x : float) : string :=
  match Prim2SF x with
  | S754_nan => "NaN"
  | S754_zero _ => "0"
  | S754_infinity false => "Infinity"
  | S754_infinity true => "-Infinity"
  | S754_finite sg m e =>
      let '(num, den) := ratio_of m e in
      let n := decimal_exponent num den in
      let '(s, n', k) := shortest 17 (PrimFloat.abs x) num den n 1 in
      (if sg then "-" else "") ++ layout s n' k
  end.

(** *** Number.prototype.toFixed *)

(** [x.toFixed(f)]: a non-finite [x] prints as Number::toString does, and so
    does a magnitude of [10^21] or more; otherwise the integer [n] with
    [n / 10^f] nearest to [|x|] (the larger one on a tie) is printed with [f]
    digits after the point; the sign is kept for every [x < 0]. *)
Definition Number_toFixed (f : nat) (x : float) : string :=
  match Prim2SF x with
  | S754_finite sg m e =>
      let '(num, den) := ratio_of m e in
      if (10 ^ 21 * den <=? num)%Z then Number_toString x
      else
        let scale := (10 ^ Z.of_nat f)%Z in
        let n := ((2 * num * scale + den) / (2 * den))%Z in
        let ds := digits_of_Z n in
        let ds := if (String.length ds <=? f)%nat
                  then zeros (S f - String.length ds) ++ ds else ds in
        let k := String.length ds in
        let body := match f with
                    | O => ds
                    | _ => take (k - f) ds ++ "." ++ slice_from (k - f) ds
                    end in
        (if sg then "-" else "") ++ body
  | S754_zero _ =>
      match f with O => "0" | _ => "0." ++ zeros f end
  | _ => Number_toString x
  end.

(** *** parseFloat *)

Definition is_white (c : ascii) : bool :=
  match N_of_ascii c with
  | 9%N | 10%N | 11%N | 12%N | 13%N | 32%N => true
  | _ => false
  end.

Definition digit_value (c : ascii) : option Z :=
  let n := Z.of_N (N_of_ascii c) in
  if (48 <=? n)%Z && (n <=? 57)%Z then Some (n - 48)%Z else None.

(** Reads decimal digits: their value on top of [acc], how many were read,
    and the rest of the string. *)
Fixpoint read_digits (s : string) (acc : Z) (count : Z) : Z * Z * string :=
  match s with
  | String c s' =>
      match digit_value c with
      | Some d => read_digits s' (acc * 10 + d)%Z (count + 1)%Z
      | None => (acc, count, s)
      end
  | EmptyString => (acc, count, s)
  end.

Fixpoint trim_start (s : string) : string :=
  match s with
  | String c s' => if is_white c then trim_start s' else s
  | EmptyString => s
  end.

(** The exponent part [e[+|-]digits], when one is there. *)
Definition read_exponent (s : string) : Z :=
  match s with
  | String c s' =>
      if (c =? "e")%char || (c =? "E")%char then
        let '(neg, s'') :=
          match s' with
          | String "-" r => (true, r)
          | String "+" r => (false, r)
          | _ => (false, s')
          end in
        let '(v, cnt, _) := read_digits s'' 0%Z 0%Z in
        if (cnt =? 0)%Z then 0%Z else if neg then (- v)%Z else v
      else 0%Z
  | EmptyString => 0%Z
  end.

(** [parseFloat(s)]: the Number value for the longest prefix of the trimmed
    string that is a decimal literal; [NaN] when there is none. *)
Definition parseFloat (s : string) : float :=
  let s := trim_start s in
  let '(neg, s) :=
    match s with
    | String "-" r => (true, r)
    | String "+" r => (false, r)
    | _ => (false, s)
    end in
  if String.prefix "Infinity" s then (if neg then neg_infinity else infinity)
  else
    let '(ip, icnt, s1) := read_digits s 0%Z 0%Z in
    let '(m, fcnt, s2) :=
      match s1 with
      | String "." r => read_digits r ip 0%Z
      | _ => (ip, 0%Z, s1)
      end in
    if ((icnt + fcnt) =? 0)%Z then nan
    else
      let p := (read_exponent s2 - fcnt)%Z in
      match m with
      | Zpos mp =>
          if (0 <=? p)%Z then number_of_ratio neg (mp * Z.to_pos (10 ^ p)) 1
          else number_of_ratio neg mp (Z.to_pos (10 ^ (- p)))
      | _ => if neg then (-0) else 0
      end.

(** *** Strings *)

(** [s.replace(pat, rep)] for a string pattern: the first occurrence of
    [pat] is replaced.  (No replacement used by the program holds a [$].) *)
Fixpoint replace (pat rep s : string) : string :=
  if String.prefix pat s then rep ++ slice_from (String.length pat) s
  else
    match s with
    | String c s' => String c (replace pat rep s')
    | EmptyString => s
    end.

(** [String(x).padStart(n, 0)]: the fill string is ["0"]. *)
Definition padStart (n : nat) (s : string) : string :=
  zeros (n - String.length s) ++ s.

Fixpoint rev_onto (s acc : string) : string :=
  match s with
  | String c s' => rev_onto s' (String c acc)
  | EmptyString => acc
  end.

(** [s.trim()]. *)
Definition trim (s : string) : string :=
  rev_onto (trim_start (rev_onto (trim_start s) "")) "".

(** [s.split(sep)] for a one-character separator. *)
Fixpoint split (sep : ascii) (s : string) : list string :=
  match s with
  | EmptyString => [""]
  | String c s' =>
      if (c =? sep)%char then "" :: split sep s'
      else
        match split sep s' with
        | piece :: rest => String c piece :: rest
        | [] => [String c ""]
        end
  end.

End JS.

(* ================================================================== *)
(** ** Values and completions *)
(* ================================================================== *)

(** The JavaScript values the factories [from] receive.  An object is seen
    through the properties the program reads: [value], the time fields
    [hours], [minutes], [seconds], [milliseconds] and [ms] (numbers, as the
    documentation of [getComputedSeconds] types them), [start] and [stop].
    [None] is an absent property. *)
Inductive jsval : Type :=
| JUndefined
| JNull
| JBool (b : bool)
| JNum (x : float)
| JStr (s : string)
| JArr (items : list jsval)
| JObj (o : jsobj)
with jsobj : Type :=
| Obj (value : option jsval)
      (hours minutes seconds milliseconds ms : option float)
      (start stop : option jsval).

Definition obj_value (o : jsobj) : option jsval :=
  let '(Obj v _ _ _ _ _ _ _) := o in v.
Definition obj_hours (o : jsobj) : option float :=
  let '(Obj _ h _ _ _ _ _ _) := o in h.
Definition obj_minutes (o : jsobj) : option float :=
  let '(Obj _ _ m _ _ _ _ _) := o in m.
Definition obj_seconds (o : jsobj) : option float :=
  let '(Obj _ _ _ s _ _ _ _) := o in s.
Definition obj_milliseconds (o : jsobj) : option float :=
  let '(Obj _ _ _ _ x _ _ _) := o in x.
Definition obj_ms (o : jsobj) : option float :=
  let '(Obj _ _ _ _ _ x _ _) := o in x.
Definition obj_start (o : jsobj) : option jsval :=
  let '(Obj _ _ _ _ _ _ a _) := o in a.
Definition obj_stop (o : jsobj) : option jsval :=
  let '(Obj _ _ _ _ _ _ _ b) := o in b.

(** Reading a property that is absent gives [undefined]. *)
Definition or_undefined (v : option jsval) : jsval :=
  match v with
  | Some x => x
  | None => JUndefined
  end.

(** [ToBoolean]. *)
Definition truthy (v : jsval) : bool :=
  match v with
  | JUndefined | JNull => false
  | JBool b => b
  | JNum x => JS.truthy_number x
  | JStr s => negb (s =? "")%string
  | JArr _ | JObj _ => true
  end.

(** [v.value]: only an object of the model carries the property. *)
Definition get_value (v : jsval) : jsval :=
  match v with
  | JObj o => or_undefined (obj_value o)
  | _ => JUndefined
  end.

Inductive error : Type :=
| TypeError.

(** The outcome of a call: it returns normally or throws. *)
Inductive completion (A : Type) : Type :=
| Normal (a : A)
| Throw (e : error).
Arguments Normal {A} a.
Arguments Throw {A} e.

Definition bind {A B : Type} (c : completion A) (k : A -> completion B)
  : completion B :=
  match c with
  | Normal a => k a
  | Throw e => Throw e
  end.

Notation "x <- c ;; k" := (bind c (fun x => k))
  (at level 61, c at next level, right associativity).

(** [name in v], for the three names the program asks about: a [TypeError]
    when [v] is not an object. *)
Inductive time_key : Type :=
| KHours | KMinutes | KSeconds.

Definition is_some {A : Type} (o : option A) : bool :=
  match o with
  | Some _ => true
  | None => false
  end.

Definition has_property (k : time_key) (v : jsval) : completion bool :=
  match v with
  | JObj o =>
      Normal (match k with
              | KHours => is_some (obj_hours o)
              | KMinutes => is_some (obj_minutes o)
              | KSeconds => is_some (obj_seconds o)
              end)
  | JArr _ => Normal false
  | _ => Throw TypeError
  end.

(* ================================================================== *)
(** ** The numeric helpers *)
(* ================================================================== *)

Definition NOW : float := -1.

Record computed : Type := mkComputed {
  totalMilliseconds : float;
  totalSeconds : float;
  totalMinutes : float;
  totalHours : float;
  milliseconds : float;
  seconds : float;
  minutes : float;
  hours : float;
  ms : float
}.

(** [getComputedTime(value)]. *)
Definition getComputedTime (value : float) : computed :=
  let totalMilliseconds := value / 1000 in
  let totalSeconds := value in
  let totalMinutes := totalSeconds / 60 in
  let totalHours := totalMinutes / 60 in
  let hours := JS.Math_floor totalHours in
  let minutes := JS.Math_floor ((totalHours - hours) * 60) in
  let seconds :=
    JS.Math_floor (totalSeconds - (hours * 60 * 60) - (minutes * 60)) in
  let milliseconds :=
    1000 * JS.parseFloat
             (JS.Number_toFixed 3
                ((totalSeconds - (hours * 60 * 60) - (minutes * 60)) - seconds)) in
  {| totalMilliseconds := totalMilliseconds;
     totalSeconds := totalSeconds;
     totalMinutes := totalMinutes;
     totalHours := totalHours;
     milliseconds := milliseconds;
     seconds := seconds;
     minutes := minutes;
     hours := hours;
     ms := milliseconds |}.

(** [x || 0] for a property that is a number or absent. *)
Definition or_zero (x : option float) : float :=
  match x with
  | Some v => if JS.truthy_number v then v else 0
  | None => 0
  end.

(** [getComputedSeconds(opts)]: the destructuring gives [ms] the value of
    [opts.ms], and that of [milliseconds] only when [opts.ms] is undefined. *)
Definition getComputedSeconds (opts : jsobj) : float :=
  let hours := obj_hours opts in
  let minutes := obj_minutes opts in
  let seconds := obj_seconds opts in
  let milliseconds := obj_milliseconds opts in
  let ms := match obj_ms opts with
            | Some x => Some x
            | None => milliseconds
            end in
  let total := 0 in
  let total := total + 60 * 60 * or_zero hours in
  let total := total + 60 * or_zero minutes in
  let total := total + or_zero seconds in
  let total := total + or_zero ms / 1000 in
  total.

(** The breakdown returned by [getComputedTime], as the object handed back
    to [getComputedSeconds]. *)
Definition obj_of_computed (c : computed) : jsobj :=
  Obj None (Some (hours c)) (Some (minutes c)) (Some (seconds c))
      (Some (milliseconds c)) (Some (ms c)) None None.

(* ================================================================== *)
(** ** Time, Range and Timecode *)
(* ================================================================== *)

Record Time : Type := mkTime { value : float }.

Record Range : Type := mkRange { start : Time; stop : Time }.

(** [new Time(value)]. *)
Definition new_Time (v : float) : Time := {| value := v |}.

(** A [Time] instance passed as an argument: an object whose [value] is a
    number.  A [Range] instance: an object with [start] and [stop]. *)
Definition jsval_of_Time (t : Time) : jsval :=
  JObj (Obj (Some (JNum (value t))) None None None None None None None).

Definition jsval_of_Range (r : Range) : jsval :=
  JObj (Obj None None None None None None
            (Some (jsval_of_Time (start r))) (Some (jsval_of_Time (stop r)))).

(** [get isNow]. *)
Definition isNow (t : Time) : bool := NOW =? value t.

(** [get isValid]. *)
Definition isValid (t : Time) : bool := Bool.eqb false (JS.isNaN (value t)).

(** [get computed]: [null] for an invalid time.  The module-level cache
    keeps, under each value, the breakdown [getComputedTime] returned for it,
    and a hit returns that breakdown; the cache is therefore not part of the
    model.  (The two zeros share a key; their breakdowns differ in the sign
    of zero fields only, and print alike: [zero_keys_print_alike].) *)
Definition Time_computed (t : Time) : option computed :=
  if JS.isNaN (value t) then None else Some (getComputedTime (value t)).

(** The accessors [hours], [minutes], [seconds], ... read a field of
    [computed]; for an invalid time [computed] is [null] and the read
    throws. *)
Definition Time_get (field : computed -> float) (t : Time)
  : completion float :=
  match Time_computed t with
  | Some c => Normal (field c)
  | None => Throw TypeError
  end.


(** [valueOf()]: what [<], [>=], [-] and [+] see of a [Time]. *)
Definition Time_valueOf (t : Time) : float := value t.

(** The fractional suffix of the seconds: [String(ms/1000).slice(2)] after a
    point when [ms] is truthy. *)
Definition fraction_suffix (c : computed) : string :=
  if JS.truthy_number (ms c)
  then "." ++ JS.slice_from 2 (JS.Number_toString (ms c / 1000))
  else "".

Definition pad (n : nat) (x : float) : string :=
  JS.padStart n (JS.Number_toString x).

(** [.replace(/(hh|mm|ss|H|M|S)(\:)?/g, '')]: every leftover token, with the
    colon after it when there is one, is removed, scanning from the left. *)
Fixpoint strip_tokens (s : string) : string :=
  match s with
  | EmptyString => EmptyString
  | String c rest =>
      let single :=
        if (c =? "H")%char || (c =? "M")%char || (c =? "S")%char
        then match rest with
             | String ":" r' => strip_tokens r'
             | _ => strip_tokens rest
             end
        else String c (strip_tokens rest) in
      match rest with
      | String c' rest' =>
          if ((c =? "h")%char && (c' =? "h")%char)
             || ((c =? "m")%char && (c' =? "m")%char)
             || ((c =? "s")%char && (c' =? "s")%char)
          then match rest' with
               | String ":" r' => strip_tokens r'
               | _ => strip_tokens rest'
               end
          else single
      | EmptyString => single
      end
  end.

(** The chain of replacements of [toString] on a breakdown. *)
Definition format_computed (c : computed) (format : string) : string :=
  let f := JS.replace "S" (JS.Number_toString (totalSeconds c)) format in
  let f := JS.replace "M" (JS.Number_toString (totalMinutes c)) f in
  let f := JS.replace "H" (JS.Number_toString (totalHours c)) f in
  let f := JS.replace "hh" (pad 2 (hours c)) f in
  let f := JS.replace "mm" (pad 2 (minutes c)) f in
  let f := JS.replace "ss" (pad 2 (seconds c) ++ fraction_suffix c) f in
  let f := JS.replace "h" (JS.Number_toString (hours c)) f in
  let f := JS.replace "m" (JS.Number_toString (minutes c)) f in
  let f := JS.replace "s"
             (JS.Number_toString (seconds c) ++ fraction_suffix c) f in
  JS.trim (strip_tokens f).

(** [toString(format)]; [None] is an omitted format, and an empty one is
    falsy as well. *)
Definition Time_toString (t : Time) (format : option string) : string :=
  let computed := Time_computed t in
  let format := match format with
                | Some f => if (f =? "")%string then "hh:mm:ss" else f
                | None => "hh:mm:ss"
                end in
  if -1 =? value t then "now"
  else if JS.isNaN (value t) then ""
  else
    match computed with
    | Some c => format_computed c format
    | None => ""  (* [computed] is null for NaN only, returned above *)
    end.

Section NPT.

(** [npt.parse] of the package [normalplaytime], which is not part of this
    repository: it is given a string and returns a number of milliseconds,
    or [null] ([None]). *)
Variable npt_parse : string -> option float.

(** [Time.from(arg)]. *)
Definition Time_from (arg : jsval) : completion Time :=
  match arg with
  | JNum x =>
      (* 'number' === typeof arg *)
      if negb (JS.isNaN x) then Normal (new_Time x)
      else Normal (new_Time nan)  (* NaN is falsy: no later branch is taken *)
  | JStr s =>
      if (s =? "now")%string then Normal (new_Time NOW)
      else
        match npt_parse s with
        | Some parsed =>
            if JS.truthy_number parsed then Normal (new_Time (parsed / 1000))
            else Normal (new_Time nan)
        | None => Normal (new_Time nan)
        end
  | _ =>
      match truthy arg, get_value arg with
      | true, JNum v => Normal (new_Time v)
      | true, _ =>
          (* arg && ('hours' in arg || 'minutes' in arg || 'seconds' in arg) *)
          h <- has_property KHours arg ;;
          m <- (if h then Normal true else has_property KMinutes arg) ;;
          s <- (if m then Normal true else has_property KSeconds arg) ;;
          if s
          then match arg with
               | JObj o => Normal (new_Time (getComputedSeconds o))
               | _ => Normal (new_Time nan)
               end
          else Normal (new_Time nan)
      | false, _ => Normal (new_Time nan)
      end
  end.


(** [set(value)]: nothing happens for [NaN], [null] and [undefined]. *)
Definition Time_set (t : Time) (v : jsval) : completion Time :=
  let number_is_nan := match v with JNum x => JS.isNaN x | _ => false end in
  let not_nullish := match v with JUndefined | JNull => false | _ => true end in
  if Bool.eqb false number_is_nan && not_nullish then
    temp <- Time_from v ;;
    Normal {| value := value temp |}
  else Normal t.

(** [set(start, stop)] of [Range]. *)
Definition Range_set (r : Range) (start_arg stop_arg : jsval)
  : completion Range :=
  start' <- Time_set (start r) start_arg ;;
  if truthy stop_arg then
    stop' <- Time_set (stop r) stop_arg ;;
    if Time_valueOf stop' <? Time_valueOf start' then
      stop'' <- Time_set stop' (JNum nan) ;;
      Normal {| start := start'; stop := stop'' |}
    else Normal {| start := start'; stop := stop' |}
  else Normal {| start := start'; stop := stop r |}.

(** [new Range(start, stop)]. *)
Definition new_Range (start_arg stop_arg : jsval) : completion Range :=
  start0 <- Time_from JUndefined ;;
  stop0 <- Time_from JUndefined ;;
  Range_set {| start := start0; stop := stop0 |} start_arg stop_arg.

(** The [n]-th of a list of arguments or of an array, [undefined] past the
    end. *)
Definition arg_at (n : nat) (args : list jsval) : jsval :=
  nth n args JUndefined.

(** [Range.from(...args)]. *)
Definition Range_from (args : list jsval) : completion Range :=
  match arg_at 0 args with
  | JArr items => new_Range (arg_at 0 items) (arg_at 1 items)
  | JObj o => new_Range (or_undefined (obj_start o)) (or_undefined (obj_stop o))
  | first =>
      if (List.length args =? 1)%nat then
        match first with
        | JStr s =>
            let pieces := JS.split "-" s in
            new_Range (arg_at 0 (map JStr pieces)) (arg_at 1 (map JStr pieces))
        | _ => new_Range first JNull
        end
      else new_Range (arg_at 0 args) (arg_at 1 args)
  end.


(** [toString(format)] of [Range]. *)
Definition Range_toString (r : Range) (format : option string) : string :=
  let start_s := Time_toString (start r) format in
  let stop_s := Time_toString (stop r) format in
  if truthy (JStr start_s) && truthy (JStr stop_s)
     && (Time_valueOf (start r) <=? Time_valueOf (stop r))
  then start_s ++ "-" ++ stop_s
  else if truthy (JStr start_s) then start_s ++ "-"
  else if truthy (JStr stop_s) then "-" ++ stop_s
  else "".

(** [Timecode] extends [Range]: the same state, and [from] builds it the
    same way. *)
Definition Timecode : Type := Range.

Definition Timecode_from (args : list jsval) : completion Timecode :=
  Range_from args.

(** [valueOf()] of [Timecode]. *)
Definition Timecode_valueOf (tc : Timecode) : float :=
  let start := start tc in
  let stop := stop tc in
  if isNow start then NOW
  else if negb (JS.truthy_number (value start)) && isNow stop then NOW
  else if Time_valueOf start <? Time_valueOf stop
  then Time_valueOf stop - Time_valueOf start
  else 0 + Time_valueOf start.

End NPT.

(* ================================================================== *)
(** ** The two helpers in exact arithmetic *)
(* ================================================================== *)

(** [getComputedTime] and [getComputedSeconds] once more, with rationals in
    place of binary64 numbers: every operation is exact, nothing rounds and
    nothing overflows.  [Exact.round3] is [parseFloat(x.toFixed(3))] on an
    exact value. *)
Module Exact.

Import QArith Qround Qabs.
Local Open Scope Q_scope.

Record computed : Type := mkComputed {
  totalMilliseconds : Q;
  totalSeconds : Q;
  totalMinutes : Q;
  totalHours : Q;
  milliseconds : Q;
  seconds : Q;
  minutes : Q;
  hours : Q;
  ms : Q
}.

(** [Math.floor]. *)
Definition floor (x : Q) : Q := inject_Z (Qfloor x).

(** [parseFloat(x.toFixed(3))]: the multiple of [1/1000] nearest to [x], a
    tie going away from zero. *)
Definition round3 (x : Q) : Q :=
  let n := inject_Z (Qfloor (Qabs x * 1000 + (1 # 2))) in
  (if Qle_bool 0 x then n else - n) / 1000.

Definition getComputedTime (value : Q) : computed :=
  let totalMilliseconds := value / 1000 in
  let totalSeconds := value in
  let totalMinutes := totalSeconds / 60 in
  let totalHours := totalMinutes / 60 in
  let hours := floor totalHours in
  let minutes := floor ((totalHours - hours) * 60) in
  let seconds :=
    floor (totalSeconds - (hours * 60 * 60) - (minutes * 60)) in
  let milliseconds :=
    1000 * round3
             ((totalSeconds - (hours * 60 * 60) - (minutes * 60)) - seconds) in
  {| totalMilliseconds := totalMilliseconds;
     totalSeconds := totalSeconds;
     totalMinutes := totalMinutes;
     totalHours := totalHours;
     milliseconds := milliseconds;
     seconds := seconds;
     minutes := minutes;
     hours := hours;
     ms := milliseconds |}.

(** The object given to [getComputedSeconds]: each field a number or
    absent. *)
Record parts : Type := mkParts {
  p_hours : option Q;
  p_minutes : option Q;
  p_seconds : option Q;
  p_milliseconds : option Q;
  p_ms : option Q
}.

(** [x || 0]. *)
Definition or_zero (x : option Q) : Q :=
  match x with
  | Some v => if Qeq_bool v 0 then 0 else v
  | None => 0
  end.

Definition getComputedSeconds (opts : parts) : Q :=
  let hours := p_hours opts in
  let minutes := p_minutes opts in
  let seconds := p_seconds opts in
  let milliseconds := p_milliseconds opts in
  let ms := match p_ms opts with
            | Some x => Some x
            | None => milliseconds
            end in
  let total := 0 in
  let total := total + 60 * 60 * or_zero hours in
  let total := total + 60 * or_zero minutes in
  let total := total + or_zero seconds in
  let total := total + or_zero ms / 1000 in
  total.


End Exact.

(* ================================================================== *)
(** ** Vocabulary of the properties *)
(* ================================================================== *)

(** [parseFloat(x.toFixed(3))], the rounding [getComputedTime] applies to the
    fraction of a second. *)
Definition round3 (x : float) : float :=
  JS.parseFloat (JS.Number_toFixed 3 x).

(** Decomposing a number of seconds and recomposing the breakdown. *)
Definition recompose_decompose (v : float) : float :=
  getComputedSeconds (obj_of_computed (getComputedTime v)).

Definition nonempty (s : string) : bool := negb (s =? "")%string.

(** The cascade of [Range.toString] read with "only": [start-] when the
    start alone is rendered, [-stop] when the stop alone is. *)
Definition Range_toString_only (r : Range) (format : option string) : string :=
  let s := Time_toString (start r) format in
  let e := Time_toString (stop r) format in
  if nonempty s && nonempty e && (value (start r) <=? value (stop r))
  then s ++ "-" ++ e
  else if nonempty s && negb (nonempty e) then s ++ "-"
  else if nonempty e && negb (nonempty s) then "-" ++ e
  else "".

(** [f] holds for the [n] integers from [z] on. *)
Fixpoint all_from (n : nat) (z : Z) (f : Z -> bool) : bool :=
  match n with
  | O => true
  | S n' => f z && all_from n' (z + 1)%Z f
  end.

(** What [npt.parse] returns, in milliseconds, for the strings of the test
    suite and for "00:00"; it stands in for the package where an instance is
    needed. *)
Definition test_parse (s : string) : option float :=
  if (s =? "05:30")%string then Some 330000
  else if (s =? "05:5.5")%string then Some 305500
  else if (s =? "00:00")%string then Some 0
  else None.

(** The letters of the format tokens. *)
Definition token_letter (c : ascii) : bool :=
  (c =? "h")%char || (c =? "m")%char || (c =? "s")%char
  || (c =? "H")%char || (c =? "M")%char || (c =? "S")%char.

(** A character that is no format letter and no white space, and a string
    made of such characters. *)
Definition inert (c : ascii) : bool :=
  negb (token_letter c) && negb (JS.is_white c).

Fixpoint inert_str (s : string) : bool :=
  match s with
  | EmptyString => true
  | String c s' => inert c && inert_str s'
  end.

(** *** The cache of computed values *)

(** [const cache = new Map()]: the breakdowns already computed, under the
    time values they were computed for, in the order of insertion.  A [Map]
    compares keys with SameValueZero: the two zeros are one key and [NaN]
    equals itself. *)
Definition Cache : Type := list (float * computed).

Definition same_value_zero (x y : float) : bool :=
  (x =? y) || (JS.isNaN x && JS.isNaN y).

(** [cache.get(key)]: [None] is [undefined]. *)
Fixpoint Map_get (cache : Cache) (key : float) : option computed :=
  match cache with
  | nil => None
  | (k, c) :: rest =>
      if same_value_zero k key then Some c else Map_get rest key
  end.

(** [cache.set(key, c)]: the entry of the key takes the new value and keeps
    its place; a new entry goes to the end, a key [-0] stored as [0]. *)
Fixpoint Map_set (cache : Cache) (key : float) (c : computed) : Cache :=
  match cache with
  | nil => ((if PrimFloat.is_zero key then 0 else key), c) :: nil
  | (k, c') :: rest =>
      if same_value_zero k key then (k, c) :: rest
      else (k, c') :: Map_set rest key c
  end.

(** [get computed], with the cache it reads and writes: the breakdown
    returned, and the cache after the call. *)
Definition Time_computed_in (cache : Cache) (t : Time)
  : option computed * Cache :=
  if JS.isNaN (value t) then (None, cache)
  else
    let computed :=
      match Map_get cache (value t) with
      | Some c => c
      | None => getComputedTime (value t)
      end in
    (Some computed, Map_set cache (value t) computed).

(** An accessor ([hours], [minutes], ...) reading through the cache. *)
Definition Time_get_in (cache : Cache) (field : computed -> float) (t : Time)
  : completion float * Cache :=
  match Time_computed_in cache t with
  | (Some c, cache') => (Normal (field c), cache')
  | (None, cache') => (Throw TypeError, cache')
  end.

(** Every entry of the cache holds the breakdown of a number equal to its
    key. *)
Definition cache_ok (cache : Cache) : Prop :=
  forall k c, In (k, c) cache ->
    exists k', (k' =? k) = true /\ c = getComputedTime k'.

(** *** Whole seconds, arguments of the factories, strings *)

(** Whether the breakdown of the whole number of minutes [k] (of
    [60 * k] seconds) has [k mod 60] minutes and 0 seconds. *)
Definition minute_exact (k : Z) : bool :=
  let c := getComputedTime (JS.number_of_Z (60 * k)) in
  (minutes c =? JS.number_of_Z (k mod 60)) && (seconds c =? 0).

(** How many of the [n] integers from [z] on satisfy [f]. *)
Fixpoint count_from (n : nat) (z : Z) (f : Z -> bool) : nat :=
  match n with
  | O => O
  | S n' => ((if f z then 1 else 0) + count_from n' (z + 1)%Z f)%nat
  end.

(** A whole number below 100 written with two decimal digits, and whether
    [k] is padded to it. *)
Definition two_digits (k : Z) : string :=
  JS.padStart 2 (JS.digits_of_Z k).

Definition pad_check (k : Z) : bool :=
  (pad 2 (JS.number_of_Z k) =? two_digits k)%string.

(** A string without the character [-]. *)
Fixpoint no_dash (s : string) : bool :=
  match s with
  | EmptyString => true
  | String c rest => negb (c =? "-")%char && no_dash rest
  end.

(** A value that is neither an array nor an object: [Range.from] takes it
    as an end of the range. *)
Definition plain (v : jsval) : bool :=
  match v with
  | JArr _ | JObj _ => false
  | _ => true
  end.

(** An object with the given time fields and nothing else. *)
Definition fields (hours minutes seconds milliseconds ms : option float)
  : jsval :=
  JObj (Obj None hours minutes seconds milliseconds ms None None).


(** *** Binary64 numbers as rationals *)

(** The vocabulary in which the distance between two numbers is stated: the
    exact rational value of a finite number, and what it is for a number to
    be the rounding of a rational. *)
Section Binary64Vocabulary.

Import QArith Qabs Qround Qpower.
Local Open Scope Q_scope.

(** [2^e]. *)
Definition pow2 (e : Z) : Q := 2 ^ e.

(** The magnitude and the sign of a number, and whether it is finite (a
    zero or a [m * 2^e]). *)
Definition Qmag (f : spec_float) : Q :=
  match f with
  | S754_finite _ m e => inject_Z (Zpos m) * pow2 e
  | _ => 0
  end.

Definition SFsign (f : spec_float) : bool :=
  match f with
  | S754_zero s | S754_infinity s | S754_finite s _ _ => s
  | S754_nan => false
  end.

Definition SFfin (f : spec_float) : bool :=
  match f with
  | S754_zero _ | S754_finite _ _ _ => true
  | _ => false
  end.

Definition Qval (f : spec_float) : Q :=
  if SFsign f then - Qmag f else Qmag f.

(** A finite number, and its exact value. *)
Definition finite (x : float) : bool := SFfin (Prim2SF x).

Definition Qof (x : float) : Q := Qval (Prim2SF x).

(** The location [l] of the rational [t] with respect to the integer [m]:
    equal to it, or strictly between [m] and [m + 1], compared with the
    middle. *)
Definition inbetween (m : Z) (l : location) (t : Q) : Prop :=
  match l with
  | loc_Exact => t == inject_Z m
  | loc_Inexact c =>
      inject_Z m < t /\ t < inject_Z m + 1 /\ (t ?= inject_Z m + (1 # 2)) = c
  end.

Definition inb_rec (r : shr_record) (t : Q) : Prop :=
  inbetween (shr_m r) (loc_of_shr_record r) t.

(** A value that binary64 holds exactly: an integer of less than 53 bits
    times a power of two not below the smallest one. *)
Definition repr (T : Q) : Prop :=
  exists z g, (-1074 <= g)%Z /\ (Z.abs z < 2 ^ 53)%Z /\ T == inject_Z z * pow2 g.

(** [R] is a rounding of [T]: of the sign of [T], within half a unit in the
    last place of [T], and [T] itself when binary64 holds [T]. *)
Definition rounds (T R : Q) : Prop :=
  (0 <= T -> 0 <= R) /\ (T <= 0 -> R <= 0) /\
  (forall k, (-1021 <= k)%Z -> Qabs T < pow2 k -> Qabs (R - T) <= pow2 (k - 54)) /\
  (repr T -> R == T).

(** Values on the grid of the multiples of [2^g]. *)
Definition on_grid (g : Z) (T : Q) : Prop :=
  exists z, T == inject_Z z * pow2 g.

(** [x.toFixed(3)] for [0 <= x < 1] whose thousandths round to [n]. *)
Definition fixed3 (n : Z) : string :=
  let ds := JS.digits_of_Z n in
  let ds := if (String.length ds <=? 3)%nat
            then (JS.zeros (4 - String.length ds) ++ ds)%string else ds in
  let k := String.length ds in
  (JS.take (k - 3) ds ++ "." ++ JS.slice_from (k - 3) ds)%string.

(** What [getComputedSeconds] adds for the milliseconds when the fraction of
    a second was printed as [fixed3 n], and the check that it is within
    [2^-50] of [n / 1000]. *)
Definition ms_back (n : Z) : float :=
  (or_zero (Some (1000 * JS.parseFloat (fixed3 n))) / 1000)%float.

Definition ms_check (n : Z) : bool :=
  finite (ms_back n) &&
  Qle_bool (Qabs (Qof (ms_back n) - inject_Z n / 1000)) (pow2 (-50)).

End Binary64Vocabulary.

(** *** Printing through the cache, and what is printed *)

(** [toString(format)] with the cache: the getter [computed] is read once,
    before anything else. *)
Definition Time_toString_in (cache : Cache) (t : Time) (format : option string)
  : string * Cache :=
  let (computed, cache') := Time_computed_in cache t in
  let format := match format with
                | Some f => if (f =? "")%string then "hh:mm:ss" else f
                | None => "hh:mm:ss"
                end in
  (if -1 =? value t then "now"
   else if JS.isNaN (value t) then ""
   else
     match computed with
     | Some c => format_computed c format
     | None => ""
     end,
   cache').

(** [toString(format)] of [Range] with the cache: the start is printed
    first, then the stop. *)
Definition Range_toString_in (cache : Cache) (r : Range)
  (format : option string) : string * Cache :=
  let (start_s, cache1) := Time_toString_in cache (start r) format in
  let (stop_s, cache2) := Time_toString_in cache1 (stop r) format in
  (if truthy (JStr start_s) && truthy (JStr stop_s)
      && (Time_valueOf (start r) <=? Time_valueOf (stop r))
   then start_s ++ "-" ++ stop_s
   else if truthy (JStr start_s) then start_s ++ "-"
   else if truthy (JStr stop_s) then "-" ++ stop_s
   else "",
   cache2).

(** The milliseconds of a breakdown whose fraction of a second was printed
    by [toFixed(3)] as [fixed3 n]. *)
Definition milliseconds_of (n : Z) : float :=
  1000 * JS.parseFloat (fixed3 n).

(** The fraction that [toString] appends to the seconds, from the
    milliseconds. *)
Definition suffix_of (ms : float) : string :=
  if JS.truthy_number ms
  then "." ++ JS.slice_from 2 (JS.Number_toString (ms / 1000))
  else "".

(** [n] thousandths written after a point, without the zeros at the end:
    nothing for 0, the point alone for 1000. *)
Fixpoint drop_trailing_zeros (s : string) : string :=
  match s with
  | EmptyString => EmptyString
  | String c rest =>
      let rest' := drop_trailing_zeros rest in
      if (rest' =? "")%string && (c =? "0")%char then EmptyString
      else String c rest'
  end.

Definition frac_digits (n : Z) : string :=
  if (n =? 0)%Z then ""
  else if (n =? 1000)%Z then "."
  else "." ++ drop_trailing_zeros (JS.padStart 3 (JS.digits_of_Z n)).

Definition ms_whole_check (n : Z) : bool :=
  (milliseconds_of n =? JS.number_of_Z n)
  && (suffix_of (milliseconds_of n) =? frac_digits n)%string.

(** A whole number in decimal, and padded with zeros to two characters. *)
Definition int_digits (k : Z) : string :=
  if (k <? 0)%Z then "-" ++ JS.digits_of_Z (- k) else JS.digits_of_Z k.

Definition two_wide (k : Z) : string :=
  JS.padStart 2 (int_digits k).

Definition wide_check (k : Z) : bool :=
  (pad 2 (JS.number_of_Z k) =? two_wide k)%string.

(* ================================================================== *)
(** ** Facts about binary64 numbers *)
(* ================================================================== *)

Lemma ltb_not_nan_l : forall x y, (x <? y) = true -> PrimFloat.is_nan x = false.
Proof.
  intros x y H. unfold PrimFloat.is_nan.
  rewrite FloatAxioms.eqb_spec. rewrite FloatAxioms.ltb_spec in H.
  unfold SFltb, SFeqb in *.
  destruct (Prim2SF x) as [s| s| |s m e]; simpl in *;
    try discriminate; try reflexivity.
  - destruct s; reflexivity.
  - destruct s; rewrite Z.compare_refl, ?Pos.compare_cont_refl;
      reflexivity.
Qed.

Lemma ltb_not_nan_r : forall x y, (x <? y) = true -> PrimFloat.is_nan y = false.
Proof.
  intros x y H. unfold PrimFloat.is_nan.
  rewrite FloatAxioms.eqb_spec. rewrite FloatAxioms.ltb_spec in H.
  unfold SFltb, SFeqb in *.
  destruct (Prim2SF y) as [s| s| |s m e]; simpl in *; try reflexivity.
  - destruct s; reflexivity.
  - destruct (Prim2SF x); discriminate.
  - destruct s; rewrite Z.compare_refl, ?Pos.compare_cont_refl;
      reflexivity.
Qed.

(** A number above zero is truthy. *)
Lemma positive_truthy : forall x, (0 <? x) = true -> JS.truthy_number x = true.
Proof.
  intros x H. unfold JS.truthy_number. rewrite (ltb_not_nan_r _ _ H).
  unfold PrimFloat.is_zero. rewrite FloatAxioms.eqb_spec.
  rewrite FloatAxioms.ltb_spec in H.
  change (Prim2SF 0) with (S754_zero false) in *.
  change (Prim2SF PrimFloat.zero) with (S754_zero false).
  unfold SFltb, SFeqb in *.
  destruct (Prim2SF x) as [s| s| |s m e]; simpl in *;
    try discriminate; try reflexivity.
  - destruct s; reflexivity.
  - destruct s; reflexivity.
Qed.

(** [0 + x] is [x], except that [0 + -0] is [0]. *)
Lemma zero_add : forall x, x <> (-0) -> 0 + x = x.
Proof.
  intros x H. apply Prim2SF_inj. rewrite add_spec.
  change (Prim2SF 0) with (S754_zero false).
  assert (Hx : Prim2SF x <> S754_zero true).
  { intro E. apply H. apply Prim2SF_inj. rewrite E. reflexivity. }
  unfold SF64add, SFadd.
  destruct (Prim2SF x) as [s| s| |s m e]; try reflexivity.
  destruct s; [congruence | reflexivity].
Qed.

Lemma mul_comm : forall x y, x * y = y * x.
Proof.
  intros x y. apply Prim2SF_inj. rewrite !mul_spec. unfold SF64mul, SFmul.
  destruct (Prim2SF x) as [s| s| |s m e], (Prim2SF y) as [s'| s'| |s' m' e'];
    try reflexivity; try (rewrite xorb_comm; reflexivity).
  rewrite xorb_comm, Pos.mul_comm, Z.add_comm. reflexivity.
Qed.

(** Two numbers that differ under [Leibniz.eqb] are different. *)
Lemma float_neq : forall x y, PrimFloat.Leibniz.eqb x y = false -> x <> y.
Proof.
  intros x y H E. apply FloatAxioms.Leibniz.eqb_spec in E. congruence.
Qed.

Lemma SFeqb_sym : forall a b, SFeqb a b = SFeqb b a.
Proof.
  intros a b. unfold SFeqb, SFcompare.
  destruct a as [s| s| |s m e], b as [s'| s'| |s' m' e']; try reflexivity;
    try (destruct s, s'; reflexivity); try (destruct s; reflexivity);
    try (destruct s'; reflexivity).
  destruct s, s'; try reflexivity;
    rewrite (Z.compare_antisym e e');
    change (Pos.compare_cont Eq m' m) with (Pos.compare m' m);
    change (Pos.compare_cont Eq m m') with (Pos.compare m m');
    rewrite (Pos.compare_antisym m m');
    destruct (e ?= e')%Z; simpl; try reflexivity;
    destruct (m ?= m')%positive; reflexivity.
Qed.

Lemma float_eqb_sym : forall x y, (x =? y) = (y =? x).
Proof. intros. rewrite !FloatAxioms.eqb_spec. apply SFeqb_sym. Qed.

Lemma float_eq_dec : forall x y : float, {x = y} + {x <> y}.
Proof.
  intros x y. destruct (PrimFloat.Leibniz.eqb x y) eqn:E.
  - left. apply FloatAxioms.Leibniz.eqb_spec. exact E.
  - right. apply float_neq. exact E.
Qed.

Lemma SFeqb_refl_false : forall a, SFeqb a a = false -> a = S754_nan.
Proof.
  intros [s| s| |s m e]; unfold SFeqb, SFcompare; try reflexivity.
  - discriminate.
  - destruct s; discriminate.
  - destruct s; rewrite Z.compare_refl, Pos.compare_cont_refl; discriminate.
Qed.

(** [NaN] equals no number. *)
Lemma nan_eqb_r : forall x y, PrimFloat.is_nan x = true -> (y =? x) = false.
Proof.
  intros x y H. unfold PrimFloat.is_nan in H. apply negb_true_iff in H.
  rewrite FloatAxioms.eqb_spec in *. apply SFeqb_refl_false in H. rewrite H.
  unfold SFeqb, SFcompare. destruct (Prim2SF y); reflexivity.
Qed.

(* ================================================================== *)
(** ** Strings without format tokens *)
(* ================================================================== *)

Lemma inert_str_app : forall a b,
  inert_str (a ++ b) = inert_str a && inert_str b.
Proof.
  induction a as [|c a IH]; intros b; simpl.
  - reflexivity.
  - rewrite IH, andb_assoc. reflexivity.
Qed.

Lemma inert_str_take : forall n s,
  inert_str s = true -> inert_str (JS.take n s) = true.
Proof.
  induction n as [|n IH]; intros [|c s] H; simpl in *; try reflexivity.
  apply andb_true_iff in H as [Hc Hs]. rewrite Hc, (IH _ Hs). reflexivity.
Qed.

Lemma inert_str_slice_from : forall n s,
  inert_str s = true -> inert_str (JS.slice_from n s) = true.
Proof.
  induction n as [|n IH]; intros [|c s] H; simpl in *; try assumption;
    try reflexivity.
  apply andb_true_iff in H as [_ Hs]. exact (IH _ Hs).
Qed.

Lemma inert_str_zeros : forall n, inert_str (JS.zeros n) = true.
Proof.
  induction n as [|n IH]; simpl; [reflexivity | exact IH].
Qed.

Lemma inert_digit_char : forall d,
  (0 <= d < 10)%Z -> inert (JS.digit_char d) = true.
Proof.
  intros d Hd.
  assert (E : d = 0%Z \/ d = 1%Z \/ d = 2%Z \/ d = 3%Z \/ d = 4%Z \/ d = 5%Z
              \/ d = 6%Z \/ d = 7%Z \/ d = 8%Z \/ d = 9%Z) by lia.
  repeat (destruct E as [E | E]; [subst d; reflexivity | ]).
  subst d; reflexivity.
Qed.

Lemma inert_str_digits_fuel : forall fuel z acc,
  inert_str acc = true -> inert_str (JS.digits_fuel fuel z acc) = true.
Proof.
  induction fuel as [|fuel IH]; intros z acc H; simpl.
  - exact H.
  - assert (Hacc : inert_str (String (JS.digit_char (z mod 10)) acc) = true).
    { simpl. rewrite H, inert_digit_char; [reflexivity | ].
      apply Z.mod_pos_bound. lia. }
    destruct (z <? 10)%Z; [exact Hacc | apply IH; exact Hacc].
Qed.

Lemma inert_str_digits_of_Z : forall z, inert_str (JS.digits_of_Z z) = true.
Proof.
  intros z. unfold JS.digits_of_Z. apply inert_str_digits_fuel. reflexivity.
Qed.

Lemma inert_str_layout : forall s n k, inert_str (JS.layout s n k) = true.
Proof.
  intros s n k. unfold JS.layout.
  pose proof (inert_str_digits_of_Z s) as Hs.
  repeat match goal with
         | |- context [if ?b then _ else _] => destruct b
         end;
    rewrite ?inert_str_app, ?Hs, ?inert_str_zeros, ?inert_str_digits_of_Z,
      ?(inert_str_take _ _ Hs), ?(inert_str_slice_from _ _ Hs);
    reflexivity.
Qed.

(** The decimal rendering of a number holds no format letter. *)
Lemma inert_str_Number_toString : forall x,
  inert_str (JS.Number_toString x) = true.
Proof.
  intros x. unfold JS.Number_toString.
  destruct (Prim2SF x) as [s| s| |s m e]; try reflexivity.
  - destruct s; reflexivity.
  - destruct (JS.ratio_of m e) as [num den].
    destruct (JS.shortest _ _ _ _ _ _) as [[d n'] k].
    rewrite inert_str_app, inert_str_layout. destruct s; reflexivity.
Qed.

Lemma inert_str_pad : forall n x, inert_str (pad n x) = true.
Proof.
  intros n x. unfold pad, JS.padStart.
  rewrite inert_str_app, inert_str_zeros, inert_str_Number_toString.
  reflexivity.
Qed.

Lemma inert_str_fraction_suffix : forall c,
  inert_str (fraction_suffix c) = true.
Proof.
  intros c. unfold fraction_suffix. destruct (JS.truthy_number (ms c)).
  - rewrite inert_str_app, inert_str_slice_from;
      [reflexivity | apply inert_str_Number_toString].
  - reflexivity.
Qed.
Lemma append_empty_r : forall s : string, s ++ "" = s.
Proof. induction s as [|c s IH]; simpl; [reflexivity | now rewrite IH]. Qed.


Lemma inert_not_token : forall a, inert a = true -> token_letter a = false.
Proof.
  intros a H. unfold inert in H. apply andb_true_iff in H as [H _].
  apply negb_true_iff in H. exact H.
Qed.

Lemma inert_not_white : forall a, inert a = true -> JS.is_white a = false.
Proof.
  intros a H. unfold inert in H. apply andb_true_iff in H as [_ H].
  apply negb_true_iff in H. exact H.
Qed.

Lemma replace_inert_prefix : forall c pat' rep P s,
  token_letter c = true -> inert_str P = true ->
  JS.replace (String c pat') rep (P ++ s) = P ++ JS.replace (String c pat') rep s.
Proof.
  intros c pat' rep P s Hc. induction P as [|a P IH]; intros HP.
  - reflexivity.
  - simpl in HP. apply andb_true_iff in HP as [Ha HP].
    cbn [append JS.replace String.prefix].
    destruct (ascii_dec c a) as [E|E].
    + subst a. apply inert_not_token in Ha. congruence.
    + rewrite IH by exact HP. reflexivity.
Qed.

Lemma replace_inert : forall c pat' rep P,
  token_letter c = true -> inert_str P = true ->
  JS.replace (String c pat') rep P = P.
Proof.
  intros c pat' rep P Hc HP.
  rewrite <- (append_empty_r P) at 1.
  rewrite replace_inert_prefix by assumption. cbn. apply append_empty_r.
Qed.

Lemma strip_tokens_inert : forall P, inert_str P = true -> strip_tokens P = P.
Proof.
  induction P as [|a P IH]; intros HP.
  - reflexivity.
  - simpl in HP. apply andb_true_iff in HP as [Ha HP].
    pose proof (inert_not_token _ Ha) as Ht. unfold token_letter in Ht.
    repeat (apply orb_false_iff in Ht as [Ht ?]).
    cbn [strip_tokens].
    rewrite Ht, H, H0, H1, H2, H3. cbn [andb orb].
    rewrite (IH HP). destruct P; reflexivity.
Qed.

Lemma rev_onto_rev_onto : forall s acc acc',
  JS.rev_onto (JS.rev_onto s acc) acc' = JS.rev_onto acc (s ++ acc').
Proof.
  induction s as [|c s IH]; intros acc acc'; simpl.
  - reflexivity.
  - rewrite IH. reflexivity.
Qed.

Lemma inert_str_rev_onto : forall s acc,
  inert_str s = true -> inert_str acc = true -> inert_str (JS.rev_onto s acc) = true.
Proof.
  induction s as [|c s IH]; intros acc Hs Hacc; simpl in *.
  - exact Hacc.
  - apply andb_true_iff in Hs as [Hc Hs]. apply IH; [exact Hs | ].
    simpl. rewrite Hc, Hacc. reflexivity.
Qed.

Lemma trim_start_inert : forall s, inert_str s = true -> JS.trim_start s = s.
Proof.
  intros [|c s] H; simpl in *; [reflexivity | ].
  apply andb_true_iff in H as [Hc _]. rewrite (inert_not_white _ Hc). reflexivity.
Qed.

Lemma trim_inert : forall s, inert_str s = true -> JS.trim s = s.
Proof.
  intros s H. unfold JS.trim. rewrite (trim_start_inert s H).
  rewrite trim_start_inert by (apply inert_str_rev_onto; [exact H | reflexivity]).
  rewrite rev_onto_rev_onto. simpl. apply append_empty_r.
Qed.

Ltac inert_solve :=
  repeat (rewrite inert_str_app || (cbn [inert_str]));
  rewrite ?inert_str_pad, ?inert_str_fraction_suffix, ?inert_str_Number_toString;
  reflexivity.


Lemma replace_skip : forall c pat' rep a s,
  c <> a ->
  JS.replace (String c pat') rep (String a s) = String a (JS.replace (String c pat') rep s).
Proof.
  intros c pat' rep a s H. cbn [JS.replace String.prefix].
  destruct (ascii_dec c a); [contradiction | reflexivity].
Qed.

Ltac push_replace :=
  repeat first
    [ rewrite replace_inert_prefix by (first [reflexivity | inert_solve])
    | rewrite replace_skip by discriminate ].

Ltac finish_format :=
  rewrite ?append_empty_r;
  repeat match goal with
         | |- context [JS.replace (String ?c ?p) ?r ?P] =>
             rewrite (replace_inert c p r P) by (first [reflexivity | inert_solve])
         end;
  rewrite strip_tokens_inert by inert_solve;
  rewrite trim_inert by inert_solve;
  reflexivity.

Lemma format_default : forall c,
  format_computed c "hh:mm:ss" = pad 2 (hours c) ++ ":" ++ pad 2 (minutes c) ++ ":" ++ pad 2 (seconds c) ++ fraction_suffix c.
Proof.
  intros c. unfold format_computed.
  change (JS.replace "S" (JS.Number_toString (totalSeconds c)) "hh:mm:ss") with "hh:mm:ss".
  change (JS.replace "M" (JS.Number_toString (totalMinutes c)) "hh:mm:ss") with "hh:mm:ss".
  change (JS.replace "H" (JS.Number_toString (totalHours c)) "hh:mm:ss") with "hh:mm:ss".
  change (JS.replace "hh" (pad 2 (hours c)) "hh:mm:ss") with (pad 2 (hours c) ++ ":mm:ss").
  push_replace.
  change (JS.replace "mm" (pad 2 (minutes c)) "mm:ss") with (pad 2 (minutes c) ++ ":ss").
  push_replace.
  change (JS.replace "ss" (pad 2 (seconds c) ++ fraction_suffix c) "ss")
    with ((pad 2 (seconds c) ++ fraction_suffix c) ++ "").
  rewrite append_empty_r.
  finish_format.
Qed.

Lemma format_hh : forall c, format_computed c "hh" = pad 2 (hours c).
Proof.
  intros c. unfold format_computed.
  change (JS.replace "S" (JS.Number_toString (totalSeconds c)) "hh") with "hh".
  change (JS.replace "M" (JS.Number_toString (totalMinutes c)) "hh") with "hh".
  change (JS.replace "H" (JS.Number_toString (totalHours c)) "hh") with "hh".
  change (JS.replace "hh" (pad 2 (hours c)) "hh") with (pad 2 (hours c) ++ "").
  finish_format.
Qed.

Lemma format_S : forall c, format_computed c "S" = JS.Number_toString (totalSeconds c).
Proof.
  intros c. unfold format_computed.
  change (JS.replace "S" (JS.Number_toString (totalSeconds c)) "S") with (JS.Number_toString (totalSeconds c) ++ "").
  finish_format.
Qed.

Lemma format_mm : forall c, format_computed c "mm" = pad 2 (minutes c).
Proof.
  intros c. unfold format_computed.
  change (JS.replace "S" (JS.Number_toString (totalSeconds c)) "mm") with "mm".
  change (JS.replace "M" (JS.Number_toString (totalMinutes c)) "mm") with "mm".
  change (JS.replace "H" (JS.Number_toString (totalHours c)) "mm") with "mm".
  change (JS.replace "hh" (pad 2 (hours c)) "mm") with "mm".
  change (JS.replace "mm" (pad 2 (minutes c)) "mm") with (pad 2 (minutes c) ++ "").
  finish_format.
Qed.

Lemma format_ss : forall c,
  format_computed c "ss" = pad 2 (seconds c) ++ fraction_suffix c.
Proof.
  intros c. unfold format_computed.
  change (JS.replace "S" (JS.Number_toString (totalSeconds c)) "ss") with "ss".
  change (JS.replace "M" (JS.Number_toString (totalMinutes c)) "ss") with "ss".
  change (JS.replace "H" (JS.Number_toString (totalHours c)) "ss") with "ss".
  change (JS.replace "hh" (pad 2 (hours c)) "ss") with "ss".
  change (JS.replace "mm" (pad 2 (minutes c)) "ss") with "ss".
  change (JS.replace "ss" (pad 2 (seconds c) ++ fraction_suffix c) "ss")
    with ((pad 2 (seconds c) ++ fraction_suffix c) ++ "").
  finish_format.
Qed.

Lemma format_M : forall c,
  format_computed c "M" = JS.Number_toString (totalMinutes c).
Proof.
  intros c. unfold format_computed.
  change (JS.replace "S" (JS.Number_toString (totalSeconds c)) "M") with "M".
  change (JS.replace "M" (JS.Number_toString (totalMinutes c)) "M")
    with (JS.Number_toString (totalMinutes c) ++ "").
  finish_format.
Qed.

Lemma format_H : forall c,
  format_computed c "H" = JS.Number_toString (totalHours c).
Proof.
  intros c. unfold format_computed.
  change (JS.replace "S" (JS.Number_toString (totalSeconds c)) "H") with "H".
  change (JS.replace "M" (JS.Number_toString (totalMinutes c)) "H") with "H".
  change (JS.replace "H" (JS.Number_toString (totalHours c)) "H")
    with (JS.Number_toString (totalHours c) ++ "").
  finish_format.
Qed.
(** The breakdowns of the two zeros print alike under every format. *)
Lemma zero_keys_print_alike : forall format,
  format_computed (getComputedTime (-0)) format =
  format_computed (getComputedTime 0) format.
Proof.
  intros format. unfold format_computed, pad, fraction_suffix.
  replace (getComputedTime (-0)) with
    {| totalMilliseconds := -0; totalSeconds := -0; totalMinutes := -0;
       totalHours := -0; milliseconds := 0; seconds := 0; minutes := 0;
       hours := -0; ms := 0 |} by (vm_compute; reflexivity).
  replace (getComputedTime 0) with
    {| totalMilliseconds := 0; totalSeconds := 0; totalMinutes := 0;
       totalHours := 0; milliseconds := 0; seconds := 0; minutes := 0;
       hours := 0; ms := 0 |} by (vm_compute; reflexivity).
  cbn [totalSeconds totalMinutes totalHours hours minutes seconds ms
       milliseconds].
  change (JS.Number_toString (-0)) with "0".
  change (JS.Number_toString 0) with "0".
  reflexivity.
Qed.

Lemma all_from_spec : forall n z f, all_from n z f = true ->
  forall k, (z <= k < z + Z.of_nat n)%Z -> f k = true.
Proof.
  induction n as [|n IH]; intros z f H k Hk.
  - simpl in Hk. lia.
  - simpl in H. apply andb_true_iff in H as [H0 H1].
    destruct (Z.eq_dec k z) as [->|Hne]; [exact H0 | ].
    apply (IH (z + 1)%Z f H1). lia.
Qed.

(* ================================================================== *)
(** ** Facts about Time and Range *)
(* ================================================================== *)

(** For a numeric time, [toString] is the chain of replacements over the
    breakdown of its value. *)
Lemma Time_toString_numeric : forall t format,
  isNow t = false -> isValid t = true ->
  Time_toString t (Some format) =
    format_computed (getComputedTime (value t))
      (if (format =? "")%string then "hh:mm:ss" else format).
Proof.
  intros t format Hnow Hvalid. unfold Time_toString, Time_computed.
  unfold isNow, NOW in Hnow. rewrite Hnow.
  unfold isValid in Hvalid. destruct (JS.isNaN (value t)); [discriminate | ].
  reflexivity.
Qed.

(** [set(NaN)] leaves a time as it is. *)
Lemma Time_set_NaN : forall npt_parse t,
  Time_set npt_parse t (JNum nan) = Normal t.
Proof. reflexivity. Qed.

Lemma Time_set_now : forall npt_parse t,
  Time_set npt_parse t (JStr "now") = Normal (new_Time NOW).
Proof. reflexivity. Qed.

(** The branch of [Range.set] that calls [this.stop.set(Number.NaN)] changes
    nothing: the stop is what [Time.set] made of the [stop] argument. *)
Lemma Range_set_unfold : forall npt_parse r a b,
  Range_set npt_parse r a b =
    (start' <- Time_set npt_parse (start r) a ;;
     if truthy b then
       stop' <- Time_set npt_parse (stop r) b ;;
       Normal {| start := start'; stop := stop' |}
     else Normal {| start := start'; stop := stop r |}).
Proof.
  intros npt_parse r a b. unfold Range_set.
  destruct (Time_set npt_parse (start r) a) as [start'|e]; [ | reflexivity].
  cbn [bind]. destruct (truthy b); [ | reflexivity].
  destruct (Time_set npt_parse (stop r) b) as [stop'|e]; [ | reflexivity].
  cbn [bind]. rewrite Time_set_NaN. cbn [bind].
  destruct (Time_valueOf stop' <? Time_valueOf start'); reflexivity.
Qed.

Lemma new_Range_unfold : forall npt_parse a b,
  new_Range npt_parse a b =
    Range_set npt_parse {| start := new_Time nan; stop := new_Time nan |} a b.
Proof. reflexivity. Qed.

(** [Time.from] throws for [true] and for nothing else. *)
Lemma Time_from_throws : forall npt_parse arg e,
  Time_from npt_parse arg = Throw e <-> arg = JBool true /\ e = TypeError.
Proof.
  intros npt_parse arg e. split.
  - destruct arg as [ | |b|x|s|items|o]; try discriminate.
    + destruct b; [ | discriminate]. destruct e. intros _. split; reflexivity.
    + simpl. destruct (negb (JS.isNaN x)); discriminate.
    + simpl. destruct (s =? "now")%string; [discriminate | ].
      destruct (npt_parse s) as [p|]; [ | discriminate].
      destruct (JS.truthy_number p); discriminate.
    + destruct o as [v h m s ml mss a b]. simpl.
      destruct v as [[ | |bb|x|ss|items|o']|]; simpl; try discriminate;
        destruct h, m, s; simpl; discriminate.
  - intros [-> ->]. reflexivity.
Qed.

(* ================================================================== *)
(** ** Facts about the exact helpers *)
(* ================================================================== *)

Section ExactFacts.

Import QArith Qround Qabs Lqa.
Local Open Scope Q_scope.



(** The fraction of a second that is rounded lies in [[0, 1)]. *)
Lemma exact_fraction_in_unit : forall v : Q,
  let c := Exact.getComputedTime v in
  let frac := Exact.totalSeconds c - Exact.hours c * 60 * 60
              - Exact.minutes c * 60 - Exact.seconds c in
  0 <= frac /\ frac < 1.
Proof.
  intros v c frac. subst frac c.
  cbn [Exact.getComputedTime Exact.seconds Exact.minutes Exact.hours
       Exact.totalSeconds].
  set (X := v - Exact.floor (v / 60 / 60) * 60 * 60
            - Exact.floor ((v / 60 / 60 - Exact.floor (v / 60 / 60)) * 60) * 60).
  pose proof (Qfloor_le X) as Hle. pose proof (Qlt_floor X) as Hlt.
  rewrite inject_Z_plus in Hlt. change (inject_Z 1) with 1 in Hlt.
  fold (Exact.floor X) in Hle, Hlt. clearbody X. split; lra.
Qed.

(** In exact arithmetic the two divisions by 60 are one division by
    3600. *)
Lemma exact_totals : forall v : Q,
  let c := Exact.getComputedTime v in
  Exact.totalMinutes c == v / 60 /\ Exact.totalHours c == v / 3600.
Proof. intros v c. subst c. cbn. split; field. Qed.

End ExactFacts.

(* ================================================================== *)
(** ** Binary64 rounding *)
(* ================================================================== *)

(** The operations of [SpecFloat], to which the axioms of [FloatAxioms] tie
    the primitive ones, round to nearest, ties to even.  This section proves
    it from their definitions: each operation on finite numbers returns a
    rounding, in the sense of [rounds], of the exact result. *)
Section Binary64Rounding.

Import QArith Qabs Qround Qpower Lqa.

Local Open Scope Z_scope.

(** The number of binary digits of a mantissa. *)
Lemma digits2_pos_bounds : forall m : positive,
  (2 ^ (Zpos (digits2_pos m) - 1) <= Zpos m < 2 ^ Zpos (digits2_pos m))%Z.
Proof.
  induction m as [p IH | p IH | ]; cbn [digits2_pos].
  - rewrite Pos2Z.inj_succ.
    replace (Z.succ (Zpos (digits2_pos p)) - 1) with (Zpos (digits2_pos p) - 1 + 1) by lia.
    rewrite Z.pow_succ_r by lia. rewrite Z.pow_add_r by lia.
    change (2 ^ 1) with 2. lia.
  - rewrite Pos2Z.inj_succ.
    replace (Z.succ (Zpos (digits2_pos p)) - 1) with (Zpos (digits2_pos p) - 1 + 1) by lia.
    rewrite Z.pow_succ_r by lia. rewrite Z.pow_add_r by lia.
    change (2 ^ 1) with 2. lia.
  - simpl. lia.
Qed.

(** [iter_pos] iterates [Pos.to_nat p] times. *)
Lemma iter_pos_nat : forall (A : Type) (f : A -> A) (p : positive) (x : A),
  SpecFloat.iter_pos f p x = Nat.iter (Pos.to_nat p) f x.
Proof.
  intros A f. induction p as [p IH | p IH | ]; intros x; cbn [SpecFloat.iter_pos].
  - rewrite !IH. rewrite Pos2Nat.inj_xI.
    replace (S (2 * Pos.to_nat p)) with (Pos.to_nat p + (Pos.to_nat p + 1))%nat by lia.
    rewrite !Nat.iter_add. simpl. reflexivity.
  - rewrite !IH. rewrite Pos2Nat.inj_xO.
    replace (2 * Pos.to_nat p)%nat with (Pos.to_nat p + Pos.to_nat p)%nat by lia.
    rewrite Nat.iter_add. reflexivity.
  - reflexivity.
Qed.

Local Open Scope Q_scope.

Lemma inject_Z_xO : forall p, inject_Z (Zpos p~0) == 2 * inject_Z (Zpos p).
Proof. intros p. rewrite <- (inject_Z_mult 2). reflexivity. Qed.

Lemma inject_Z_xI : forall p, inject_Z (Zpos p~1) == 2 * inject_Z (Zpos p) + 1.
Proof.
  intros p. change 1 with (inject_Z 1).
  rewrite <- (inject_Z_mult 2), <- inject_Z_plus. reflexivity.
Qed.

Lemma Qcompare_Lt : forall a b, a < b -> (a ?= b) = Lt.
Proof. intros a b H. apply Qlt_alt. exact H. Qed.

Lemma Qcompare_Gt : forall a b, b < a -> (a ?= b) = Gt.
Proof. intros a b H. apply Qgt_alt. exact H. Qed.

Lemma Qcompare_Eq : forall a b, a == b -> (a ?= b) = Eq.
Proof. intros a b H. apply Qeq_alt. exact H. Qed.

(** One shift to the right halves the located value. *)
Lemma shr_1_step : forall r t,
  (0 <= shr_m r)%Z -> inb_rec r t -> inb_rec (shr_1 r) (t * (1 # 2)).
Proof.
  intros [m r s] t Hm. unfold inb_rec, inbetween. cbn [shr_m] in *.
  destruct m as [|p|p]; [ | | lia].
  - (* m = 0 *)
    destruct r, s; cbn; change (inject_Z 0) with 0; intros H.
    + destruct H as (H1 & H2 & H3). apply Qgt_alt in H3.
      split; [lra | split; [lra | apply Qcompare_Lt; lra]].
    + destruct H as (H1 & H2 & H3). apply Qeq_alt in H3.
      split; [lra | split; [lra | apply Qcompare_Lt; lra]].
    + destruct H as (H1 & H2 & H3). apply Qlt_alt in H3.
      split; [lra | split; [lra | apply Qcompare_Lt; lra]].
    + lra.
  - destruct p as [p|p|]; destruct r, s; cbn;
      change (inject_Z 0) with 0; change (inject_Z 1) with 1; intros H;
      try (destruct H as (H1 & H2 & H3));
      rewrite ?inject_Z_xO, ?inject_Z_xI in *;
      try (apply Qgt_alt in H3); try (apply Qeq_alt in H3);
      try (apply Qlt_alt in H3);
      try lra;
      try (split; [lra | split; [lra |
             first [apply Qcompare_Lt; lra | apply Qcompare_Gt; lra
                   | apply Qcompare_Eq; lra]]]).
Qed.

Lemma pow2_pos : forall e, 0 < pow2 e.
Proof. intros e. apply Qpower_0_lt. reflexivity. Qed.

Lemma pow2_add : forall a b, pow2 (a + b) == pow2 a * pow2 b.
Proof. intros a b. apply Qpower_plus. discriminate. Qed.

Lemma pow2_0 : pow2 0 == 1.
Proof. reflexivity. Qed.

Lemma pow2_1 : pow2 1 == 2.
Proof. reflexivity. Qed.

Lemma pow2_m1 : pow2 (-1) == 1 # 2.
Proof. reflexivity. Qed.

Lemma pow2_succ : forall e, pow2 (e + 1) == 2 * pow2 e.
Proof. intros e. rewrite pow2_add, pow2_1. ring. Qed.

Lemma pow2_pred : forall e, pow2 (e - 1) == (1 # 2) * pow2 e.
Proof.
  intros e. replace (e - 1)%Z with (e + -1)%Z by lia.
  rewrite pow2_add, pow2_m1. ring.
Qed.

Lemma pow2_le : forall a b, (a <= b)%Z -> pow2 a <= pow2 b.
Proof.
  intros a b H. replace b with (a + (b - a))%Z by lia. rewrite pow2_add.
  assert (1 <= pow2 (b - a)).
  { unfold pow2. apply Qpower_1_le; [lra | lia]. }
  pose proof (pow2_pos a). nra.
Qed.

Lemma pow2_lt : forall a b, (a < b)%Z -> pow2 a < pow2 b.
Proof.
  intros a b H. replace b with (a + 1 + (b - a - 1))%Z by lia.
  rewrite pow2_add, pow2_succ.
  assert (1 <= pow2 (b - a - 1)).
  { unfold pow2. apply Qpower_1_le; [lra | lia]. }
  pose proof (pow2_pos a). nra.
Qed.

Lemma pow2_inject : forall n, (0 <= n)%Z -> pow2 n == inject_Z (2 ^ n).
Proof. intros n H. unfold pow2. rewrite Zpower_Qpower by exact H. reflexivity. Qed.

(** One shift halves the mantissa. *)
Lemma shr_1_m : forall r, (0 <= shr_m r)%Z ->
  shr_m (shr_1 r) = (shr_m r / 2)%Z /\ (0 <= shr_m (shr_1 r))%Z.
Proof.
  intros [m r s] Hm. cbn [shr_m] in *.
  destruct m as [|p|p]; [ | | lia].
  - cbn. split; [reflexivity | lia].
  - destruct p as [p|p|]; cbn [shr_1 shr_m].
    + split; [ | lia]. rewrite Pos2Z.inj_xI.
      replace (2 * Z.pos p + 1)%Z with (1 + Z.pos p * 2)%Z by lia.
      rewrite Z.div_add by lia. reflexivity.
    + split; [ | lia]. rewrite Pos2Z.inj_xO.
      replace (2 * Z.pos p)%Z with (Z.pos p * 2)%Z by lia.
      rewrite Z.div_mul by lia. reflexivity.
    + split; [reflexivity | lia].
Qed.

(** [k] shifts divide the located value and the mantissa by [2^k]. *)
Lemma shr_iter : forall (k : nat) r t,
  (0 <= shr_m r)%Z -> inb_rec r t ->
  inb_rec (Nat.iter k shr_1 r) (t * pow2 (- Z.of_nat k)) /\
  shr_m (Nat.iter k shr_1 r) = (shr_m r / 2 ^ Z.of_nat k)%Z /\
  (0 <= shr_m (Nat.iter k shr_1 r))%Z.
Proof.
  induction k as [|k IH]; intros r t Hm H.
  - change (Nat.iter 0 shr_1 r) with r. change (Z.of_nat 0) with 0%Z.
    split; [ | split].
    + assert (E : t * pow2 (- 0) == t) by (change (pow2 (- 0)) with 1; ring).
      unfold inb_rec, inbetween in *.
      destruct (loc_of_shr_record r); rewrite E; exact H.
    + rewrite Z.pow_0_r, Z.div_1_r. reflexivity.
    + exact Hm.
  - change (Nat.iter (S k) shr_1 r) with (shr_1 (Nat.iter k shr_1 r)).
    destruct (IH r t Hm H) as (H1 & H2 & H3).
    destruct (shr_1_m _ H3) as (H4 & H5).
    split; [ | split].
    + pose proof (shr_1_step _ _ H3 H1) as H6.
      unfold inb_rec, inbetween in *.
      assert (E : t * pow2 (- Z.of_nat k) * (1 # 2) == t * pow2 (- Z.of_nat (S k))).
      { rewrite Nat2Z.inj_succ.
        replace (- Z.succ (Z.of_nat k))%Z with (- Z.of_nat k - 1)%Z by lia.
        rewrite pow2_pred. ring. }
      destruct (loc_of_shr_record (shr_1 (Nat.iter k shr_1 r))); rewrite <- E; exact H6.
    + rewrite H4, H2. rewrite Nat2Z.inj_succ, Z.pow_succ_r by lia.
      rewrite Z.div_div by lia. f_equal. lia.
    + exact H5.
Qed.

Local Open Scope Z_scope.

Local Abbreviation fexp := (SpecFloat.fexp 53 1024).

Lemma fexp_eq : forall k, fexp k = Z.max (k - 53) (-1074).
Proof. reflexivity. Qed.

Lemma Zdigits2_unique : forall z d,
  0 < z -> 2 ^ (d - 1) <= z < 2 ^ d -> Zdigits2 z = d.
Proof.
  intros z d Hz [Hlo Hhi].
  destruct z as [|p|p]; try lia. cbn [Zdigits2].
  pose proof (digits2_pos_bounds p) as [Hlo' Hhi'].
  set (d' := Zpos (digits2_pos p)) in *.
  assert (Hd' : 1 <= d') by (unfold d'; lia).
  assert (Hd : 1 <= d).
  { destruct (Z_lt_le_dec d 1) as [H|H]; [ | exact H].
    exfalso. assert (2 ^ d <= 2 ^ 0) by (destruct (Z_lt_le_dec d 0);
      [rewrite Z.pow_neg_r by lia; simpl; lia | apply Z.pow_le_mono_r; lia]).
    simpl in H0. lia. }
  destruct (Z.lt_trichotomy d' d) as [H | [H | H]]; [ | exact H | ].
  - exfalso. assert (2 ^ d' <= 2 ^ (d - 1)) by (apply Z.pow_le_mono_r; lia). lia.
  - exfalso. assert (2 ^ d <= 2 ^ (d' - 1)) by (apply Z.pow_le_mono_r; lia). lia.
Qed.

Lemma Zdigits2_bounds : forall z, 0 < z ->
  2 ^ (Zdigits2 z - 1) <= z < 2 ^ Zdigits2 z /\ 1 <= Zdigits2 z.
Proof.
  intros [|p|p] Hz; try lia. cbn [Zdigits2].
  split; [apply digits2_pos_bounds | lia].
Qed.

Lemma shr_record_loc : forall m l,
  shr_m (shr_record_of_loc m l) = m /\
  loc_of_shr_record (shr_record_of_loc m l) = l.
Proof. intros m [|[| |]]; split; reflexivity. Qed.

Lemma Zdigits2_nonneg : forall z, 0 <= Zdigits2 z.
Proof. intros [|p|p]; cbn; lia. Qed.

Lemma Zdigits2_upper : forall z, 0 <= z -> z < 2 ^ Zdigits2 z.
Proof.
  intros z Hz. destruct (Z.eq_dec z 0) as [->|Hn]; [reflexivity | ].
  apply Zdigits2_bounds. lia.
Qed.

(** [shr_fexp] brings the mantissa to the exponent that [fexp] asks for. *)
Lemma shr_fexp_spec : forall mx ex lx t,
  let n := fexp (Zdigits2 mx + ex) - ex in
  0 <= mx -> inbetween mx lx t -> 0 <= n ->
  exists r,
    shr_fexp 53 1024 mx ex lx = (r, ex + n) /\
    inb_rec r (t * pow2 (- n))%Q /\
    shr_m r = mx / 2 ^ n.
Proof.
  intros mx ex lx t n Hmx Hin Hn.
  unfold shr_fexp. fold n.
  assert (Hrec : inb_rec (shr_record_of_loc mx lx) t).
  { unfold inb_rec. destruct (shr_record_loc mx lx) as [-> ->]. exact Hin. }
  assert (Hm0 : 0 <= shr_m (shr_record_of_loc mx lx)).
  { destruct (shr_record_loc mx lx) as [-> _]. lia. }
  destruct n as [|p|p] eqn:En; [ | | lia].
  - exists (shr_record_of_loc mx lx). cbn [shr].
    split; [f_equal; lia | split].
    + assert (E : (t * pow2 (- 0) == t)%Q) by (change (pow2 (- 0)) with 1%Q; ring).
      unfold inb_rec, inbetween in *.
      destruct (loc_of_shr_record (shr_record_of_loc mx lx)); rewrite E; exact Hrec.
    + destruct (shr_record_loc mx lx) as [-> _].
      rewrite Z.pow_0_r, Z.div_1_r. reflexivity.
  - cbn [shr]. rewrite iter_pos_nat.
    destruct (shr_iter (Pos.to_nat p) _ t Hm0 Hrec) as (H1 & H2 & H3).
    rewrite positive_nat_Z in *.
    eexists. split; [reflexivity | split].
    + exact H1.
    + rewrite H2. destruct (shr_record_loc mx lx) as [-> _]. reflexivity.
Qed.

(** Rounding to nearest, ties to even, of a located value. *)
Lemma round_nearest_even_spec : forall m l t,
  inbetween m l t ->
  let m2 := round_nearest_even m l in
  (m2 = m \/ m2 = m + 1) /\
  (inject_Z m <= t < inject_Z m + 1)%Q /\
  (inject_Z m2 - t <= 1 # 2)%Q /\ (t - inject_Z m2 <= 1 # 2)%Q /\
  (t == inject_Z m -> m2 = m)%Q.
Proof.
  intros m l t Hin m2. subst m2.
  destruct l as [|c]; cbn [inbetween round_nearest_even] in *.
  - repeat split; try lra. left; reflexivity.
  - destruct Hin as (H1 & H2 & H3).
    assert (E1 : (inject_Z (m + 1) == inject_Z m + 1)%Q).
    { rewrite inject_Z_plus. reflexivity. }
    destruct c.
    + apply Qeq_alt in H3.
      destruct (Z.even m); repeat split; try rewrite E1; try lra; auto.
    + apply Qlt_alt in H3. repeat split; try lra. left; reflexivity.
    + apply Qgt_alt in H3. repeat split; try rewrite E1; try lra. right; reflexivity.
Qed.

Lemma Zpow2_lt_inv : forall a b, 2 ^ a < 2 ^ b -> 0 <= b -> a < b.
Proof.
  intros a b H Hb. destruct (Z_lt_le_dec a b) as [L|L]; [exact L | exfalso].
  assert (2 ^ b <= 2 ^ a) by (apply Z.pow_le_mono_r; lia). lia.
Qed.

(** [binary_round_aux]: the result is valid, of the sign given, and its
    magnitude is the mantissa brought to the exponent [e1] and rounded to
    nearest, ties to even. *)
Lemma binary_round_aux_spec : forall sx mx ex lx t,
  0 <= mx -> inbetween mx lx t ->
  let e1 := fexp (Zdigits2 mx + ex) in
  ex <= e1 -> e1 <= 970 ->
  let r := binary_round_aux 53 1024 sx mx ex lx in
  let t1 := (t * pow2 (ex - e1))%Q in
  exists m1 m2,
    SFfin r = true /\ SFsign r = sx /\ SpecFloat.valid_binary 53 1024 r = true /\
    (Qmag r == inject_Z m2 * pow2 e1)%Q /\
    0 <= m1 /\ (m2 = m1 \/ m2 = m1 + 1) /\ m2 <= 2 ^ 53 /\
    (inject_Z m1 <= t1 < inject_Z m1 + 1)%Q /\
    (inject_Z m2 - t1 <= 1 # 2)%Q /\ (t1 - inject_Z m2 <= 1 # 2)%Q /\
    (t1 == inject_Z m1 -> m2 = m1)%Q.
Proof.
  intros sx mx ex lx t Hmx Hin e1 Hle Hmax r t1.
  set (d := Zdigits2 mx) in *.
  assert (Hd0 : 0 <= d) by apply Zdigits2_nonneg.
  assert (He1 : e1 = Z.max (d + ex - 53) (-1074)) by reflexivity.
  assert (Hn : 0 <= e1 - ex) by lia.
  destruct (shr_fexp_spec mx ex lx t Hmx Hin Hn) as (r1 & E1 & Hr1 & Hm1).
  fold d in E1, Hr1, Hm1. fold e1 in E1, Hr1, Hm1.
  replace (ex + (e1 - ex)) with e1 in E1 by lia.
  replace (- (e1 - ex)) with (ex - e1) in Hr1 by lia. fold t1 in Hr1.
  set (m1 := shr_m r1) in *. set (l1 := loc_of_shr_record r1) in *.
  unfold inb_rec in Hr1. fold m1 l1 in Hr1.
  destruct (round_nearest_even_spec m1 l1 t1 Hr1) as (R1 & R2 & R3 & R4 & R5).
  set (m2 := round_nearest_even m1 l1) in *.
  assert (Hupper : mx < 2 ^ d) by (apply Zdigits2_upper; exact Hmx).
  assert (Hp : 0 < 2 ^ (e1 - ex)) by (apply Z.pow_pos_nonneg; lia).
  assert (Hm1lo : 0 <= m1) by (rewrite Hm1; apply Z.div_pos; lia).
  assert (Hm1hi : m1 < 2 ^ 53).
  { rewrite Hm1. apply Z.div_lt_upper_bound; [exact Hp | ].
    rewrite <- Z.pow_add_r by lia.
    assert (2 ^ d <= 2 ^ (e1 - ex + 53)) by (apply Z.pow_le_mono_r; lia). lia. }
  assert (Hnorm : -1074 < e1 -> 2 ^ 52 <= m1).
  { intros Hgt. assert (Ee : e1 = d + ex - 53) by lia.
    assert (Hmx0 : 0 < mx).
    { destruct (Z.eq_dec mx 0) as [Z0|NZ]; [ | lia].
      exfalso. subst mx. change d with 0 in Ee. lia. }
    destruct (Zdigits2_bounds mx Hmx0) as [[Hlo _] Hd1]. fold d in Hlo, Hd1.
    rewrite Hm1. apply Z.div_le_lower_bound; [exact Hp | ].
    rewrite <- Z.pow_add_r by lia.
    replace (e1 - ex + 52) with (d - 1) by lia. exact Hlo. }
  exists m1, m2.
  assert (Hm2hi : m2 <= 2 ^ 53) by lia.
  assert (Hm2lo : 0 <= m2) by lia.
  enough (G : SFfin r = true /\ SFsign r = sx /\ SpecFloat.valid_binary 53 1024 r = true /\
              (Qmag r == inject_Z m2 * pow2 e1)%Q).
  { destruct G as (G1 & G2 & G3 & G4). repeat split; auto; lra. }
  unfold r, binary_round_aux. rewrite E1. fold m1 l1 m2.
  destruct (Z.eq_dec m2 (2 ^ 53)) as [Etop | Ntop].
  - (* the mantissa reached 2^53: one more shift *)
    rewrite Etop. unfold shr_fexp.
    change (Zdigits2 (2 ^ 53)) with 54.
    replace (fexp (54 + e1) - e1) with 1 by (rewrite fexp_eq; lia).
    cbn [shr SpecFloat.iter_pos].
    change (shr_m (shr_1 (shr_record_of_loc (2 ^ 53) loc_Exact)))
      with (Zpos (Z.to_pos (2 ^ 52))).
    replace (e1 + 1 <=? 1024 - 53) with true by (symmetry; apply Z.leb_le; lia).
    cbn [SFfin SFsign SpecFloat.valid_binary Qmag].
    split; [reflexivity | split; [reflexivity | split]].
    + unfold bounded, canonical_mantissa.
      change (Zpos (digits2_pos (Z.to_pos (2 ^ 52)))) with 53.
      apply andb_true_intro.
      split; [apply Z.eqb_eq; rewrite fexp_eq; lia | apply Z.leb_le; lia].
    + rewrite (pow2_succ e1).
      change (inject_Z (Zpos (Z.to_pos (2 ^ 52)))) with (inject_Z (2 ^ 52)).
      change (inject_Z (2 ^ 53)) with (inject_Z (2 ^ 52) * 2)%Q. ring.
  - assert (Hlt : m2 < 2 ^ 53) by lia.
    unfold shr_fexp.
    assert (Hn2 : fexp (Zdigits2 m2 + e1) - e1 <= 0 /\
                  (0 < m2 -> fexp (Zdigits2 m2 + e1) = e1)).
    { destruct (Z.eq_dec m2 0) as [Z0|NZ].
      - rewrite Z0. change (Zdigits2 0) with 0. rewrite fexp_eq. split; lia.
      - assert (P2 : 0 < m2) by lia.
        destruct (Zdigits2_bounds m2 P2) as [[Hlo Hhi] Hd1].
        assert (Hd2 : Zdigits2 m2 <= 53).
        { assert (2 ^ (Zdigits2 m2 - 1) < 2 ^ 53) by lia.
          apply Zpow2_lt_inv in H; lia. }
        destruct (Z_le_gt_dec e1 (-1074)) as [Hsub|Hnrm].
        + rewrite fexp_eq. split; [lia | intros _; lia].
        + assert (H52 : 2 ^ 52 <= m2) by (specialize (Hnorm ltac:(lia)); lia).
          rewrite (Zdigits2_unique m2 53 P2) by (split; [exact H52 | exact Hlt]).
          rewrite fexp_eq. split; [lia | intros _; lia]. }
    destruct Hn2 as [Hn2 Hcan].
    assert (Eshr : shr
              (shr_record_of_loc m2 loc_Exact) e1 (fexp (Zdigits2 m2 + e1) - e1)
              = (shr_record_of_loc m2 loc_Exact, e1)).
    { unfold shr. destruct (fexp (Zdigits2 m2 + e1) - e1); try reflexivity. lia. }
    rewrite Eshr. cbn [shr_record_of_loc shr_m].
    destruct m2 as [|p|p] eqn:Em2; [ | | lia].
    + cbn [SFfin SFsign SpecFloat.valid_binary Qmag].
      repeat split; try (change (inject_Z 0) with 0%Q; ring).
    + replace (e1 <=? 1024 - 53) with true by (symmetry; apply Z.leb_le; lia).
      cbn [SFfin SFsign SpecFloat.valid_binary Qmag].
      split; [reflexivity | split; [reflexivity | split; [ | reflexivity]]].
      unfold bounded, canonical_mantissa.
      apply andb_true_intro. split; [ | apply Z.leb_le; lia].
      apply Z.eqb_eq. apply (Hcan ltac:(lia)).
Qed.

Local Open Scope Q_scope.

Lemma pow2_lt_cancel : forall a b, pow2 a < pow2 b -> (a < b)%Z.
Proof.
  intros a b H. destruct (Z_lt_le_dec a b) as [L|L]; [exact L | exfalso].
  pose proof (pow2_le b a L). lra.
Qed.

Lemma pow2_le_cancel : forall a b, pow2 a <= pow2 b -> (a <= b)%Z.
Proof.
  intros a b H. destruct (Z_le_gt_dec a b) as [L|L]; [exact L | exfalso].
  assert (L' : (b < a)%Z) by lia.
  pose proof (pow2_lt b a L'). lra.
Qed.

Lemma Qmag_nonneg : forall f, 0 <= Qmag f.
Proof.
  intros [s|s| |s m e]; cbn [Qmag]; try lra.
  pose proof (pow2_pos e).
  assert (0 < inject_Z (Zpos m)) by (change 0 with (inject_Z 0); rewrite <- Zlt_Qlt; lia).
  apply Qmult_le_0_compat; lra.
Qed.

(** The exponent of the result, from a bound on the value. *)
Lemma fexp_bound : forall mx ex t k,
  (0 <= mx)%Z -> inject_Z mx <= t ->
  (ex <= fexp (Zdigits2 mx + ex))%Z ->
  t * pow2 ex < pow2 k -> (-1021 <= k)%Z ->
  (fexp (Zdigits2 mx + ex) <= k - 53)%Z.
Proof.
  intros mx ex t k Hmx Ht Hex HT Hk.
  rewrite fexp_eq in *.
  destruct (Z.eq_dec mx 0) as [->|Hn].
  - change (Zdigits2 0) with 0%Z in *. lia.
  - assert (Hpos : (0 < mx)%Z) by lia.
    destruct (Zdigits2_bounds mx Hpos) as [[Hlo _] Hd1].
    set (d := Zdigits2 mx) in *.
    assert (H1 : pow2 (d - 1) <= inject_Z mx).
    { rewrite pow2_inject by lia. rewrite <- Zle_Qle. exact Hlo. }
    assert (H2 : pow2 (d - 1 + ex) <= t * pow2 ex).
    { rewrite pow2_add. pose proof (pow2_pos ex).
      apply Qmult_le_compat_r; lra. }
    assert (H3 : pow2 (d - 1 + ex) < pow2 k) by lra.
    apply pow2_lt_cancel in H3. lia.
Qed.

(** [binary_round_aux] returns a rounding of the located value. *)
Lemma round_mag : forall sx mx ex lx t,
  (0 <= mx)%Z -> inbetween mx lx t ->
  (ex <= fexp (Zdigits2 mx + ex))%Z ->
  t * pow2 ex < pow2 1000 ->
  let r := binary_round_aux 53 1024 sx mx ex lx in
  SFfin r = true /\ SFsign r = sx /\ SpecFloat.valid_binary 53 1024 r = true /\
  rounds (t * pow2 ex) (Qmag r).
Proof.
  intros sx mx ex lx t Hmx Hin Hex HT r.
  assert (Ht : inject_Z mx <= t).
  { destruct lx; cbn [inbetween] in Hin; lra. }
  assert (Hmax : (fexp (Zdigits2 mx + ex) <= 970)%Z).
  { pose proof (fexp_bound mx ex t 1000 Hmx Ht Hex HT ltac:(lia)). lia. }
  destruct (binary_round_aux_spec sx mx ex lx t Hmx Hin Hex Hmax)
    as (m1 & m2 & F1 & F2 & F3 & F4 & F5 & F6 & F7 & F8 & F9 & F10 & F11).
  fold r in F1, F2, F3, F4.
  set (e1 := fexp (Zdigits2 mx + ex)) in *.
  set (t1 := t * pow2 (ex - e1)) in *.
  assert (ET : t * pow2 ex == t1 * pow2 e1).
  { unfold t1. rewrite <- Qmult_assoc, <- pow2_add.
    replace (ex - e1 + e1)%Z with ex by lia. reflexivity. }
  split; [exact F1 | split; [exact F2 | split; [exact F3 | ]]].
  pose proof (pow2_pos e1) as Pe1.
  assert (Hm1 : 0 <= inject_Z m1).
  { change 0 with (inject_Z 0). rewrite <- Zle_Qle. exact F5. }
  unfold rounds. split; [ | split; [ | split]].
  - intros _. apply Qmag_nonneg.
  - intros Hle. rewrite ET in Hle.
    assert (Ht1 : t1 <= 0).
    { destruct (Qlt_le_dec 0 t1) as [L|L]; [ | exact L].
      exfalso. assert (0 < t1 * pow2 e1) by (apply Qmult_lt_0_compat; assumption). lra. }
    assert (E0 : t1 == inject_Z m1) by lra.
    rewrite F4, (F11 E0). rewrite <- E0.
    assert (t1 == 0) by lra. rewrite H. lra.
  - intros k Hk HTk.
    assert (HT' : t * pow2 ex < pow2 k).
    { rewrite Qabs_pos in HTk; [exact HTk | ].
      rewrite ET. apply Qmult_le_0_compat; lra. }
    pose proof (fexp_bound mx ex t k Hmx Ht Hex HT' Hk) as Hb. fold e1 in Hb.
    assert (Hp : pow2 (e1 - 1) <= pow2 (k - 54)) by (apply pow2_le; lia).
    rewrite pow2_pred in Hp.
    rewrite F4, ET.
    setoid_replace (inject_Z m2 * pow2 e1 - t1 * pow2 e1)
      with ((inject_Z m2 - t1) * pow2 e1) by ring.
    apply Qabs_Qle_condition. split.
    + assert ((- (1 # 2)) * pow2 e1 <= (inject_Z m2 - t1) * pow2 e1)
        by (apply Qmult_le_compat_r; lra). lra.
    + assert ((inject_Z m2 - t1) * pow2 e1 <= (1 # 2) * pow2 e1)
        by (apply Qmult_le_compat_r; lra). lra.
  - intros (z & g & Hg & Hz & Ez).
    assert (Hzlt : inject_Z (Z.abs z) < inject_Z (2 ^ 53)) by (rewrite <- Zlt_Qlt; exact Hz).
    pose proof (pow2_pos g) as Pg.
    assert (Hz0 : (0 <= z)%Z).
    { destruct (Z_lt_le_dec z 0) as [L|L]; [exfalso | exact L].
      assert (inject_Z z < 0) by (change 0 with (inject_Z 0); rewrite <- Zlt_Qlt; exact L).
      assert (0 <= t1 * pow2 e1) by (apply Qmult_le_0_compat; lra).
      assert (inject_Z z * pow2 g < 0).
      { setoid_replace (inject_Z z * pow2 g) with (- ((- inject_Z z) * pow2 g)) by ring.
        assert (0 < (- inject_Z z) * pow2 g) by (apply Qmult_lt_0_compat; lra). lra. }
      lra. }
    rewrite Z.abs_eq in Hzlt by exact Hz0.
    assert (HTg : t * pow2 ex < pow2 (53 + g)).
    { rewrite Ez, pow2_add. apply Qmult_lt_compat_r; [exact Pg | ].
      rewrite pow2_inject by lia. exact Hzlt. }
    pose proof (fexp_bound mx ex t (53 + g) Hmx Ht Hex HTg ltac:(lia)) as Hb.
    fold e1 in Hb.
    assert (Et1 : t1 == inject_Z (z * 2 ^ (g - e1))).
    { rewrite inject_Z_mult, <- pow2_inject by lia.
      assert (E : t1 * pow2 e1 == (inject_Z z * pow2 (g - e1)) * pow2 e1).
      { rewrite <- ET, Ez, <- Qmult_assoc, <- pow2_add.
        replace (g - e1 + e1)%Z with g by lia. reflexivity. }
      apply Qmult_inj_r in E; [exact E | lra]. }
    assert (Ek : (z * 2 ^ (g - e1) = m1)%Z).
    { destruct F8 as [L U]. rewrite Et1 in L, U.
      rewrite <- Zle_Qle in L.
      change 1 with (inject_Z 1) in U. rewrite <- inject_Z_plus, <- Zlt_Qlt in U. lia. }
    rewrite Ek in Et1. rewrite F4, (F11 Et1), ET, Et1. reflexivity.
Qed.

(** *** Signed values and the four operations *)

Lemma repr_opp : forall T, repr T -> repr (- T).
Proof.
  intros T (z & g & Hg & Hz & E). exists (- z)%Z, g.
  split; [exact Hg | split; [rewrite Z.abs_opp; exact Hz | ]].
  rewrite inject_Z_opp, E. ring.
Qed.

Lemma repr_compat : forall T T', T == T' -> repr T -> repr T'.
Proof.
  intros T T' E (z & g & Hg & Hz & Ez). exists z, g.
  split; [exact Hg | split; [exact Hz | ]]. rewrite <- E. exact Ez.
Qed.

Lemma rounds_compat : forall T T' R R',
  T == T' -> R == R' -> rounds T R -> rounds T' R'.
Proof.
  intros T T' R R' ET ER (H1 & H2 & H3 & H4).
  split; [ | split; [ | split]].
  - intros H. rewrite <- ER. apply H1. rewrite ET. exact H.
  - intros H. rewrite <- ER. apply H2. rewrite ET. exact H.
  - intros k Hk H. rewrite <- ER, <- ET. apply H3; [exact Hk | ]. rewrite ET. exact H.
  - intros H. rewrite <- ER, <- ET. apply H4.
    apply (repr_compat T'); [symmetry; exact ET | exact H].
Qed.

Lemma rounds_opp : forall T R, rounds T R -> rounds (- T) (- R).
Proof.
  intros T R (H1 & H2 & H3 & H4).
  split; [ | split; [ | split]].
  - intros H. assert (R <= 0) by (apply H2; lra). lra.
  - intros H. assert (0 <= R) by (apply H1; lra). lra.
  - intros k Hk H. rewrite Qabs_opp in H.
    setoid_replace (- R - - T) with (- (R - T)) by ring.
    rewrite Qabs_opp. apply H3; assumption.
  - intros H. apply repr_opp in H.
    assert (E : R == T).
    { apply H4. apply (repr_compat (- - T)); [ring | exact H]. }
    rewrite E. reflexivity.
Qed.

Lemma rounds_refl : forall T, rounds T T.
Proof.
  intros T. split; [ | split; [ | split]]; try (intros; assumption).
  - intros k Hk H. setoid_replace (T - T) with 0 by ring.
    pose proof (pow2_pos (k - 54)). cbn. lra.
  - intros _. reflexivity.
Qed.

(** The same with the sign. *)
Lemma round_signed : forall sx mx ex lx t,
  (0 <= mx)%Z -> inbetween mx lx t ->
  (ex <= fexp (Zdigits2 mx + ex))%Z ->
  t * pow2 ex < pow2 1000 ->
  let r := binary_round_aux 53 1024 sx mx ex lx in
  SFfin r = true /\ SpecFloat.valid_binary 53 1024 r = true /\
  rounds (if sx then - (t * pow2 ex) else t * pow2 ex) (Qval r).
Proof.
  intros sx mx ex lx t H1 H2 H3 H4 r.
  destruct (round_mag sx mx ex lx t H1 H2 H3 H4) as (F1 & F2 & F3 & F4).
  fold r in F1, F2, F3, F4.
  split; [exact F1 | split; [exact F3 | ]].
  unfold Qval. rewrite F2. destruct sx; [apply rounds_opp | ]; exact F4.
Qed.

(** *** Division *)

(** The location computed from the remainder of a division. *)
Lemma new_location_spec : forall m2 r q,
  (0 < m2)%Z -> (0 <= r < m2)%Z ->
  inbetween q (new_location m2 r) (inject_Z (q * m2 + r) / inject_Z m2).
Proof.
  intros m2 r q Hm2 Hr.
  assert (P2 : 0 < inject_Z m2) by (change 0 with (inject_Z 0); rewrite <- Zlt_Qlt; exact Hm2).
  assert (Et : inject_Z (q * m2 + r) / inject_Z m2 == inject_Z q + inject_Z r / inject_Z m2).
  { rewrite inject_Z_plus, inject_Z_mult. field. lra. }
  unfold new_location.
  assert (Hcmp : forall c, (r <> 0)%Z ->
            (2 * r ?= m2)%Z = c ->
            inbetween q (loc_Inexact c) (inject_Z (q * m2 + r) / inject_Z m2)).
  { intros c Hr0 Hc. cbn [inbetween]. rewrite Et.
    assert (Pr : 0 < inject_Z r) by (change 0 with (inject_Z 0); rewrite <- Zlt_Qlt; lia).
    assert (Rlt : inject_Z r < inject_Z m2) by (rewrite <- Zlt_Qlt; lia).
    assert (D0 : 0 < inject_Z r / inject_Z m2).
    { apply Qlt_shift_div_l; lra. }
    assert (D1 : inject_Z r / inject_Z m2 < 1).
    { apply Qlt_shift_div_r; lra. }
    split; [lra | split; [lra | ]].
    assert (E2 : inject_Z (2 * r) == 2 * inject_Z r) by (rewrite inject_Z_mult; reflexivity).
    destruct c.
    - apply Z.compare_eq_iff in Hc. apply Qcompare_Eq.
      assert (inject_Z m2 == 2 * inject_Z r) by (rewrite <- E2, Hc; reflexivity).
      assert (inject_Z r / inject_Z m2 == 1 # 2) by (rewrite H; field; lra).
      lra.
    - rewrite Z.compare_lt_iff in Hc. apply Qcompare_Lt.
      assert (2 * inject_Z r < inject_Z m2) by (rewrite <- E2, <- Zlt_Qlt; exact Hc).
      assert (inject_Z r / inject_Z m2 < 1 # 2) by (apply Qlt_shift_div_r; lra).
      lra.
    - rewrite Z.compare_gt_iff in Hc. apply Qcompare_Gt.
      assert (inject_Z m2 < 2 * inject_Z r) by (rewrite <- E2, <- Zlt_Qlt; exact Hc).
      assert (1 # 2 < inject_Z r / inject_Z m2) by (apply Qlt_shift_div_l; lra).
      lra. }
  assert (Hex : (r = 0)%Z ->
            inbetween q loc_Exact (inject_Z (q * m2 + r) / inject_Z m2)).
  { intros ->. cbn [inbetween]. rewrite Et. change (inject_Z 0) with 0. field. lra. }
  destruct (Z.even m2) eqn:Ev.
  - unfold new_location_even. destruct (Z.eqb_spec r 0) as [E0|N0].
    + apply Hex. exact E0.
    + apply Hcmp; [exact N0 | reflexivity].
  - unfold new_location_odd. destruct (Z.eqb_spec r 0) as [E0|N0].
    + apply Hex. exact E0.
    + assert (Hodd : Z.odd m2 = true) by (rewrite <- Z.negb_even, Ev; reflexivity).
      apply Z.odd_spec in Hodd. destruct Hodd as [j Hj].
      destruct (2 * r + 1 ?= m2)%Z eqn:C.
      * apply Z.compare_eq_iff in C. apply Hcmp; [exact N0 | ].
        apply Z.compare_lt_iff. lia.
      * rewrite Z.compare_lt_iff in C. apply Hcmp; [exact N0 | ].
        apply Z.compare_lt_iff. lia.
      * rewrite Z.compare_gt_iff in C. apply Hcmp; [exact N0 | ].
        apply Z.compare_gt_iff. lia.
Qed.

Lemma pow2_neg : forall e, pow2 (- e) == / pow2 e.
Proof.
  intros e. pose proof (pow2_pos e).
  assert (E : pow2 (- e) * pow2 e == 1).
  { rewrite <- pow2_add. replace (- e + e)%Z with 0%Z by lia. reflexivity. }
  apply (Qmult_inj_r _ _ (pow2 e)); [lra | ]. rewrite E. field. lra.
Qed.

Lemma pow2_sub : forall a b, pow2 (a - b) == pow2 a / pow2 b.
Proof.
  intros a b. replace (a - b)%Z with (a + - b)%Z by lia.
  rewrite pow2_add, pow2_neg. reflexivity.
Qed.

Lemma inject_Z_pos : forall p, 0 < inject_Z (Zpos p).
Proof. intros p. change 0 with (inject_Z 0). rewrite <- Zlt_Qlt. lia. Qed.

Lemma Qval_finite : forall s m e,
  Qval (S754_finite s m e) ==
  if s then - (inject_Z (Zpos m) * pow2 e) else inject_Z (Zpos m) * pow2 e.
Proof. intros [|] m e; reflexivity. Qed.

(** Division of finite numbers rounds the exact quotient. *)
Lemma SFdiv_finite_spec : forall sx mx ex sy my ey,
  inject_Z (Zpos mx) * pow2 ex / (inject_Z (Zpos my) * pow2 ey) < pow2 1000 ->
  let x := S754_finite sx mx ex in
  let y := S754_finite sy my ey in
  let r := SFdiv 53 1024 x y in
  SFfin r = true /\ SpecFloat.valid_binary 53 1024 r = true /\
  rounds (Qval x / Qval y) (Qval r).
Proof.
  intros sx mx ex sy my ey HT x y r.
  unfold r, x, y, SFdiv, SFdiv_core_binary.
  set (d1 := Zdigits2 (Zpos mx)). set (d2 := Zdigits2 (Zpos my)).
  set (e' := Z.min (fexp (d1 + ex - (d2 + ey))) (ex - ey)).
  set (s := (ex - ey - e')%Z).
  assert (Hs : (0 <= s)%Z) by (unfold s, e'; lia).
  set (m' := match s with
             | 0%Z => Zpos mx
             | Zpos _ => Z.shiftl (Zpos mx) s
             | Zneg _ => 0%Z
             end).
  assert (Em' : m' = (Zpos mx * 2 ^ s)%Z).
  { unfold m'. destruct s as [|p|p] eqn:Es.
    - rewrite Z.pow_0_r. lia.
    - apply Z.shiftl_mul_pow2. lia.
    - lia. }
  pose proof (Z_div_mod m' (Zpos my) ltac:(lia)) as Hdm.
  destruct (Z.div_eucl m' (Zpos my)) as [q rm].
  destruct Hdm as [Eq Hrm].
  assert (Hpow : (0 < 2 ^ s)%Z) by (apply Z.pow_pos_nonneg; lia).
  assert (Hq : (0 <= q)%Z) by nia.
  destruct (Zdigits2_bounds (Zpos mx) ltac:(lia)) as [[Hlo1 Hhi1] Hd1].
  destruct (Zdigits2_bounds (Zpos my) ltac:(lia)) as [[Hlo2 Hhi2] Hd2].
  fold d1 in Hlo1, Hhi1, Hd1. fold d2 in Hlo2, Hhi2, Hd2.
  assert (Hpre : (e' <= fexp (Zdigits2 q + e'))%Z).
  { rewrite fexp_eq.
    destruct (Z_le_gt_dec e' (-1074)) as [L|G]; [lia | ].
    assert (He' : (e' <= d1 + ex - (d2 + ey) - 53)%Z).
    { unfold e' in G |- *. rewrite fexp_eq in *. lia. }
    assert (Hs' : (53 - d1 + d2 <= s)%Z) by (unfold s; lia).
    assert (H52 : (2 ^ 52 <= q)%Z).
    { assert (Hm'lo : (2 ^ (52 + d2) <= m')%Z).
      { rewrite Em'.
        assert (2 ^ (52 + d2) <= 2 ^ (d1 - 1 + s))%Z by (apply Z.pow_le_mono_r; lia).
        assert (E2 : (2 ^ (d1 - 1 + s) = 2 ^ (d1 - 1) * 2 ^ s)%Z) by (apply Z.pow_add_r; lia).
        assert (2 ^ (d1 - 1) * 2 ^ s <= Zpos mx * 2 ^ s)%Z
          by (apply Z.mul_le_mono_nonneg_r; lia).
        lia. }
      rewrite Z.pow_add_r in Hm'lo by lia.
      assert (P52 : (0 < 2 ^ 52)%Z) by reflexivity.
      destruct (Z_lt_le_dec q (2 ^ 52)) as [Lq|Gq]; [exfalso | exact Gq].
      assert (Zpos my * q + rm < Zpos my * (q + 1))%Z by lia.
      assert (Zpos my * (q + 1) <= Zpos my * 2 ^ 52)%Z by (apply Z.mul_le_mono_nonneg_l; lia).
      assert (Zpos my * 2 ^ 52 < 2 ^ 52 * 2 ^ d2)%Z by nia.
      lia. }
    assert (Hdq : (53 <= Zdigits2 q)%Z).
    { destruct (Zdigits2_bounds q ltac:(lia)) as [[_ Hhi] _].
      assert (2 ^ 52 < 2 ^ Zdigits2 q)%Z by lia.
      apply Zpow2_lt_inv in H; [lia | apply Zdigits2_nonneg]. }
    lia. }
  set (t := inject_Z (q * Zpos my + rm) / inject_Z (Zpos my)).
  assert (Hin : inbetween q (new_location (Zpos my) rm) t).
  { apply new_location_spec; lia. }
  pose proof (inject_Z_pos mx) as Pmx. pose proof (inject_Z_pos my) as Pmy.
  pose proof (pow2_pos ex) as Pex. pose proof (pow2_pos ey) as Pey.
  assert (ET : t * pow2 e' ==
               inject_Z (Zpos mx) * pow2 ex / (inject_Z (Zpos my) * pow2 ey)).
  { unfold t. replace (q * Zpos my + rm)%Z with m' by lia.
    rewrite Em', inject_Z_mult, <- pow2_inject by lia.
    assert (Ee : pow2 s * pow2 e' == pow2 ex / pow2 ey).
    { rewrite <- pow2_add, <- pow2_sub.
      replace (s + e')%Z with (ex - ey)%Z by (unfold s; lia).
      reflexivity. }
    setoid_replace (inject_Z (Zpos mx) * pow2 s / inject_Z (Zpos my) * pow2 e')
      with (inject_Z (Zpos mx) / inject_Z (Zpos my) * (pow2 s * pow2 e')) by (field; lra).
    rewrite Ee. field. lra. }
  assert (HT' : t * pow2 e' < pow2 1000) by (rewrite ET; exact HT).
  destruct (round_signed (xorb sx sy) q e' (new_location (Zpos my) rm) t Hq Hin Hpre HT')
    as (F1 & F2 & F3).
  split; [exact F1 | split; [exact F2 | ]].
  eapply rounds_compat; [ | reflexivity | exact F3].
  rewrite !Qval_finite.
  destruct sx, sy; cbn [xorb]; rewrite ET; field; lra.
Qed.

(** *** Multiplication *)

Lemma valid_finite : forall s m e,
  SpecFloat.valid_binary 53 1024 (S754_finite s m e) = true ->
  (Zdigits2 (Zpos m) <= 53 /\ -1074 <= e <= 971 /\
   (Zdigits2 (Zpos m) = 53 \/ e = -1074))%Z.
Proof.
  intros s m e H. cbn [SpecFloat.valid_binary] in H.
  unfold bounded, canonical_mantissa in H.
  apply andb_prop in H. destruct H as [H1 H2].
  apply Z.eqb_eq in H1. apply Z.leb_le in H2.
  rewrite fexp_eq in H1. cbn [Zdigits2]. lia.
Qed.

Lemma Qval_zero : forall s, Qval (S754_zero s) == 0.
Proof. intros [|]; reflexivity. Qed.

Lemma SFfin_cases : forall x, SFfin x = true ->
  (exists s, x = S754_zero s) \/ (exists s m e, x = S754_finite s m e).
Proof.
  intros [s|s| |s m e] H; try discriminate; [left | right]; eauto.
Qed.

Lemma Qabs_signed : forall (s : bool) a, 0 <= a ->
  Qabs (if s then - a else a) == a.
Proof.
  intros [|] a Ha; [rewrite Qabs_opp | ]; apply Qabs_pos; exact Ha.
Qed.

(** Multiplication of finite numbers rounds the exact product. *)
Lemma SFmul_spec : forall x y,
  SpecFloat.valid_binary 53 1024 x = true ->
  SpecFloat.valid_binary 53 1024 y = true ->
  SFfin x = true -> SFfin y = true ->
  Qabs (Qval x * Qval y) < pow2 1000 ->
  let r := SFmul 53 1024 x y in
  SFfin r = true /\ rounds (Qval x * Qval y) (Qval r).
Proof.
  intros x y Vx Vy Fx Fy HT r.
  destruct (SFfin_cases x Fx) as [[sx ->] | (sx & mx & ex & ->)];
    destruct (SFfin_cases y Fy) as [[sy ->] | (sy & my & ey & ->)];
    try (split; [reflexivity | ];
         unfold r; cbn [SFmul];
         eapply rounds_compat; [ | | apply (rounds_refl 0)];
         rewrite ?Qval_zero; ring).
  unfold r. cbn [SFmul].
  destruct (valid_finite _ _ _ Vx) as (Dx & Ex & Cx).
  destruct (valid_finite _ _ _ Vy) as (Dy & Ey & Cy).
  destruct (Zdigits2_bounds (Zpos mx) ltac:(lia)) as [[Hlo1 Hhi1] Hd1].
  destruct (Zdigits2_bounds (Zpos my) ltac:(lia)) as [[Hlo2 Hhi2] Hd2].
  set (dx := Zdigits2 (Zpos mx)) in *. set (dy := Zdigits2 (Zpos my)) in *.
  assert (Hd : (dx + dy - 1 <= Zdigits2 (Zpos (mx * my)))%Z).
  { destruct (Zdigits2_bounds (Zpos (mx * my)) ltac:(lia)) as [[_ Hhi] _].
    assert (E2 : (2 ^ (dx - 1 + (dy - 1)) = 2 ^ (dx - 1) * 2 ^ (dy - 1))%Z)
      by (apply Z.pow_add_r; lia).
    assert (2 ^ (dx - 1) * 2 ^ (dy - 1) <= Zpos mx * Zpos my)%Z
      by (apply Z.mul_le_mono_nonneg; lia).
    assert (2 ^ (dx - 1 + (dy - 1)) < 2 ^ Zdigits2 (Zpos (mx * my)))%Z
      by (pose proof (Pos2Z.inj_mul mx my); lia).
    apply Zpow2_lt_inv in H0; [lia | apply Zdigits2_nonneg]. }
  assert (Hpre : (ex + ey <= fexp (Zdigits2 (Zpos (mx * my)) + (ex + ey)))%Z).
  { rewrite fexp_eq. lia. }
  set (t := inject_Z (Zpos (mx * my))).
  assert (Hin : inbetween (Zpos (mx * my)) loc_Exact t) by (cbn; reflexivity).
  pose proof (inject_Z_pos mx) as Pmx. pose proof (inject_Z_pos my) as Pmy.
  pose proof (pow2_pos ex) as Pex. pose proof (pow2_pos ey) as Pey.
  assert (ET : t * pow2 (ex + ey) ==
               (inject_Z (Zpos mx) * pow2 ex) * (inject_Z (Zpos my) * pow2 ey)).
  { unfold t. rewrite Pos2Z.inj_mul, inject_Z_mult, pow2_add. ring. }
  assert (P1 : 0 <= inject_Z (Zpos mx) * pow2 ex) by (apply Qmult_le_0_compat; lra).
  assert (P2 : 0 <= inject_Z (Zpos my) * pow2 ey) by (apply Qmult_le_0_compat; lra).
  assert (HT' : t * pow2 (ex + ey) < pow2 1000).
  { rewrite ET. rewrite Qabs_Qmult, !Qval_finite, !Qabs_signed in HT by assumption.
    exact HT. }
  destruct (round_signed (xorb sx sy) _ _ _ t (Pos2Z.is_nonneg _) Hin Hpre HT')
    as (F1 & F2 & F3).
  split; [exact F1 | ].
  eapply rounds_compat; [ | reflexivity | exact F3].
  rewrite !Qval_finite.
  destruct sx, sy; cbn [xorb]; rewrite ET; ring.
Qed.

(** *** Addition and subtraction *)

Lemma iter_xO : forall d m, Zpos (Pos.iter xO m d) = (Zpos m * 2 ^ Zpos d)%Z.
Proof.
  intros d m. induction d as [|d IH] using Pos.peano_ind.
  - cbn [Pos.iter]. lia.
  - rewrite Pos.iter_succ, Pos2Z.inj_xO, IH, Pos2Z.inj_succ, Z.pow_succ_r by lia.
    lia.
Qed.

Lemma shl_align_spec : forall m e e',
  snd (shl_align m e e') = Z.min e e' /\
  Zpos (fst (shl_align m e e')) = (Zpos m * 2 ^ (e - Z.min e e'))%Z.
Proof.
  intros m e e'. unfold shl_align.
  destruct (e' - e)%Z as [|d|d] eqn:E; cbn [fst snd].
  - split; [lia | ]. replace (e - Z.min e e')%Z with 0%Z by lia. lia.
  - split; [lia | ]. replace (e - Z.min e e')%Z with 0%Z by lia. lia.
  - split; [lia | ]. rewrite iter_xO. f_equal. f_equal. lia.
Qed.

Lemma Zdigits2_shift : forall m k, (0 <= k)%Z ->
  Zdigits2 (Zpos m * 2 ^ k) = (Zdigits2 (Zpos m) + k)%Z.
Proof.
  intros m k Hk.
  destruct (Zdigits2_bounds (Zpos m) ltac:(lia)) as [[Hlo Hhi] Hd].
  assert (Hp : (0 < 2 ^ k)%Z) by (apply Z.pow_pos_nonneg; lia).
  apply Zdigits2_unique; [nia | ].
  replace (Zdigits2 (Zpos m) + k - 1)%Z with (Zdigits2 (Zpos m) - 1 + k)%Z by lia.
  rewrite !Z.pow_add_r by lia. split.
  - apply Z.mul_le_mono_nonneg_r; lia.
  - apply Z.mul_lt_mono_pos_r; lia.
Qed.

(** [binary_round] rounds [m * 2^e]. *)
Lemma binary_round_spec : forall sx m e,
  inject_Z (Zpos m) * pow2 e < pow2 1000 ->
  let r := binary_round 53 1024 sx m e in
  SFfin r = true /\ SpecFloat.valid_binary 53 1024 r = true /\
  rounds (if sx then - (inject_Z (Zpos m) * pow2 e) else inject_Z (Zpos m) * pow2 e)
         (Qval r).
Proof.
  intros sx m e HT r. unfold r, binary_round.
  set (e' := fexp (Zpos (digits2_pos m) + e)).
  destruct (shl_align_spec m e e') as [Hs Hf].
  destruct (shl_align m e e') as [mz ez]. cbn [fst snd] in Hs, Hf.
  assert (Hk : (0 <= e - Z.min e e')%Z) by lia.
  assert (Hd : Zdigits2 (Zpos mz) = (Zdigits2 (Zpos m) + (e - Z.min e e'))%Z).
  { rewrite Hf. apply Zdigits2_shift. exact Hk. }
  assert (Hpre : (ez <= fexp (Zdigits2 (Zpos mz) + ez))%Z).
  { rewrite Hd, Hs. replace (Zdigits2 (Zpos m) + (e - Z.min e e') + Z.min e e')%Z
      with (Zpos (digits2_pos m) + e)%Z by (cbn [Zdigits2]; lia).
    fold e'. lia. }
  set (t := inject_Z (Zpos mz)).
  assert (Hin : inbetween (Zpos mz) loc_Exact t) by (cbn; reflexivity).
  assert (ET : t * pow2 ez == inject_Z (Zpos m) * pow2 e).
  { unfold t. rewrite Hf, inject_Z_mult, <- pow2_inject by exact Hk.
    rewrite <- Qmult_assoc, <- pow2_add, Hs.
    replace (e - Z.min e e' + Z.min e e')%Z with e by lia. reflexivity. }
  assert (HT' : t * pow2 ez < pow2 1000) by (rewrite ET; exact HT).
  destruct (round_signed sx _ _ _ t (Pos2Z.is_nonneg _) Hin Hpre HT') as (F1 & F2 & F3).
  split; [exact F1 | split; [exact F2 | ]].
  eapply rounds_compat; [ | reflexivity | exact F3].
  destruct sx; rewrite ET; reflexivity.
Qed.

Lemma binary_normalize_spec : forall M e,
  Qabs (inject_Z M * pow2 e) < pow2 1000 ->
  let r := binary_normalize 53 1024 M e false in
  SFfin r = true /\ SpecFloat.valid_binary 53 1024 r = true /\
  rounds (inject_Z M * pow2 e) (Qval r).
Proof.
  intros M e HT r. unfold r, binary_normalize.
  pose proof (pow2_pos e) as Pe.
  destruct M as [|m|m].
  - split; [reflexivity | split; [reflexivity | ]].
    eapply rounds_compat; [ | | apply (rounds_refl 0)]; [ | reflexivity].
    change (inject_Z 0) with 0. ring.
  - pose proof (inject_Z_pos m) as Pm.
    assert (P : 0 <= inject_Z (Zpos m) * pow2 e) by (apply Qmult_le_0_compat; lra).
    rewrite Qabs_pos in HT by exact P.
    apply (binary_round_spec false m e HT).
  - pose proof (inject_Z_pos m) as Pm.
    assert (P : 0 <= inject_Z (Zpos m) * pow2 e) by (apply Qmult_le_0_compat; lra).
    assert (E : inject_Z (Zneg m) * pow2 e == - (inject_Z (Zpos m) * pow2 e)).
    { change (Zneg m) with (- Zpos m)%Z. rewrite inject_Z_opp. ring. }
    rewrite E, Qabs_opp, Qabs_pos in HT by exact P.
    destruct (binary_round_spec true m e HT) as (F1 & F2 & F3).
    split; [exact F1 | split; [exact F2 | ]].
    eapply rounds_compat; [ | reflexivity | exact F3]. symmetry. exact E.
Qed.

Lemma aligned_value : forall (s : bool) m e ez, (ez <= e)%Z ->
  inject_Z (cond_Zopp s (Zpos (fst (shl_align m e ez)))) * pow2 ez ==
  Qval (S754_finite s m e).
Proof.
  intros s m e ez Hle.
  destruct (shl_align_spec m e ez) as [_ Hf]. rewrite Hf.
  replace (Z.min e ez) with ez by lia.
  assert (E : inject_Z (Zpos m * 2 ^ (e - ez)) * pow2 ez == inject_Z (Zpos m) * pow2 e).
  { rewrite inject_Z_mult, <- pow2_inject by lia.
    rewrite <- Qmult_assoc, <- pow2_add.
    replace (e - ez + ez)%Z with e by lia. reflexivity. }
  rewrite Qval_finite. destruct s; cbn [cond_Zopp].
  - rewrite inject_Z_opp. rewrite <- E. ring.
  - exact E.
Qed.

(** Addition of finite numbers rounds the exact sum. *)
Lemma SFadd_spec : forall x y,
  SFfin x = true -> SFfin y = true ->
  Qabs (Qval x + Qval y) < pow2 1000 ->
  let r := SFadd 53 1024 x y in
  SFfin r = true /\ rounds (Qval x + Qval y) (Qval r).
Proof.
  intros x y Fx Fy HT r.
  destruct (SFfin_cases x Fx) as [[sx ->] | (sx & mx & ex & ->)];
    destruct (SFfin_cases y Fy) as [[sy ->] | (sy & my & ey & ->)].
  - unfold r. cbn [SFadd].
    split; [destruct sx, sy; reflexivity | ].
    eapply rounds_compat; [ | | apply (rounds_refl 0)].
    + rewrite !Qval_zero. ring.
    + destruct sx, sy; reflexivity.
  - unfold r. cbn [SFadd]. split; [reflexivity | ].
    eapply rounds_compat; [ | reflexivity | apply rounds_refl].
    rewrite Qval_zero. ring.
  - unfold r. cbn [SFadd]. split; [reflexivity | ].
    eapply rounds_compat; [ | reflexivity | apply rounds_refl].
    rewrite Qval_zero. ring.
  - unfold r. cbn [SFadd].
    set (ez := Z.min ex ey).
    set (M := (cond_Zopp sx (Zpos (fst (shl_align mx ex ez))) +
               cond_Zopp sy (Zpos (fst (shl_align my ey ez))))%Z).
    assert (EM : inject_Z M * pow2 ez ==
                 Qval (S754_finite sx mx ex) + Qval (S754_finite sy my ey)).
    { unfold M. rewrite inject_Z_plus, Qmult_plus_distr_l.
      rewrite !aligned_value by (unfold ez; lia). reflexivity. }
    assert (HT' : Qabs (inject_Z M * pow2 ez) < pow2 1000) by (rewrite EM; exact HT).
    destruct (binary_normalize_spec M ez HT') as (F1 & F2 & F3).
    split; [exact F1 | ].
    eapply rounds_compat; [exact EM | reflexivity | exact F3].
Qed.

(** Subtraction of finite numbers rounds the exact difference. *)
Lemma SFsub_spec : forall x y,
  SFfin x = true -> SFfin y = true ->
  Qabs (Qval x - Qval y) < pow2 1000 ->
  let r := SFsub 53 1024 x y in
  SFfin r = true /\ rounds (Qval x - Qval y) (Qval r).
Proof.
  intros x y Fx Fy HT r.
  destruct (SFfin_cases x Fx) as [[sx ->] | (sx & mx & ex & ->)];
    destruct (SFfin_cases y Fy) as [[sy ->] | (sy & my & ey & ->)].
  - unfold r. cbn [SFsub].
    split; [destruct sx, sy; reflexivity | ].
    eapply rounds_compat; [ | | apply (rounds_refl 0)].
    + rewrite !Qval_zero. ring.
    + destruct sx, sy; reflexivity.
  - unfold r. cbn [SFsub]. split; [reflexivity | ].
    eapply rounds_compat; [ | reflexivity | apply rounds_refl].
    rewrite Qval_zero, !Qval_finite. destruct sy; cbn [negb]; ring.
  - unfold r. cbn [SFsub]. split; [reflexivity | ].
    eapply rounds_compat; [ | reflexivity | apply rounds_refl].
    rewrite Qval_zero. ring.
  - unfold r. cbn [SFsub].
    set (ez := Z.min ex ey).
    set (M := (cond_Zopp sx (Zpos (fst (shl_align mx ex ez))) -
               cond_Zopp sy (Zpos (fst (shl_align my ey ez))))%Z).
    assert (EM : inject_Z M * pow2 ez ==
                 Qval (S754_finite sx mx ex) - Qval (S754_finite sy my ey)).
    { unfold M, Z.sub. rewrite inject_Z_plus, inject_Z_opp.
      setoid_replace ((inject_Z (cond_Zopp sx (Z.pos (fst (shl_align mx ex ez)))) +
          - inject_Z (cond_Zopp sy (Z.pos (fst (shl_align my ey ez))))) * pow2 ez)
        with (inject_Z (cond_Zopp sx (Z.pos (fst (shl_align mx ex ez)))) * pow2 ez
              - inject_Z (cond_Zopp sy (Z.pos (fst (shl_align my ey ez)))) * pow2 ez)
        by ring.
      rewrite !aligned_value by (unfold ez; lia). reflexivity. }
    assert (HT' : Qabs (inject_Z M * pow2 ez) < pow2 1000) by (rewrite EM; exact HT).
    destruct (binary_normalize_spec M ez HT') as (F1 & F2 & F3).
    split; [exact F1 | ].
    eapply rounds_compat; [exact EM | reflexivity | exact F3].
Qed.

(** *** Primitive numbers *)

(** The four primitive operations on finite numbers. *)
Lemma Qof_mul : forall x y,
  finite x = true -> finite y = true -> Qabs (Qof x * Qof y) < pow2 1000 ->
  finite (x * y) = true /\ rounds (Qof x * Qof y) (Qof (x * y)).
Proof.
  intros x y Fx Fy H. unfold finite, Qof. rewrite mul_spec.
  apply SFmul_spec; auto using Prim2SF_valid.
Qed.

Lemma Qof_add : forall x y,
  finite x = true -> finite y = true -> Qabs (Qof x + Qof y) < pow2 1000 ->
  finite (x + y) = true /\ rounds (Qof x + Qof y) (Qof (x + y)).
Proof.
  intros x y Fx Fy H. unfold finite, Qof. rewrite add_spec.
  apply SFadd_spec; auto.
Qed.

Lemma Qof_sub : forall x y,
  finite x = true -> finite y = true -> Qabs (Qof x - Qof y) < pow2 1000 ->
  finite (x - y) = true /\ rounds (Qof x - Qof y) (Qof (x - y)).
Proof.
  intros x y Fx Fy H. unfold finite, Qof. rewrite sub_spec.
  apply SFsub_spec; auto.
Qed.

Lemma Qmag_pos_finite : forall s m e, 0 < Qmag (S754_finite s m e).
Proof.
  intros s m e. cbn [Qmag]. pose proof (inject_Z_pos m). pose proof (pow2_pos e).
  apply Qmult_lt_0_compat; assumption.
Qed.

Lemma SFdiv_spec : forall x y,
  SFfin x = true -> SFfin y = true -> ~ Qval y == 0 ->
  Qabs (Qval x / Qval y) < pow2 1000 ->
  let r := SFdiv 53 1024 x y in
  SFfin r = true /\ SpecFloat.valid_binary 53 1024 r = true /\
  rounds (Qval x / Qval y) (Qval r).
Proof.
  intros x y Fx Fy Hy HT r.
  destruct (SFfin_cases y Fy) as [[sy ->] | (sy & my & ey & ->)].
  { exfalso. apply Hy. apply Qval_zero. }
  destruct (SFfin_cases x Fx) as [[sx ->] | (sx & mx & ex & ->)].
  - unfold r. cbn [SFdiv]. split; [reflexivity | split; [reflexivity | ]].
    eapply rounds_compat; [ | | apply (rounds_refl 0)].
    + rewrite Qval_zero. unfold Qdiv. ring.
    + rewrite Qval_zero. reflexivity.
  - apply SFdiv_finite_spec.
    pose proof (Qmag_pos_finite sx mx ex) as Px.
    pose proof (Qmag_pos_finite sy my ey) as Py. cbn [Qmag] in Px, Py.
    rewrite !Qval_finite in HT.
    assert (E : Qabs ((if sx then - (inject_Z (Zpos mx) * pow2 ex)
                       else inject_Z (Zpos mx) * pow2 ex) /
                      (if sy then - (inject_Z (Zpos my) * pow2 ey)
                       else inject_Z (Zpos my) * pow2 ey)) ==
                inject_Z (Zpos mx) * pow2 ex / (inject_Z (Zpos my) * pow2 ey)).
    { set (a := inject_Z (Zpos mx) * pow2 ex) in *.
      set (b := inject_Z (Zpos my) * pow2 ey) in *.
      assert (Pab : 0 <= a / b).
      { apply Qle_shift_div_l; lra. }
      destruct sx, sy.
      - setoid_replace (- a / - b) with (a / b) by (field; lra).
        apply Qabs_pos. exact Pab.
      - setoid_replace (- a / b) with (- (a / b)) by (field; lra).
        rewrite Qabs_opp. apply Qabs_pos. exact Pab.
      - setoid_replace (a / - b) with (- (a / b)) by (field; lra).
        rewrite Qabs_opp. apply Qabs_pos. exact Pab.
      - apply Qabs_pos. exact Pab. }
    rewrite E in HT. exact HT.
Qed.

Lemma Qof_div : forall x y,
  finite x = true -> finite y = true -> ~ Qof y == 0 ->
  Qabs (Qof x / Qof y) < pow2 1000 ->
  finite (x / y) = true /\ rounds (Qof x / Qof y) (Qof (x / y)).
Proof.
  intros x y Fx Fy Hy H. unfold finite, Qof. rewrite div_spec.
  destruct (SFdiv_spec (Prim2SF x) (Prim2SF y) Fx Fy Hy H) as (F1 & _ & F3).
  split; assumption.
Qed.

(** The Number value for a ratio and for an integer. *)
Lemma Qof_number_of_ratio : forall s p q,
  inject_Z (Zpos p) / inject_Z (Zpos q) < pow2 1000 ->
  let T := inject_Z (Zpos p) / inject_Z (Zpos q) in
  finite (JS.number_of_ratio s p q) = true /\
  rounds (if s then - T else T) (Qof (JS.number_of_ratio s p q)).
Proof.
  intros s p q HT T. unfold JS.number_of_ratio, finite, Qof.
  pose proof (inject_Z_pos p) as Pp. pose proof (inject_Z_pos q) as Pq.
  assert (Ex : Qval (S754_finite s p 0) ==
               if s then - inject_Z (Zpos p) else inject_Z (Zpos p)).
  { rewrite Qval_finite. change (pow2 0) with 1. destruct s; ring. }
  assert (Ey : Qval (S754_finite false q 0) == inject_Z (Zpos q)).
  { rewrite Qval_finite. change (pow2 0) with 1. ring. }
  assert (ET : Qval (S754_finite s p 0) / Qval (S754_finite false q 0) ==
               if s then - T else T).
  { rewrite Ex, Ey. unfold T. destruct s; field; lra. }
  assert (P0 : 0 <= T) by (apply Qle_shift_div_l; lra).
  destruct (SFdiv_spec (S754_finite s p 0) (S754_finite false q 0)
              eq_refl eq_refl) as (F1 & F2 & F3).
  - rewrite Ey. lra.
  - rewrite ET, Qabs_signed by exact P0. exact HT.
  - change (SpecFloat.valid_binary 53 1024) with valid_binary in F2.
    change (SFdiv 53 1024) with (SFdiv prec emax) in F1, F2, F3.
    rewrite (Prim2SF_SF2Prim _ F2).
    split; [exact F1 | ].
    eapply rounds_compat; [exact ET | reflexivity | exact F3].
Qed.

Lemma repr_Z : forall z, (Z.abs z < 2 ^ 53)%Z -> repr (inject_Z z).
Proof.
  intros z H. exists z, 0%Z. split; [lia | split; [exact H | ]].
  change (pow2 0) with 1. ring.
Qed.

Lemma Qof_zero : Qof 0%float == 0.
Proof. reflexivity. Qed.

Lemma Qof_number_of_Z : forall z, (Z.abs z < 2 ^ 53)%Z ->
  finite (JS.number_of_Z z) = true /\ Qof (JS.number_of_Z z) == inject_Z z.
Proof.
  intros z Hz. destruct z as [|p|p]; cbn [JS.number_of_Z].
  - split; reflexivity.
  - assert (E1 : inject_Z (Zpos p) / inject_Z 1 == inject_Z (Zpos p)).
    { change (inject_Z 1) with 1. field. }
    assert (HT : inject_Z (Zpos p) / inject_Z 1 < pow2 1000).
    { rewrite E1. assert (inject_Z (Zpos p) < inject_Z (2 ^ 53)) by (rewrite <- Zlt_Qlt; lia).
      rewrite <- pow2_inject in H by lia.
      pose proof (pow2_lt 53 1000 ltac:(lia)). lra. }
    destruct (Qof_number_of_ratio false p 1 HT) as [F1 F2].
    split; [exact F1 | ]. cbn beta iota zeta in F2.
    destruct F2 as (_ & _ & _ & F4). rewrite F4; [exact E1 | ].
    apply (repr_compat (inject_Z (Zpos p))); [symmetry; exact E1 | ].
    apply repr_Z. exact Hz.
  - assert (E1 : inject_Z (Zpos p) / inject_Z 1 == inject_Z (Zpos p)).
    { change (inject_Z 1) with 1. field. }
    assert (HT : inject_Z (Zpos p) / inject_Z 1 < pow2 1000).
    { rewrite E1. assert (inject_Z (Zpos p) < inject_Z (2 ^ 53)) by (rewrite <- Zlt_Qlt; lia).
      rewrite <- pow2_inject in H by lia.
      pose proof (pow2_lt 53 1000 ltac:(lia)). lra. }
    destruct (Qof_number_of_ratio true p 1 HT) as [F1 F2].
    split; [exact F1 | ]. cbn beta iota zeta in F2.
    destruct F2 as (_ & _ & _ & F4).
    assert (E2 : inject_Z (Zneg p) == - (inject_Z (Zpos p) / inject_Z 1)).
    { rewrite E1. change (Zneg p) with (- Zpos p)%Z. rewrite inject_Z_opp. reflexivity. }
    rewrite F4; [symmetry; exact E2 | ].
    apply (repr_compat (inject_Z (Zneg p))); [exact E2 | ].
    apply repr_Z. exact Hz.
Qed.

Lemma Qfloor_ratio : forall a k, (0 <= k)%Z ->
  Qfloor (inject_Z a * pow2 (- k)) = (a / 2 ^ k)%Z.
Proof.
  intros a k Hk.
  assert (Hp : (0 < 2 ^ k)%Z) by (apply Z.pow_pos_nonneg; lia).
  assert (E : inject_Z a * pow2 (- k) == a # (Z.to_pos (2 ^ k))).
  { rewrite pow2_neg, pow2_inject by exact Hk.
    unfold Qeq, Qmult, Qinv, inject_Z. cbn [Qnum Qden].
    destruct (2 ^ k)%Z as [|p|p] eqn:Ep; try lia.
    cbn [Qnum Qden Z.to_pos]. lia. }
  rewrite E. cbn [Qfloor]. rewrite Z2Pos.id by exact Hp. reflexivity.
Qed.

(** [Math.floor] of a finite number is finite, and is its integer part. *)
Lemma Qof_floor : forall x, finite x = true ->
  finite (JS.Math_floor x) = true /\
  Qof (JS.Math_floor x) == inject_Z (Qfloor (Qof x)).
Proof.
  intros x Fx. unfold JS.Math_floor, finite, Qof in *.
  pose proof (Prim2SF_valid x) as Vx.
  destruct (Prim2SF x) as [s|s| |s m e] eqn:Ex; try discriminate.
  - rewrite Ex. split; [reflexivity | destruct s; reflexivity].
  - destruct (valid_finite s m e Vx) as (Dm & He & _).
    destruct (Zdigits2_bounds (Zpos m) ltac:(lia)) as [[_ Hhi] _].
    assert (Hm : (Zpos m < 2 ^ 53)%Z).
    { assert (2 ^ Zdigits2 (Zpos m) <= 2 ^ 53)%Z by (apply Z.pow_le_mono_r; lia). lia. }
    set (sm := if s then Zneg m else Zpos m).
    assert (EV : Qval (S754_finite s m e) == inject_Z sm * pow2 e).
    { rewrite Qval_finite. unfold sm. destruct s; [ | reflexivity].
      change (Zneg m) with (- Zpos m)%Z. rewrite inject_Z_opp. ring. }
    destruct (Z.leb_spec 0 e) as [Hge | Hlt].
    + rewrite Ex. split; [reflexivity | ].
      rewrite EV at 2. rewrite EV, pow2_inject by exact Hge.
      rewrite <- inject_Z_mult, Qfloor_Z. reflexivity.
    + assert (Ez : Z.shiftr sm (- e) = (sm / 2 ^ (- e))%Z)
        by (apply Z.shiftr_div_pow2; lia).
      fold sm. rewrite Ez.
      assert (Hp : (0 < 2 ^ (- e))%Z) by (apply Z.pow_pos_nonneg; lia).
      assert (Hz : (Z.abs (sm / 2 ^ (- e)) < 2 ^ 53)%Z).
      { assert (H1 : (- Zpos m <= sm <= Zpos m)%Z) by (unfold sm; destruct s; lia).
        assert (P1 : (1 <= 2 ^ (- e))%Z) by lia.
        assert (L : (- Zpos m <= sm / 2 ^ (- e))%Z).
        { apply Z.div_le_lower_bound; [exact Hp | ]. nia. }
        assert (U : (sm / 2 ^ (- e) <= Zpos m)%Z).
        { apply Z.div_le_upper_bound; [exact Hp | ]. nia. }
        lia. }
      destruct (Qof_number_of_Z _ Hz) as [F1 F2]. unfold finite, Qof in F1, F2.
      split; [exact F1 | ]. rewrite F2.
      rewrite EV. replace e with (- - e)%Z at 2 by lia.
      rewrite Qfloor_ratio by lia. reflexivity.
Qed.

(** [x || 0] keeps the value of a finite number. *)
Lemma Qof_or_zero : forall x, finite x = true ->
  finite (or_zero (Some x)) = true /\ Qof (or_zero (Some x)) == Qof x.
Proof.
  intros x Fx. unfold or_zero, JS.truthy_number.
  destruct (PrimFloat.is_zero x || PrimFloat.is_nan x)%bool eqn:E; cbn [negb].
  - split; [reflexivity | ].
    apply orb_prop in E. destruct E as [E | E].
    + unfold PrimFloat.is_zero in E. rewrite FloatAxioms.eqb_spec in E.
      unfold Qof. unfold finite in Fx.
      destruct (Prim2SF x) as [s|s| |s m e]; try discriminate.
      * rewrite Qval_zero. reflexivity.
      * exfalso. revert E. unfold SFeqb, SFcompare.
        change (Prim2SF PrimFloat.zero) with (S754_zero false).
        destruct s; discriminate.
    + exfalso. unfold PrimFloat.is_nan in E. rewrite FloatAxioms.eqb_spec in E.
      apply negb_true_iff in E. apply SFeqb_refl_false in E.
      unfold finite in Fx. rewrite E in Fx. discriminate.
  - split; [exact Fx | reflexivity].
Qed.

(** *** The fraction of a second, rounded to three decimals *)

(** Each of the 1001 strings that [toFixed(3)] can give for a fraction of a
    second comes back, through [parseFloat], [1000 *], [|| 0] and [/ 1000],
    within [2^-50] of its value. *)
Lemma ms_table : all_from 1001 0 ms_check = true.
Proof. vm_compute. reflexivity. Qed.

Lemma Qfloor_div : forall a b, (0 < b)%Z ->
  Qfloor (inject_Z a / inject_Z b) = (a / b)%Z.
Proof.
  intros a b Hb.
  assert (E : inject_Z a / inject_Z b == a # (Z.to_pos b)).
  { unfold Qeq, Qdiv, Qmult, Qinv, inject_Z. cbn [Qnum Qden].
    destruct b as [|p|p]; try lia. cbn [Qnum Qden Z.to_pos]. lia. }
  rewrite E. cbn [Qfloor]. rewrite Z2Pos.id by exact Hb. reflexivity.
Qed.

(** [toFixed(3)] of a number in [[0, 1)] prints its thousandths, rounded
    half up. *)
Lemma toFixed3_unit : forall x, finite x = true -> 0 <= Qof x -> Qof x < 1 ->
  JS.Number_toFixed 3 x = fixed3 (Qfloor (1000 * Qof x + (1 # 2))).
Proof.
  intros x Fx H0 H1. unfold JS.Number_toFixed, finite, Qof in *.
  destruct (Prim2SF x) as [s|s| |s m e]; try discriminate.
  - destruct s; reflexivity.
  - pose proof (Qmag_pos_finite s m e) as Pm. cbn [Qmag] in Pm.
    rewrite Qval_finite in H0, H1.
    destruct s; [exfalso; lra | ].
    assert (He : (e < 0)%Z).
    { destruct (Z_lt_le_dec e 0) as [L|L]; [exact L | exfalso].
      assert (1 <= inject_Z (Zpos m)) by (change 1 with (inject_Z 1); rewrite <- Zle_Qle; lia).
      pose proof (pow2_le 0 e L) as P. change (pow2 0) with 1 in P.
      assert (1 * 1 <= inject_Z (Zpos m) * pow2 e) by (apply Qmult_le_compat_nonneg; lra).
      lra. }
    unfold JS.ratio_of. destruct (Z.leb_spec 0 e) as [L|_]; [lia | ].
    set (den := (2 ^ (- e))%Z).
    assert (Hden : (0 < den)%Z) by (apply Z.pow_pos_nonneg; lia).
    assert (EV : Qval (S754_finite false m e) == inject_Z (Zpos m) / inject_Z den).
    { rewrite Qval_finite. unfold den. rewrite <- pow2_inject by lia.
      rewrite pow2_neg. field. pose proof (pow2_pos e). lra. }
    assert (Pden : 0 < inject_Z den)
      by (change 0 with (inject_Z 0); rewrite <- Zlt_Qlt; exact Hden).
    assert (Hnum : (Zpos m < den)%Z).
    { rewrite Qval_finite in EV. rewrite EV in H1.
      destruct (Z_lt_le_dec (Zpos m) den) as [L|L]; [exact L | exfalso].
      rewrite Zle_Qle in L.
      assert (1 <= inject_Z (Zpos m) / inject_Z den) by (apply Qle_shift_div_l; lra).
      lra. }
    destruct (Z.leb_spec (10 ^ 21 * den) (Zpos m)) as [L|_]; [lia | ].
    assert (En : Qfloor (1000 * Qval (S754_finite false m e) + (1 # 2)) =
                 ((2 * Zpos m * 10 ^ Z.of_nat 3 + den) / (2 * den))%Z).
    { rewrite <- Qfloor_div by lia.
      apply Qfloor_comp. rewrite EV.
      rewrite inject_Z_plus, !inject_Z_mult.
      change (inject_Z (10 ^ Z.of_nat 3)) with 1000. change (inject_Z 2) with 2.
      field. lra. }
    rewrite En. reflexivity.
Qed.

(** *** Exact operations *)

Lemma rounds_bound : forall T R k, rounds T R -> (-1021 <= k)%Z ->
  - pow2 k < T -> T < pow2 k ->
  T - pow2 (k - 54) <= R /\ R <= T + pow2 (k - 54).
Proof.
  intros T R k (_ & _ & H3 & _) Hk L U.
  assert (HA : Qabs T < pow2 k) by (apply Qabs_Qlt_condition; split; assumption).
  specialize (H3 k Hk HA). apply Qabs_Qle_condition in H3. lra.
Qed.

Lemma rounds_exact : forall T R, rounds T R -> repr T -> R == T.
Proof. intros T R (_ & _ & _ & H4) H. apply H4. exact H. Qed.

Lemma rounds_nonneg : forall T R, rounds T R -> 0 <= T -> 0 <= R.
Proof. intros T R (H1 & _) H. apply H1. exact H. Qed.

Lemma on_grid_compat : forall g T T', T == T' -> on_grid g T -> on_grid g T'.
Proof. intros g T T' E [z Hz]. exists z. rewrite <- E. exact Hz. Qed.

Lemma on_grid_Z : forall g k, (g <= 0)%Z -> on_grid g (inject_Z k).
Proof.
  intros g k Hg. exists (k * 2 ^ (- g))%Z.
  rewrite inject_Z_mult, <- pow2_inject by lia.
  rewrite <- Qmult_assoc, <- pow2_add. replace (- g + g)%Z with 0%Z by lia.
  change (pow2 0) with 1. ring.
Qed.

Lemma on_grid_minus : forall g a b, on_grid g a -> on_grid g b -> on_grid g (a - b).
Proof.
  intros g a b [x Hx] [y Hy]. exists (x - y)%Z.
  unfold Z.sub. rewrite inject_Z_plus, inject_Z_opp, Hx, Hy. ring.
Qed.

Lemma on_grid_plus : forall g a b, on_grid g a -> on_grid g b -> on_grid g (a + b).
Proof.
  intros g a b [x Hx] [y Hy]. exists (x + y)%Z.
  rewrite inject_Z_plus, Hx, Hy. ring.
Qed.

Lemma repr_grid : forall g T, (-1074 <= g)%Z -> on_grid g T ->
  - pow2 (53 + g) < T -> T < pow2 (53 + g) -> repr T.
Proof.
  intros g T Hg [z Hz] L U. exists z, g.
  split; [exact Hg | split; [ | exact Hz]].
  pose proof (pow2_pos g) as Pg.
  assert (E53 : pow2 (53 + g) == inject_Z (2 ^ 53) * pow2 g).
  { rewrite pow2_add, (pow2_inject 53) by lia. reflexivity. }
  rewrite E53, Hz in L. rewrite E53, Hz in U.
  assert (U' : inject_Z z < inject_Z (2 ^ 53)).
  { destruct (Qlt_le_dec (inject_Z z) (inject_Z (2 ^ 53))) as [H|H]; [exact H | exfalso].
    assert (inject_Z (2 ^ 53) * pow2 g <= inject_Z z * pow2 g)
      by (apply Qmult_le_compat_r; lra). lra. }
  assert (L' : - inject_Z (2 ^ 53) < inject_Z z).
  { destruct (Qlt_le_dec (- inject_Z (2 ^ 53)) (inject_Z z)) as [H|H]; [exact H | exfalso].
    assert (inject_Z z * pow2 g <= (- inject_Z (2 ^ 53)) * pow2 g)
      by (apply Qmult_le_compat_r; lra). lra. }
  rewrite <- inject_Z_opp in L'. rewrite <- Zlt_Qlt in U', L'. lia.
Qed.

(** A finite number below [2^31] in magnitude lies on a grid [2^g] with
    [g <= 0], below [2^(53+g)]. *)
Lemma float_grid : forall x, finite x = true ->
  - pow2 31 < Qof x -> Qof x < pow2 31 ->
  exists g, (-1074 <= g <= 0)%Z /\ on_grid g (Qof x) /\
            - pow2 (53 + g) < Qof x /\ Qof x < pow2 (53 + g).
Proof.
  intros x Fx L U. unfold finite, Qof in *.
  pose proof (Prim2SF_valid x) as Vx.
  destruct (Prim2SF x) as [s|s| |s m e]; try discriminate.
  - exists (-1074)%Z. split; [lia | split; [ | ]].
    + exists 0%Z. rewrite Qval_zero. change (inject_Z 0) with 0. ring.
    + rewrite Qval_zero. pose proof (pow2_pos (53 + -1074)). lra.
  - destruct (valid_finite s m e Vx) as (Dm & He & Hc).
    destruct (Zdigits2_bounds (Zpos m) ltac:(lia)) as [[Hlo Hhi] Hd].
    set (d := Zdigits2 (Zpos m)) in *.
    pose proof (pow2_pos e) as Pe.
    assert (Hm : inject_Z (Zpos m) < pow2 53).
    { rewrite pow2_inject by lia. rewrite <- Zlt_Qlt.
      assert (2 ^ d <= 2 ^ 53)%Z by (apply Z.pow_le_mono_r; lia). lia. }
    assert (HM : inject_Z (Zpos m) * pow2 e < pow2 (53 + e)).
    { rewrite pow2_add. apply Qmult_lt_compat_r; assumption. }
    pose proof (Qmag_pos_finite s m e) as Pm. cbn [Qmag] in Pm.
    assert (Hmag : inject_Z (Zpos m) * pow2 e < pow2 31).
    { rewrite Qval_finite in L, U. destruct s; lra. }
    assert (Hge : (e <= 0)%Z).
    { destruct Hc as [Hc | Hc]; [ | lia].
      assert (Hlo' : pow2 52 <= inject_Z (Zpos m)).
      { rewrite pow2_inject by lia. rewrite <- Zle_Qle.
        replace 52%Z with (d - 1)%Z by lia. exact Hlo. }
      assert (pow2 (52 + e) <= inject_Z (Zpos m) * pow2 e).
      { rewrite pow2_add. apply Qmult_le_compat_r; lra. }
      assert (H31 : pow2 (52 + e) < pow2 31) by lra.
      apply pow2_lt_cancel in H31. lia. }
    exists e. split; [lia | split].
    + exists (if s then Zneg m else Zpos m). rewrite Qval_finite.
      destruct s; [ | reflexivity].
      change (Zneg m) with (- Zpos m)%Z. rewrite inject_Z_opp. ring.
    + rewrite Qval_finite. destruct s; lra.
Qed.

Lemma pow2_room : forall j k, pow2 j < pow2 k -> pow2 (j + 1) <= pow2 k.
Proof. intros j k H. apply pow2_lt_cancel in H. apply pow2_le. lia. Qed.

Lemma Qof_60 : finite 60%float = true /\ Qof 60%float == 60.
Proof. split; reflexivity. Qed.

Lemma Qof_1000 : finite 1000%float = true /\ Qof 1000%float == 1000.
Proof. split; reflexivity. Qed.

Lemma Qof_3600 : finite 3600%float = true /\ Qof 3600%float == 3600.
Proof. split; reflexivity. Qed.

Lemma floor_bounds : forall x, inject_Z (Qfloor x) <= x /\ x < inject_Z (Qfloor x) + 1.
Proof.
  intros x. split; [apply Qfloor_le | ].
  pose proof (Qlt_floor x) as H. rewrite inject_Z_plus in H. exact H.
Qed.

Lemma Zbound_pow2 : forall z, (Z.abs z < 2 ^ 53)%Z ->
  Qabs (inject_Z z) < pow2 1000.
Proof.
  intros z H. apply Qabs_Qlt_condition.
  pose proof (pow2_lt 53 1000 ltac:(lia)) as P. rewrite (pow2_inject 53) in P by lia.
  assert (inject_Z z < inject_Z (2 ^ 53)) by (rewrite <- Zlt_Qlt; lia).
  assert (- inject_Z (2 ^ 53) < inject_Z z) by (rewrite <- inject_Z_opp, <- Zlt_Qlt; lia).
  lra.
Qed.

(** Products and sums of whole numbers below [2^53] are exact. *)
Lemma mulZ_exact : forall x y a b,
  finite x = true -> finite y = true ->
  Qof x == inject_Z a -> Qof y == inject_Z b -> (Z.abs (a * b) < 2 ^ 53)%Z ->
  finite (x * y) = true /\ Qof (x * y) == inject_Z (a * b).
Proof.
  intros x y a b Fx Fy Ex Ey H.
  assert (ET : Qof x * Qof y == inject_Z (a * b))
    by (rewrite Ex, Ey, inject_Z_mult; reflexivity).
  destruct (Qof_mul x y Fx Fy) as [F R].
  - rewrite ET. apply Zbound_pow2. exact H.
  - split; [exact F | ]. rewrite <- ET. apply (rounds_exact _ _ R).
    apply (repr_compat (inject_Z (a * b))); [symmetry; exact ET | apply repr_Z; exact H].
Qed.

Lemma addZ_exact : forall x y a b,
  finite x = true -> finite y = true ->
  Qof x == inject_Z a -> Qof y == inject_Z b -> (Z.abs (a + b) < 2 ^ 53)%Z ->
  finite (x + y) = true /\ Qof (x + y) == inject_Z (a + b).
Proof.
  intros x y a b Fx Fy Ex Ey H.
  assert (ET : Qof x + Qof y == inject_Z (a + b))
    by (rewrite Ex, Ey, inject_Z_plus; reflexivity).
  destruct (Qof_add x y Fx Fy) as [F R].
  - rewrite ET. apply Zbound_pow2. exact H.
  - split; [exact F | ]. rewrite <- ET. apply (rounds_exact _ _ R).
    apply (repr_compat (inject_Z (a + b))); [symmetry; exact ET | apply repr_Z; exact H].
Qed.

(** A difference that stays on the grid and within 53 bits is exact. *)
Lemma sub_grid_exact : forall x y g,
  finite x = true -> finite y = true -> (-1074 <= g <= 0)%Z ->
  on_grid g (Qof x) -> on_grid g (Qof y) ->
  - pow2 (53 + g) < Qof x - Qof y -> Qof x - Qof y < pow2 (53 + g) ->
  finite (x - y) = true /\ Qof (x - y) == Qof x - Qof y.
Proof.
  intros x y g Fx Fy Hg Gx Gy L U.
  destruct (Qof_sub x y Fx Fy) as [F R].
  - apply Qabs_Qlt_condition.
    pose proof (pow2_le (53 + g) 53 ltac:(lia)).
    pose proof (pow2_lt 53 1000 ltac:(lia)). lra.
  - split; [exact F | ]. apply (rounds_exact _ _ R).
    apply (repr_grid g); [lia | apply on_grid_minus; assumption | exact L | exact U].
Qed.

(** *** Decomposition and recomposition *)

Lemma div60 : forall x, finite x = true -> Qabs (Qof x) < pow2 1000 ->
  finite (x / 60)%float = true /\ rounds (Qof x * (1 # 60)) (Qof (x / 60)%float).
Proof.
  intros x Fx Hx. destruct Qof_60 as [F60 E60].
  assert (ET : Qof x / Qof 60%float == Qof x * (1 # 60)).
  { rewrite E60. field. }
  destruct (Qof_div x 60%float Fx F60) as [F R].
  - rewrite E60. discriminate.
  - rewrite ET. apply Qabs_Qlt_condition in Hx. apply Qabs_Qlt_condition.
    destruct (Qlt_le_dec (Qof x) 0); lra.
  - split; [exact F | ]. eapply rounds_compat; [exact ET | reflexivity | exact R].
Qed.

Lemma mul60 : forall x, finite x = true -> Qabs (Qof x) < pow2 900 ->
  finite (x * 60)%float = true /\ rounds (Qof x * 60) (Qof (x * 60)%float).
Proof.
  intros x Fx Hx. destruct Qof_60 as [F60 E60].
  assert (ET : Qof x * Qof 60%float == Qof x * 60) by (rewrite E60; reflexivity).
  destruct (Qof_mul x 60%float Fx F60) as [F R].
  - rewrite ET. apply Qabs_Qlt_condition in Hx. apply Qabs_Qlt_condition.
    assert (P : pow2 906 == 64 * pow2 900).
    { replace 906%Z with (6 + 900)%Z by lia. rewrite pow2_add. reflexivity. }
    pose proof (pow2_le 906 1000 ltac:(lia)). pose proof (pow2_pos 900). lra.
  - split; [exact F | ]. eapply rounds_compat; [exact ET | reflexivity | exact R].
Qed.

Lemma small_lt_pow2 : forall x k, (31 <= k)%Z -> - pow2 31 < x -> x < pow2 31 ->
  Qabs x < pow2 k.
Proof.
  intros x k Hk L U. apply Qabs_Qlt_condition.
  pose proof (pow2_le 31 k Hk). lra.
Qed.

Section Decompose.

Variable v : float.
Hypothesis Fv : finite v = true.
Hypothesis H0 : 0 <= Qof v.
Hypothesis H31 : Qof v < pow2 31.

(** The total of hours is within [2^-32] of [v / 3600]. *)
Lemma th_facts :
  let th := totalHours (getComputedTime v) in
  finite th = true /\ 0 <= Qof th /\
  Qof v * (1 # 3600) - (1 # 4294967296) <= Qof th
    <= Qof v * (1 # 3600) + (1 # 4294967296).
Proof.
  intros th. change th with (v / 60 / 60)%float. clear th.
  set (th := (v / 60 / 60)%float).
  assert (E31' : pow2 31 == 2147483648) by reflexivity.
  destruct (div60 v Fv) as [F1 R1].
  { apply small_lt_pow2; [lia | lra | lra]. }
  assert (P1 : 0 <= Qof (v / 60)%float) by (apply (rounds_nonneg _ _ R1); lra).
  assert (E26 : pow2 26 == 67108864) by reflexivity.
  assert (E26' : pow2 (26 - 54) == 1 # 268435456) by reflexivity.
  destruct (rounds_bound _ _ 26 R1 ltac:(lia)) as [L1 U1]; [lra | lra | ].
  destruct (div60 (v / 60)%float F1) as [F2 R2].
  { apply small_lt_pow2; [lia | lra | lra]. }
  fold th in F2, R2.
  assert (P2 : 0 <= Qof th) by (apply (rounds_nonneg _ _ R2); lra).
  assert (E21 : pow2 21 == 2097152) by reflexivity.
  assert (E21' : pow2 (21 - 54) == 1 # 8589934592) by reflexivity.
  destruct (rounds_bound _ _ 21 R2 ltac:(lia)) as [L2 U2]; [lra | lra | ].
  split; [exact F2 | split; [exact P2 | split; lra]].
Qed.

(** The hours, minutes and seconds are whole numbers, and the subtractions
    that lead to the fraction of a second are all exact. *)
Lemma decompose_facts :
  let c := getComputedTime v in
  let frac := (totalSeconds c - hours c * 60 * 60 - minutes c * 60 - seconds c)%float in
  exists H M S : Z,
    (finite (hours c) = true /\ Qof (hours c) == inject_Z H) /\
    (finite (minutes c) = true /\ Qof (minutes c) == inject_Z M) /\
    (finite (seconds c) = true /\ Qof (seconds c) == inject_Z S) /\
    (0 <= H < 600000)%Z /\ (0 <= M <= 60)%Z /\ (-1 <= S <= 60)%Z /\
    finite frac = true /\
    Qof frac == Qof v - inject_Z (3600 * H + 60 * M + S) /\
    0 <= Qof frac /\ Qof frac < 1.
Proof.
  intros c frac0.
  set (th := (v / 60 / 60)%float).
  set (h := JS.Math_floor th).
  set (m := JS.Math_floor ((th - h) * 60)%float).
  set (X := (v - h * 60 * 60 - m * 60)%float).
  set (s := JS.Math_floor X).
  set (frac := (X - s)%float).
  change (hours c) with h. change (minutes c) with m. change (seconds c) with s.
  change frac0 with frac. clear frac0 c.
  assert (E31' : pow2 31 == 2147483648) by reflexivity.
  destruct th_facts as (Fth & Pth & Lth & Uth).
  change (totalHours (getComputedTime v)) with th in Fth, Pth, Lth, Uth.
  (* hours *)
  destruct (Qof_floor th Fth) as [Fh Eh]. fold h in Fh, Eh.
  set (H := Qfloor (Qof th)) in *.
  destruct (floor_bounds (Qof th)) as [LH UH]. fold H in LH, UH.
  assert (HH : (0 <= H < 600000)%Z).
  { assert (inject_Z (-1) < inject_Z H) by (change (inject_Z (-1)) with (-1); lra).
    assert (inject_Z H < inject_Z 600000) by (change (inject_Z 600000) with 600000; lra).
    rewrite <- Zlt_Qlt in *. lia. }
  assert (PH : 0 <= inject_Z H) by (change 0 with (inject_Z 0); rewrite <- Zle_Qle; lia).
  (* the fraction of an hour *)
  destruct (float_grid th Fth ltac:(lra) ltac:(lra)) as (gt & Hgt & Gth & Lgt & Ugt).
  destruct (sub_grid_exact th h gt Fth Fh Hgt Gth) as [Fu Eu].
  { apply (on_grid_compat gt (inject_Z H)); [symmetry; exact Eh | apply on_grid_Z; lia]. }
  { rewrite Eh. lra. }
  { rewrite Eh. lra. }
  rewrite Eh in Eu.
  (* minutes *)
  assert (E6 : pow2 6 == 64) by reflexivity.
  assert (E6' : pow2 (6 - 54) == 1 # 281474976710656) by reflexivity.
  destruct (mul60 (th - h)%float Fu) as [Ftm Rtm].
  { apply Qabs_Qlt_condition. pose proof (pow2_le 6 900 ltac:(lia)). lra. }
  assert (Ptm : 0 <= Qof ((th - h) * 60)%float) by (apply (rounds_nonneg _ _ Rtm); lra).
  destruct (rounds_bound _ _ 6 Rtm ltac:(lia)) as [Ltm Utm]; [lra | lra | ].
  destruct (Qof_floor _ Ftm) as [Fm Em]. fold m in Fm, Em.
  set (M := Qfloor (Qof ((th - h) * 60)%float)) in *.
  destruct (floor_bounds (Qof ((th - h) * 60)%float)) as [LM UM]. fold M in LM, UM.
  assert (HM : (0 <= M <= 60)%Z).
  { assert (inject_Z (-1) < inject_Z M) by (change (inject_Z (-1)) with (-1); lra).
    assert (inject_Z M < inject_Z 61) by (change (inject_Z 61) with 61; lra).
    rewrite <- Zlt_Qlt in *. lia. }
  (* hours * 60 * 60 and minutes * 60 *)
  destruct Qof_60 as [F60 E60].
  destruct (mulZ_exact h 60%float H 60 Fh F60 Eh E60 ltac:(lia)) as [Fh1 Eh1].
  destruct (mulZ_exact _ 60%float _ 60 Fh1 F60 Eh1 E60 ltac:(lia)) as [Fh2 Eh2].
  destruct (mulZ_exact m 60%float M 60 Fm F60 Em E60 ltac:(lia)) as [Fm1 Em1].
  (* the grid of v *)
  destruct (float_grid v Fv ltac:(lra) ltac:(lra)) as (g & Hg & Gv & Lg & Ug).
  assert (Ea : inject_Z (H * 60 * 60) == 3600 * inject_Z H).
  { rewrite !inject_Z_mult. change (inject_Z 60) with 60. ring. }
  assert (Eb : inject_Z (M * 60) == 60 * inject_Z M).
  { rewrite !inject_Z_mult. change (inject_Z 60) with 60. ring. }
  assert (RoomH : (1 <= H)%Z -> 4096 <= pow2 (53 + g)).
  { intros H1.
    assert (1 <= inject_Z H) by (change 1 with (inject_Z 1); rewrite <- Zle_Qle; lia).
    assert (E11 : pow2 11 == 2048) by reflexivity.
    assert (E12 : pow2 (11 + 1) == 4096) by reflexivity.
    assert (Hlt : pow2 11 < pow2 (53 + g)) by lra.
    apply pow2_room in Hlt. lra. }
  (* v - hours * 60 * 60 *)
  assert (Bd : - (1 # 1000000) <= Qof v - 3600 * inject_Z H /\
               Qof v - 3600 * inject_Z H < 3600 + (1 # 1000000)) by (split; lra).
  destruct (sub_grid_exact v (h * 60 * 60)%float g Fv Fh2 Hg Gv) as [Fd Ed].
  { apply (on_grid_compat g (inject_Z (H * 60 * 60)));
      [symmetry; exact Eh2 | apply on_grid_Z; lia]. }
  { rewrite Eh2, Ea. destruct (Z.eq_dec H 0) as [Z0 | NZ].
    - rewrite Z0. change (inject_Z 0) with 0. lra.
    - specialize (RoomH ltac:(lia)). lra. }
  { rewrite Eh2, Ea. destruct (Z.eq_dec H 0) as [Z0 | NZ].
    - rewrite Z0. change (inject_Z 0) with 0. lra.
    - specialize (RoomH ltac:(lia)). lra. }
  rewrite Eh2, Ea in Ed.
  assert (Gd : on_grid g (Qof (v - h * 60 * 60)%float)).
  { apply (on_grid_compat g (Qof v - inject_Z (H * 60 * 60))).
    - rewrite Ed, Ea. reflexivity.
    - apply on_grid_minus; [exact Gv | apply on_grid_Z; lia]. }
  (* ... - minutes * 60 *)
  assert (BX : - (1 # 10000) <= Qof v - 3600 * inject_Z H - 60 * inject_Z M /\
               Qof v - 3600 * inject_Z H - 60 * inject_Z M < 60 + (1 # 10000))
    by (split; lra).
  assert (RoomM : (1 <= M)%Z -> 64 <= pow2 (53 + g)).
  { intros M1.
    assert (1 <= inject_Z M) by (change 1 with (inject_Z 1); rewrite <- Zle_Qle; lia).
    assert (E5 : pow2 5 == 32) by reflexivity.
    assert (E5' : pow2 (5 + 1) == 64) by reflexivity.
    destruct (Z.eq_dec H 0) as [Z0 | NZ].
    - rewrite Z0 in *. change (inject_Z 0) with 0 in *.
      assert (Hlt : pow2 5 < pow2 (53 + g)) by lra.
      apply pow2_room in Hlt. lra.
    - specialize (RoomH ltac:(lia)). lra. }
  destruct (sub_grid_exact (v - h * 60 * 60)%float (m * 60)%float g Fd Fm1 Hg Gd)
    as [FX EX].
  { apply (on_grid_compat g (inject_Z (M * 60)));
      [symmetry; exact Em1 | apply on_grid_Z; lia]. }
  { rewrite Ed, Em1, Eb. destruct (Z.eq_dec M 0) as [Z0 | NZ].
    - rewrite Z0. change (inject_Z 0) with 0.
      destruct (Z.eq_dec H 0) as [Z1 | NZ1].
      + rewrite Z1. change (inject_Z 0) with 0. lra.
      + specialize (RoomH ltac:(lia)). lra.
    - specialize (RoomM ltac:(lia)). lra. }
  { rewrite Ed, Em1, Eb. destruct (Z.eq_dec M 0) as [Z0 | NZ].
    - rewrite Z0. change (inject_Z 0) with 0.
      destruct (Z.eq_dec H 0) as [Z1 | NZ1].
      + rewrite Z1. change (inject_Z 0) with 0. lra.
      + specialize (RoomH ltac:(lia)). lra.
    - specialize (RoomM ltac:(lia)). lra. }
  fold X in FX, EX. rewrite Ed, Em1, Eb in EX.
  assert (GX : on_grid g (Qof X)).
  { apply (on_grid_compat g (Qof v - inject_Z (H * 60 * 60) - inject_Z (M * 60))).
    - rewrite EX, Ea, Eb. reflexivity.
    - apply on_grid_minus; [apply on_grid_minus; [exact Gv | ] | ]; apply on_grid_Z; lia. }
  (* seconds *)
  destruct (Qof_floor X FX) as [Fs Es]. fold s in Fs, Es.
  set (S := Qfloor (Qof X)) in *.
  destruct (floor_bounds (Qof X)) as [LS US]. fold S in LS, US.
  assert (HS : (-1 <= S <= 60)%Z).
  { assert (inject_Z (-2) < inject_Z S) by (change (inject_Z (-2)) with (-2); lra).
    assert (inject_Z S < inject_Z 61) by (change (inject_Z 61) with 61; lra).
    rewrite <- Zlt_Qlt in *. lia. }
  (* the fraction of a second *)
  assert (Room1 : S <> 0%Z -> 1 < pow2 (53 + g)).
  { intros NS. destruct (Z_lt_le_dec S 0) as [Neg | Pos].
    - assert (inject_Z S <= -1)
        by (change (-1) with (inject_Z (-1)); rewrite <- Zle_Qle; lia).
      destruct (Z.eq_dec M 0) as [Z0 | NZ]; [ | specialize (RoomM ltac:(lia)); lra].
      destruct (Z.eq_dec H 0) as [Z1 | NZ1]; [ | specialize (RoomH ltac:(lia)); lra].
      exfalso. rewrite Z0, Z1 in *. change (inject_Z 0) with 0 in *. lra.
    - assert (1 <= inject_Z S) by (change 1 with (inject_Z 1); rewrite <- Zle_Qle; lia).
      destruct (Z.eq_dec M 0) as [Z0 | NZ]; [ | specialize (RoomM ltac:(lia)); lra].
      destruct (Z.eq_dec H 0) as [Z1 | NZ1]; [ | specialize (RoomH ltac:(lia)); lra].
      rewrite Z0, Z1 in *. change (inject_Z 0) with 0 in *. lra. }
  assert (BXG : - pow2 (53 + g) < Qof X /\ Qof X < pow2 (53 + g)).
  { rewrite EX. destruct (Z.eq_dec M 0) as [Z0 | NZ].
    - rewrite Z0. change (inject_Z 0) with 0.
      destruct (Z.eq_dec H 0) as [Z1 | NZ1].
      + rewrite Z1. change (inject_Z 0) with 0. split; lra.
      + specialize (RoomH ltac:(lia)). split; lra.
    - specialize (RoomM ltac:(lia)). split; lra. }
  destruct (sub_grid_exact X s g FX Fs Hg GX) as [Ff Ef].
  { apply (on_grid_compat g (inject_Z S)); [symmetry; exact Es | apply on_grid_Z; lia]. }
  { rewrite Es. destruct (Z.eq_dec S 0) as [Z0 | NZ].
    - rewrite Z0 in *. change (inject_Z 0) with 0 in *. lra.
    - specialize (Room1 NZ). lra. }
  { rewrite Es. destruct (Z.eq_dec S 0) as [Z0 | NZ].
    - rewrite Z0 in *. change (inject_Z 0) with 0 in *. lra.
    - specialize (Room1 NZ). lra. }
  fold frac in Ff, Ef. rewrite Es in Ef.
  exists H, M, S.
  split; [split; assumption | ].
  split; [split; assumption | ].
  split; [split; assumption | ].
  split; [exact HH | split; [exact HM | split; [exact HS | ]]].
  split; [exact Ff | ].
  assert (EI : inject_Z (3600 * H + 60 * M + S) ==
               3600 * inject_Z H + 60 * inject_Z M + inject_Z S).
  { rewrite !inject_Z_plus, !inject_Z_mult.
    change (inject_Z 3600) with 3600. change (inject_Z 60) with 60. reflexivity. }
  split; [rewrite Ef, EX, EI; ring | ].
  rewrite Ef. split; lra.
Qed.

(** Recomposing the breakdown of [v], written out. *)
Lemma recompose_term :
  let c := getComputedTime v in
  let frac := (totalSeconds c - hours c * 60 * 60 - minutes c * 60 - seconds c)%float in
  recompose_decompose v =
  (0 + 60 * 60 * or_zero (Some (hours c)) + 60 * or_zero (Some (minutes c))
   + or_zero (Some (seconds c))
   + or_zero (Some (1000 * JS.parseFloat (JS.Number_toFixed 3 frac))) / 1000)%float.
Proof. reflexivity. Qed.

(** The round trip in binary64. *)
Lemma round_trip_close :
  finite (recompose_decompose v) = true /\
  Qabs (Qof (recompose_decompose v) - Qof v) <= (1 # 2000) + pow2 (-21).
Proof.
  assert (E31' : pow2 31 == 2147483648) by reflexivity.
  destruct decompose_facts
    as (H & M & S & [Fh Eh] & [Fm Em] & [Fs Es] & HH & HM & HS & Ff & Ef & Pf & Uf).
  rewrite recompose_term. cbv zeta.
  set (c := getComputedTime v) in *.
  set (h := hours c) in *. set (m := minutes c) in *. set (s := seconds c) in *.
  set (frac := (totalSeconds c - h * 60 * 60 - m * 60 - s)%float) in *.
  (* the milliseconds *)
  rewrite (toFixed3_unit frac Ff Pf Uf).
  set (n := Qfloor (1000 * Qof frac + (1 # 2))).
  destruct (floor_bounds (1000 * Qof frac + (1 # 2))) as [Ln Un]. fold n in Ln, Un.
  assert (Hn : (0 <= n < 0 + Z.of_nat 1001)%Z).
  { assert (inject_Z (-1) < inject_Z n) by (change (inject_Z (-1)) with (-1); lra).
    assert (inject_Z n < inject_Z 1001) by (change (inject_Z 1001) with 1001; lra).
    rewrite <- Zlt_Qlt in *. lia. }
  pose proof (all_from_spec 1001 0 ms_check ms_table n Hn) as Hc.
  unfold ms_check in Hc. apply andb_prop in Hc. destruct Hc as [Fb Bb].
  apply Qle_bool_iff in Bb. apply Qabs_Qle_condition in Bb.
  assert (E50 : pow2 (-50) == 1 # 1125899906842624) by reflexivity.
  assert (En : inject_Z n / 1000 == inject_Z n * (1 # 1000)) by field.
  rewrite En in Bb.
  fold (ms_back n).
  (* the hours, minutes and seconds *)
  destruct (Qof_or_zero h Fh) as [Fh' Eh']. rewrite Eh in Eh'.
  destruct (Qof_or_zero m Fm) as [Fm' Em']. rewrite Em in Em'.
  destruct (Qof_or_zero s Fs) as [Fs' Es']. rewrite Es in Es'.
  assert (F3600 : finite (60 * 60)%float = true) by reflexivity.
  assert (E3600 : Qof (60 * 60)%float == inject_Z 3600) by reflexivity.
  destruct Qof_60 as [F60 E60]. change 60 with (inject_Z 60) in E60.
  destruct (mulZ_exact _ _ 3600 H F3600 Fh' E3600 Eh' ltac:(lia)) as [F1 E1].
  assert (F0 : finite 0%float = true) by reflexivity.
  assert (E0 : Qof 0%float == inject_Z 0) by reflexivity.
  destruct (addZ_exact _ _ 0 (3600 * H) F0 F1 E0 E1 ltac:(lia)) as [F2 E2].
  destruct (mulZ_exact _ _ 60 M F60 Fm' E60 Em' ltac:(lia)) as [F3 E3].
  destruct (addZ_exact _ _ _ _ F2 F3 E2 E3 ltac:(lia)) as [F4 E4].
  destruct (addZ_exact _ _ _ _ F4 Fs' E4 Es' ltac:(lia)) as [F5 E5].
  replace (0 + 3600 * H + 60 * M + S)%Z with (3600 * H + 60 * M + S)%Z in E5 by lia.
  set (I := (3600 * H + 60 * M + S)%Z) in *.
  (* the last addition *)
  assert (E32 : pow2 32 == 4294967296) by reflexivity.
  assert (E32' : pow2 (32 - 54) == 1 # 4194304) by reflexivity.
  assert (E21 : pow2 (-21) == 1 # 2097152) by reflexivity.
  destruct (Qof_add _ _ F5 Fb) as [F6 R6].
  { rewrite E5. apply Qabs_Qlt_condition.
    pose proof (pow2_le 32 1000 ltac:(lia)). lra. }
  eapply rounds_compat in R6; [ | rewrite E5; reflexivity | reflexivity].
  destruct (rounds_bound _ _ 32 R6 ltac:(lia)) as [L6 U6]; [lra | lra | ].
  split; [exact F6 | ].
  apply Qabs_Qle_condition. split; lra.
Qed.

End Decompose.

(** The numbers [v] with [0 <= v < 2^31]. *)
Lemma below_2_31 : forall v : float,
  (0 <=? v)%float = true -> (v <? 2147483648)%float = true ->
  finite v = true /\ 0 <= Qof v /\ Qof v < pow2 31.
Proof.
  intros v Hge Hlt. rewrite leb_spec in Hge. rewrite ltb_spec in Hlt.
  unfold finite, Qof. pose proof (Prim2SF_valid v) as Vv.
  change (Prim2SF 0%float) with (S754_zero false) in Hge.
  change (Prim2SF 2147483648%float)
    with (S754_finite false 4503599627370496 (-21)) in Hlt.
  assert (E31 : pow2 31 == 2147483648) by reflexivity.
  destruct (Prim2SF v) as [s|s| |s m e].
  - split; [reflexivity | ]. rewrite Qval_zero. lra.
  - exfalso. destruct s; [discriminate Hge | discriminate Hlt].
  - discriminate Hge.
  - destruct s; [discriminate Hge | ].
    destruct (valid_finite false m e Vv) as (Dm & He & _).
    destruct (Zdigits2_bounds (Zpos m) ltac:(lia)) as [[_ Hhi] _].
    assert (Hm : (Zpos m < 2 ^ 53)%Z).
    { assert (2 ^ Zdigits2 (Zpos m) <= 2 ^ 53)%Z by (apply Z.pow_le_mono_r; lia). lia. }
    pose proof (Qmag_pos_finite false m e) as Pm. cbn [Qmag] in Pm.
    pose proof (pow2_pos e) as Pe.
    split; [reflexivity | ]. rewrite Qval_finite. split; [lra | ].
    unfold SFltb, SFcompare in Hlt.
    destruct (e ?= -21)%Z eqn:C; try discriminate Hlt.
    + apply Z.compare_eq in C. subst e.
      rewrite Pos.compare_cont_spec in Hlt.
      destruct (m ?= 4503599627370496)%positive eqn:Cm; try discriminate Hlt.
      rewrite Pos.compare_lt_iff in Cm.
      assert (Hz : (Zpos m < 4503599627370496)%Z) by exact Cm.
      rewrite Zlt_Qlt in Hz.
      assert (E21 : pow2 (-21) == 1 # 2097152) by reflexivity.
      assert (E52 : inject_Z 4503599627370496 == 4503599627370496) by reflexivity.
      rewrite E21. lra.
    + rewrite Z.compare_lt_iff in C.
      assert (Hm' : inject_Z (Zpos m) < inject_Z (2 ^ 53)) by (rewrite <- Zlt_Qlt; exact Hm).
      rewrite <- pow2_inject in Hm' by lia.
      assert (inject_Z (Zpos m) * pow2 e < pow2 53 * pow2 e)
        by (apply Qmult_lt_compat_r; assumption).
      rewrite <- pow2_add in H.
      pose proof (pow2_le (53 + e) 31 ltac:(lia)). lra.
Qed.

End Binary64Rounding.

(* ================================================================== *)
(** ** The numeric helpers: decomposition and recomposition *)
(* ================================================================== *)

(** C1, counterexample.  The total of hours is not the quotient [v / 3600]:
    at [v = 5] the two divisions by 60 give 0.0013888888888888887 and the
    single division gives 0.001388888888888889. *)
Lemma getComputedTime_totalHours_not_quotient :
  totalHours (getComputedTime 5) <> 5 / 3600.
Proof. apply float_neq. vm_compute. reflexivity. Qed.

(** C1, amended.  For every number [v], [getComputedTime v] has
    [totalSeconds = v], [totalMinutes = v / 60],
    [totalHours = (v / 60) / 60] (two binary64 divisions),
    [totalMilliseconds = v / 1000], [hours = floor totalHours],
    [minutes = floor ((totalHours - hours) * 60)],
    [seconds = floor (totalSeconds - hours * 60 * 60 - minutes * 60)],
    [milliseconds] is 1000 times the remaining fraction rounded to three
    decimals, and [ms] equals [milliseconds]; on 22290.23 the breakdown is
    the one the test suite expects. *)
Theorem getComputedTime_fields : forall v : float,
  let c := getComputedTime v in
  totalSeconds c = v /\
  totalMinutes c = v / 60 /\
  totalHours c = v / 60 / 60 /\
  totalMilliseconds c = v / 1000 /\
  hours c = JS.Math_floor (totalHours c) /\
  minutes c = JS.Math_floor ((totalHours c - hours c) * 60) /\
  seconds c =
    JS.Math_floor (totalSeconds c - hours c * 60 * 60 - minutes c * 60) /\
  milliseconds c =
    1000 * round3 (totalSeconds c - hours c * 60 * 60 - minutes c * 60
                   - seconds c) /\
  ms c = milliseconds c /\
  getComputedTime 22290.23 =
    {| totalMilliseconds := 22.29023; totalSeconds := 22290.23;
       totalMinutes := 371.5038333333333; totalHours := 6.191730555555555;
       milliseconds := 230; seconds := 30; minutes := 11; hours := 6;
       ms := 230 |}.
Proof.
  intros v. repeat split.
Qed.

(** C5, counterexample.  With both [milliseconds] and [ms] given, it is [ms]
    that counts: [{ milliseconds: 500, ms: 250 }] gives 0.25, not 0.5. *)
Lemma getComputedSeconds_ms_wins :
  let opts := Obj None None None None (Some 500) (Some 250) None None in
  getComputedSeconds opts = 250 / 1000 /\
  getComputedSeconds opts <> 500 / 1000.
Proof.
  split; [reflexivity | apply float_neq; reflexivity].
Qed.

(** C5, amended.  [getComputedSeconds] returns, starting from 0,
    [hours * 3600 + minutes * 60 + seconds + (ms || 0) / 1000], a missing
    (or falsy) field counting as 0, where [ms] is the [ms] field when it is
    given and the [milliseconds] field only when [ms] is absent. *)
Theorem getComputedSeconds_sum : forall opts : jsobj,
  let ms_used := match obj_ms opts with
                 | Some x => Some x
                 | None => obj_milliseconds opts
                 end in
  getComputedSeconds opts =
    0 + or_zero (obj_hours opts) * 3600 + or_zero (obj_minutes opts) * 60
      + or_zero (obj_seconds opts) + or_zero ms_used / 1000
  /\ or_zero None = 0
  /\ (forall x, obj_ms opts = Some x -> ms_used = Some x)
  /\ (obj_ms opts = None -> ms_used = obj_milliseconds opts).
Proof.
  intros opts ms_used. split; [ | split; [reflexivity | split]].
  - unfold getComputedSeconds. fold ms_used.
    change (60 * 60) with 3600.
    rewrite (mul_comm 3600), (mul_comm 60). reflexivity.
  - intros x H. unfold ms_used. rewrite H. reflexivity.
  - intros H. unfold ms_used. rewrite H. reflexivity.
Qed.

Lemma getComputedSeconds_sum_witness :
  let opts := Obj None (Some 3) (Some 30) (Some 45) (Some 320) None None None in
  obj_ms opts = None /\
  getComputedSeconds opts = 0 + 3 * 3600 + 30 * 60 + 45 + 320 / 1000.
Proof.
  split; [reflexivity | ].
  exact (proj1 (getComputedSeconds_sum
                  (Obj None (Some 3) (Some 30) (Some 45) (Some 320) None
                       None None))).
Defined.

(** C6, counterexample.  At the largest finite number, [hours * 60 * 60]
    overflows: [seconds] is minus infinity, [milliseconds] is [NaN], and
    recomposing gives [NaN]. *)
Lemma round_trip_fails_at_max :
  let v := 1.7976931348623157e308 in
  PrimFloat.is_finite v = true /\ (0 <=? v) = true /\
  seconds (getComputedTime v) = neg_infinity /\
  JS.isNaN (recompose_decompose v) = true.
Proof. vm_compute. repeat split. Qed.

Section RoundTrip.

Import QArith Qround Qabs.


(** C6, amended.  For every number [v] with [0 <= v < 2^31], in binary64:
    recomposing the decomposition of [v] gives a finite number whose exact
    value is within [0.0005 + 2^-21] of that of [v] (0.0005 for the
    rounding of the fraction of a second to three decimals, the rest for
    the rounding of the last addition). *)
Theorem round_trip_within_rounding : forall v : float,
  (0 <=? v)%float = true -> (v <? 2147483648)%float = true ->
  let back := recompose_decompose v in
  finite back = true /\
  (Qabs (Qof back - Qof v) <= (1 # 2000) + (1 # 2097152))%Q.
Proof.
  intros v Hge Hlt back.
  destruct (below_2_31 v Hge Hlt) as (Fv & H0 & H31).
  exact (round_trip_close v Fv H0 H31).
Qed.

Lemma round_trip_within_rounding_witness :
  (0 <=? 22290.23)%float = true /\ (22290.23 <? 2147483648)%float = true /\
  finite (recompose_decompose 22290.23) = true /\
  (Qabs (Qof (recompose_decompose 22290.23) - Qof 22290.23)
   <= (1 # 2000) + (1 # 2097152))%Q.
Proof.
  split; [reflexivity | split; [reflexivity | ]].
  apply (round_trip_within_rounding 22290.23); reflexivity.
Defined.



End RoundTrip.

(* ================================================================== *)
(** ** Time *)
(* ================================================================== *)

(** C9.  [toString] with no format is [toString('hh:mm:ss')]; a Now time
    prints as "now" and an Invalid one as the empty string, whatever the
    format; for a Numeric time the tokens are replaced from the breakdown:
    [hh] and [mm] by the hours and minutes padded with zeros to two
    characters, [ss] by the padded seconds followed by the fraction when the
    milliseconds are above 0 (and by nothing more when they are 0), [H], [M]
    and [S] by the totals as they print; so [1.23] prints as "01.23" under
    [ss] and [21930] as "06:05:30". *)
Theorem Time_toString_formats : forall t : Time,
  Time_toString t None = Time_toString t (Some "hh:mm:ss") /\
  (isNow t = true -> forall format, Time_toString t format = "now") /\
  (isValid t = false -> forall format, Time_toString t format = "") /\
  (isNow t = false -> isValid t = true ->
   let c := getComputedTime (value t) in
   Time_toString t (Some "hh:mm:ss") =
     pad 2 (hours c) ++ ":" ++ pad 2 (minutes c) ++ ":"
       ++ pad 2 (seconds c) ++ fraction_suffix c /\
   Time_toString t (Some "hh") = pad 2 (hours c) /\
   Time_toString t (Some "mm") = pad 2 (minutes c) /\
   Time_toString t (Some "ss") = pad 2 (seconds c) ++ fraction_suffix c /\
   Time_toString t (Some "H") = JS.Number_toString (totalHours c) /\
   Time_toString t (Some "M") = JS.Number_toString (totalMinutes c) /\
   Time_toString t (Some "S") = JS.Number_toString (totalSeconds c)) /\
  (forall c, (0 <? milliseconds c) = true -> ms c = milliseconds c ->
     fraction_suffix c =
       "." ++ JS.slice_from 2 (JS.Number_toString (milliseconds c / 1000))) /\
  (forall c, ms c = 0 -> fraction_suffix c = "") /\
  (forall n x, pad n x =
     JS.zeros (n - String.length (JS.Number_toString x))
       ++ JS.Number_toString x) /\
  Time_toString (new_Time 1.23) (Some "ss") = "01.23" /\
  Time_toString (new_Time 21930) (Some "hh:mm:ss") = "06:05:30".
Proof.
  intros t.
  split; [reflexivity | ].
  split.
  { intros Hnow format. unfold Time_toString. unfold isNow, NOW in Hnow.
    rewrite Hnow. reflexivity. }
  split.
  { intros Hinv format. unfold Time_toString, Time_computed.
    unfold isValid in Hinv.
    destruct (JS.isNaN (value t)) eqn:Hnan; [ | discriminate].
    rewrite (nan_eqb_r _ _ Hnan). reflexivity. }
  split.
  { intros Hnow Hvalid c. subst c.
    rewrite !Time_toString_numeric by assumption.
    cbv beta iota delta [String.eqb].
    rewrite format_default, format_hh, format_mm, format_ss, format_H,
      format_M, format_S.
    repeat split. }
  split.
  { intros c Hpos Hms. unfold fraction_suffix. rewrite Hms.
    rewrite (positive_truthy _ Hpos). reflexivity. }
  split.
  { intros c Hz. unfold fraction_suffix. rewrite Hz. reflexivity. }
  split; [reflexivity | ].
  split; vm_compute; reflexivity.
Qed.

Lemma Time_toString_formats_witness :
  let t := new_Time 22290.23 in
  isNow t = false /\ isValid t = true /\
  Time_toString t (Some "hh:mm:ss") = "06:11:30.23".
Proof.
  split; [reflexivity | split; [reflexivity | ]].
  destruct (Time_toString_formats (new_Time 22290.23))
    as (_ & _ & _ & H & _).
  destruct (H eq_refl eq_refl) as (E & _).
  rewrite E. vm_compute. reflexivity.
Defined.

(** C10.  [Time.from(-1)] is the Now time that [Time.from('now')] returns:
    [isNow] holds and it prints as "now" under every format; every other
    number below zero gives a time with that value, valid and not Now. *)
Theorem now_is_minus_one : forall npt_parse : string -> option float,
  Time_from npt_parse (JNum (-1)) = Normal (new_Time NOW) /\
  Time_from npt_parse (JNum (-1)) = Time_from npt_parse (JStr "now") /\
  isNow (new_Time (-1)) = true /\
  (forall format, Time_toString (new_Time (-1)) format = "now") /\
  (forall x, (x <? 0) = true -> (x =? -1) = false ->
     Time_from npt_parse (JNum x) = Normal (new_Time x) /\
     isNow (new_Time x) = false /\ isValid (new_Time x) = true).
Proof.
  intros npt_parse.
  split; [reflexivity | ]. split; [reflexivity | ]. split; [reflexivity | ].
  split.
  - intros [f|]; reflexivity.
  - intros x Hneg Hother.
    pose proof (ltb_not_nan_l _ _ Hneg) as Hnan.
    split; [ | split].
    + unfold Time_from, JS.isNaN. rewrite Hnan. reflexivity.
    + unfold isNow, NOW. simpl. rewrite float_eqb_sym. exact Hother.
    + unfold isValid, JS.isNaN. simpl. rewrite Hnan. reflexivity.
Qed.

Lemma now_is_minus_one_witness :
  (-2.5 <? 0) = true /\ (-2.5 =? -1) = false /\
  Time_from (fun _ => None) (JNum (-2.5)) = Normal (new_Time (-2.5)) /\
  isNow (new_Time (-2.5)) = false /\ isValid (new_Time (-2.5)) = true.
Proof.
  split; [reflexivity | split; [reflexivity | ]].
  destruct (now_is_minus_one (fun _ => None)) as (_ & _ & _ & _ & H).
  exact (H (-2.5) eq_refl eq_refl).
Defined.

(** C8, the failing input.  [Time.from(true)], [Range.from(true)] and
    [Range.from(30, true)] throw a [TypeError] (the [in] operator is applied
    to a boolean); [true] is the only value of the model for which
    [Time.from] throws, and [undefined], [null] and an empty array give the
    Invalid time. *)
Theorem from_throws_on_true : forall npt_parse : string -> option float,
  Time_from npt_parse (JBool true) = Throw TypeError /\
  Range_from npt_parse [JBool true] = Throw TypeError /\
  Range_from npt_parse [JNum 30; JBool true] = Throw TypeError /\
  (forall arg, Time_from npt_parse arg = Throw TypeError <-> arg = JBool true) /\
  Time_from npt_parse JUndefined = Normal (new_Time nan) /\
  Time_from npt_parse JNull = Normal (new_Time nan) /\
  Time_from npt_parse (JArr []) = Normal (new_Time nan) /\
  isValid (new_Time nan) = false /\
  Time_toString (new_Time nan) None = "".
Proof.
  intros npt_parse. split; [reflexivity | ]. split; [reflexivity | ].
  split; [reflexivity | ].
  split; [ | repeat split].
  intros arg. rewrite Time_from_throws. split.
  - intros [H _]. exact H.
  - intros H. split; [exact H | reflexivity].
Qed.

(* ================================================================== *)
(** ** Range and Timecode *)
(* ================================================================== *)

(** C3, the failing input.  [set(30.423, 29.987)] on an empty range leaves
    the stop at 29.987, below the start and still valid: the call
    [this.stop.set(Number.NaN)] is ignored by [Time.set], so that [Range.set]
    is the two calls of [Time.set] and nothing more.  The stop is only left
    out of the string, which is "00:00:30.423-". *)
Theorem Range_set_leaves_stop_valid :
  forall npt_parse : string -> option float,
  let r0 := {| start := new_Time nan; stop := new_Time nan |} in
  let r1 := {| start := new_Time 30.423; stop := new_Time 29.987 |} in
  Range_set npt_parse r0 (JNum 30.423) (JNum 29.987) = Normal r1 /\
  (value (stop r1) <? value (start r1)) = true /\
  isValid (stop r1) = true /\
  Range_toString r1 None = "00:00:30.423-" /\
  (forall r a b,
     Range_set npt_parse r a b =
       (start' <- Time_set npt_parse (start r) a ;;
        if truthy b then
          stop' <- Time_set npt_parse (stop r) b ;;
          Normal {| start := start'; stop := stop' |}
        else Normal {| start := start'; stop := stop r |})).
Proof.
  intros npt_parse r0 r1.
  split; [reflexivity | ]. split; [reflexivity | ]. split; [reflexivity | ].
  split; [vm_compute; reflexivity | ].
  apply Range_set_unfold.
Qed.

(** C4.  An end set to now (the string "now" or the number -1) holds the
    sentinel whatever the other end is given: after [set(now, other)] the
    start is Now, after [set(other, now)] the stop is Now, and the same at
    construction; the call throws only when [Time.set] throws on the other
    argument.  A stop that [set] was given is never invalidated afterwards,
    and a stop that was not given is left as it was; [Range.from(30, 'now')]
    has a Now stop. *)
Theorem now_end_is_kept :
  forall (npt_parse : string -> option float) (r : Range)
         (now_arg other : jsval),
  now_arg = JStr "now" \/ now_arg = JNum NOW ->
  match Range_set npt_parse r now_arg other with
  | Normal r' => value (start r') = NOW /\ isNow (start r') = true
  | Throw e => Time_set npt_parse (stop r) other = Throw e
  end /\
  match Range_set npt_parse r other now_arg with
  | Normal r' => value (stop r') = NOW /\ isNow (stop r') = true
  | Throw e => Time_set npt_parse (start r) other = Throw e
  end /\
  match new_Range npt_parse now_arg other with
  | Normal r' => isNow (start r') = true
  | Throw e => Time_set npt_parse (new_Time nan) other = Throw e
  end /\
  match new_Range npt_parse other now_arg with
  | Normal r' => isNow (stop r') = true
  | Throw e => Time_set npt_parse (new_Time nan) other = Throw e
  end /\
  (forall a b r', Range_set npt_parse r a b = Normal r' ->
     if truthy b then Time_set npt_parse (stop r) b = Normal (stop r')
     else stop r' = stop r) /\
  Range_from npt_parse [JNum 30; JStr "now"] =
    Normal {| start := new_Time 30; stop := new_Time NOW |} /\
  Range_from npt_parse [JStr "now-"] =
    Normal {| start := new_Time NOW; stop := new_Time nan |}.
Proof.
  intros npt_parse r now_arg other Hnow.
  assert (Hset : forall t, Time_set npt_parse t now_arg = Normal (new_Time NOW))
    by (intros t; destruct Hnow as [-> | ->]; reflexivity).
  assert (Htruthy : truthy now_arg = true)
    by (destruct Hnow as [-> | ->]; reflexivity).
  assert (Hstart : forall r0,
    match Range_set npt_parse r0 now_arg other with
    | Normal r' => value (start r') = NOW /\ isNow (start r') = true
    | Throw e => Time_set npt_parse (stop r0) other = Throw e
    end).
  { intros r0. rewrite Range_set_unfold, Hset. cbn [bind].
    destruct (truthy other); [ | split; reflexivity].
    destruct (Time_set npt_parse (stop r0) other); cbn [bind];
      [split; reflexivity | reflexivity]. }
  assert (Hstop : forall r0,
    match Range_set npt_parse r0 other now_arg with
    | Normal r' => value (stop r') = NOW /\ isNow (stop r') = true
    | Throw e => Time_set npt_parse (start r0) other = Throw e
    end).
  { intros r0. rewrite Range_set_unfold.
    destruct (Time_set npt_parse (start r0) other); cbn [bind];
      [ | reflexivity].
    rewrite Htruthy, Hset. cbn [bind]. split; reflexivity. }
  split; [apply Hstart | ]. split; [apply Hstop | ].
  split.
  { rewrite new_Range_unfold.
    specialize (Hstart {| start := new_Time nan; stop := new_Time nan |}).
    destruct (Range_set npt_parse _ now_arg other);
      [apply Hstart | exact Hstart]. }
  split.
  { rewrite new_Range_unfold.
    specialize (Hstop {| start := new_Time nan; stop := new_Time nan |}).
    destruct (Range_set npt_parse _ other now_arg);
      [apply Hstop | exact Hstop]. }
  split; [ | split; reflexivity].
  intros a b r'. rewrite Range_set_unfold.
  destruct (Time_set npt_parse (start r) a) as [start'|e]; cbn [bind];
    [ | discriminate].
  destruct (truthy b).
  - destruct (Time_set npt_parse (stop r) b) as [stop'|e]; cbn [bind];
      [ | discriminate].
    intros H. injection H as <-. reflexivity.
  - intros H. injection H as <-. reflexivity.
Qed.

Lemma now_end_is_kept_witness :
  let r := {| start := new_Time 5; stop := new_Time 7 |} in
  Range_set (fun _ => None) r (JNum 30) (JStr "now") =
    Normal {| start := new_Time 30; stop := new_Time NOW |} /\
  isNow (new_Time NOW) = true.
Proof.
  split; [reflexivity | ].
  pose proof (now_end_is_kept (fun _ => None)
                {| start := new_Time 5; stop := new_Time 7 |}
                (JStr "now") (JNum 30) (or_introl eq_refl)) as (_ & H & _).
  exact (proj2 H).
Defined.

(** C7, counterexample.  With start 30.423 and stop 29.987 both ends are
    rendered and the stop is below the start: the result is "start-", where
    the cascade read with "only" gives the empty string. *)
Lemma Range_toString_start_with_stop_rendered :
  let r := {| start := new_Time 30.423; stop := new_Time 29.987 |} in
  Time_toString (start r) None = "00:00:30.423" /\
  Time_toString (stop r) None = "00:00:29.987" /\
  (value (start r) <=? value (stop r)) = false /\
  Range_toString r None = "00:00:30.423-" /\
  Range_toString_only r None = "" /\
  Range_toString r None <> Range_toString_only r None.
Proof. vm_compute. repeat split. discriminate. Qed.

(** C7, amended.  [Range.toString(format)] renders each end with
    [Time.toString]; when both strings are non-empty and the stop is at
    least the start it returns "start-stop"; otherwise, when the start
    string is non-empty (whether the stop string is or not), "start-";
    otherwise, when the stop string is non-empty, "-stop"; otherwise the
    empty string.  An empty range prints as the empty string, a range with
    one end at now as "now-" or "-now", a full range as both ends, and
    a numeric start with a stop at now as the start alone. *)
Theorem Range_toString_cases : forall (r : Range) (format : option string),
  let s := Time_toString (start r) format in
  let e := Time_toString (stop r) format in
  Range_toString r format =
    (if nonempty s && nonempty e && (value (start r) <=? value (stop r))
     then s ++ "-" ++ e
     else if nonempty s then s ++ "-"
     else if nonempty e then "-" ++ e
     else "") /\
  Range_toString {| start := new_Time nan; stop := new_Time nan |} None
    = "" /\
  Range_toString {| start := new_Time NOW; stop := new_Time nan |} None
    = "now-" /\
  Range_toString {| start := new_Time nan; stop := new_Time NOW |} None
    = "-now" /\
  Range_toString {| start := new_Time 30.456; stop := new_Time 60.789 |} None
    = "00:00:30.456-00:01:00.789" /\
  Range_toString {| start := new_Time 30; stop := new_Time NOW |} None
    = "00:00:30-".
Proof.
  intros r format. split; [reflexivity | ].
  vm_compute. repeat split.
Qed.

(** C2.  [valueOf] of a timecode: the sentinel when the start is Now; else
    the sentinel when the start value is falsy (unset or zero) and the stop
    is Now; else [stop - start] when the start is below the stop; else the
    value of the start (a start of [-0] comes back as [0]).
    [Timecode.from(30, 90)] gives 60 and [Timecode.from('now-')] gives
    -1. *)
Theorem Timecode_valueOf_cases :
  forall (npt_parse : string -> option float) (tc : Timecode),
  (isNow (start tc) = true -> Timecode_valueOf tc = NOW) /\
  (isNow (start tc) = false ->
   JS.truthy_number (value (start tc)) = false -> isNow (stop tc) = true ->
   Timecode_valueOf tc = NOW) /\
  (isNow (start tc) = false ->
   JS.truthy_number (value (start tc)) = true \/ isNow (stop tc) = false ->
   (value (start tc) <? value (stop tc)) = true ->
   Timecode_valueOf tc = value (stop tc) - value (start tc)) /\
  (isNow (start tc) = false ->
   JS.truthy_number (value (start tc)) = true \/ isNow (stop tc) = false ->
   (value (start tc) <? value (stop tc)) = false ->
   Timecode_valueOf tc = value (start tc)
   \/ (value (start tc) = (-0) /\ Timecode_valueOf tc = 0)) /\
  (exists tc1, Timecode_from npt_parse [JNum 30; JNum 90] = Normal tc1
               /\ Timecode_valueOf tc1 = 60) /\
  (exists tc2, Timecode_from npt_parse [JStr "now-"] = Normal tc2
               /\ Timecode_valueOf tc2 = -1).
Proof.
  intros npt_parse tc. unfold Timecode_valueOf, Time_valueOf.
  split; [ | split; [ | split; [ | split; [ | split]]]].
  - intros ->. reflexivity.
  - intros -> -> ->. reflexivity.
  - intros -> H ->.
    destruct H as [-> | ->]; simpl; rewrite ?andb_false_r; reflexivity.
  - intros -> H ->.
    assert (E : negb (JS.truthy_number (value (start tc)))
                && isNow (stop tc) = false)
      by (destruct H as [-> | ->]; simpl; rewrite ?andb_false_r;
          reflexivity).
    rewrite E.
    destruct (float_eq_dec (value (start tc)) (-0)) as [Z | NZ].
    + right. rewrite Z. split; reflexivity.
    + left. apply zero_add. exact NZ.
  - eexists. split; reflexivity.
  - eexists. split; reflexivity.
Qed.

Lemma Timecode_valueOf_cases_witness :
  let tc := {| start := new_Time 30; stop := new_Time 90 |} in
  isNow (start tc) = false /\
  (value (start tc) <? value (stop tc)) = true /\
  Timecode_valueOf tc = 90 - 30.
Proof.
  split; [reflexivity | split; [reflexivity | ]].
  destruct (Timecode_valueOf_cases (fun _ => None)
              {| start := new_Time 30; stop := new_Time 90 |})
    as (_ & _ & H & _).
  exact (H eq_refl (or_introl eq_refl) eq_refl).
Defined.

(* ================================================================== *)
(** ** Further properties *)
(* ================================================================== *)



(** A string that [npt.parse] maps to 0 milliseconds gives an Invalid time:
    the result of the parse is tested for truthiness. *)
Theorem Time_from_zero_string :
  forall (npt_parse : string -> option float) (s : string),
  s <> "now" -> npt_parse s = Some 0 ->
  Time_from npt_parse (JStr s) = Normal (new_Time nan).
Proof.
  intros npt_parse s Hnow Hparse. unfold Time_from.
  apply String.eqb_neq in Hnow. rewrite Hnow, Hparse. reflexivity.
Qed.

Lemma Time_from_zero_string_witness :
  Time_from test_parse (JStr "00:00") = Normal (new_Time nan).
Proof.
  apply Time_from_zero_string; [discriminate | reflexivity].
Defined.

(** In binary64, every whole number of seconds below one hour, and every
    whole number of minutes below one day, is given back exactly by
    recomposing its decomposition. *)
Theorem whole_seconds_round_trip : forall k : Z,
  ((0 <= k < 3600)%Z ->
   recompose_decompose (JS.number_of_Z k) = JS.number_of_Z k) /\
  ((0 <= k < 1440)%Z ->
   recompose_decompose (JS.number_of_Z (60 * k)) = JS.number_of_Z (60 * k)).
Proof.
  intros k. split; intros Hk; apply FloatAxioms.Leibniz.eqb_spec.
  - apply (all_from_spec (Z.to_nat 3600) 0
             (fun k => PrimFloat.Leibniz.eqb
                         (recompose_decompose (JS.number_of_Z k))
                         (JS.number_of_Z k))).
    + vm_compute. reflexivity.
    + rewrite Z2Nat.id by lia. lia.
  - apply (all_from_spec (Z.to_nat 1440) 0
             (fun k => PrimFloat.Leibniz.eqb
                         (recompose_decompose (JS.number_of_Z (60 * k)))
                         (JS.number_of_Z (60 * k)))).
    + vm_compute. reflexivity.
    + rewrite Z2Nat.id by lia. lia.
Qed.

Lemma whole_seconds_round_trip_witness :
  recompose_decompose (JS.number_of_Z 2130) = JS.number_of_Z 2130 /\
  recompose_decompose (JS.number_of_Z (60 * 365)) = JS.number_of_Z (60 * 365).
Proof.
  split.
  - apply (proj1 (whole_seconds_round_trip 2130)). lia.
  - apply (proj2 (whole_seconds_round_trip 365)). lia.
Defined.

(* ================================================================== *)
(** ** The assertions of the test suite *)
(* ================================================================== *)






(* ================================================================== *)
(** ** Equality of binary64 numbers *)
(* ================================================================== *)

(** Two numbers equal under [===] are the same number, or are the two
    zeros. *)
Lemma eqb_true_cases : forall x y, (x =? y) = true ->
  x = y \/ ((x =? 0) = true /\ (y =? 0) = true).
Proof.
  intros x y H.
  assert (Hx0 : (x =? 0) = SFeqb (Prim2SF x) (S754_zero false))
    by (rewrite FloatAxioms.eqb_spec; reflexivity).
  assert (Hy0 : (y =? 0) = SFeqb (Prim2SF y) (S754_zero false))
    by (rewrite FloatAxioms.eqb_spec; reflexivity).
  rewrite FloatAxioms.eqb_spec in H. rewrite Hx0, Hy0.
  assert (E : Prim2SF x = Prim2SF y -> x = y) by apply Prim2SF_inj.
  unfold SFeqb, SFcompare in *.
  destruct (Prim2SF x) as [s| s| |s m e], (Prim2SF y) as [s'| s'| |s' m' e'];
    try destruct s; try destruct s'; try discriminate H;
    try (right; split; reflexivity);
    try (left; apply E; reflexivity);
    left; apply E;
    destruct (e ?= e')%Z eqn:Ce; try discriminate H;
    apply Z.compare_eq in Ce; subst e';
    rewrite Pos.compare_cont_spec in H; cbn [Pos.switch_Eq] in H;
    destruct (m ?= m')%positive eqn:Cm; try discriminate H;
    apply Pos.compare_eq in Cm; subst m'; reflexivity.
Qed.

Lemma eqb_refl_not_nan : forall x, JS.isNaN x = false -> (x =? x) = true.
Proof.
  intros x H. unfold JS.isNaN, PrimFloat.is_nan in H.
  apply negb_false_iff in H. exact H.
Qed.

Lemma eqb_trans : forall x y z, (x =? y) = true -> (y =? z) = true -> (x =? z) = true.
Proof.
  intros x y z Hxy Hyz.
  destruct (eqb_true_cases x y Hxy) as [-> | [Hx Hy]]; [exact Hyz | ].
  destruct (eqb_true_cases y z Hyz) as [<- | [_ Hz]]; [exact Hxy | ].
  destruct (eqb_true_cases x 0 Hx) as [-> | [_ _]].
  - rewrite float_eqb_sym. exact Hz.
  - destruct (eqb_true_cases z 0 Hz) as [-> | [_ _]]; [exact Hx | ].
    (* both are zeros *)
    clear Hxy Hyz Hy.
    rewrite FloatAxioms.eqb_spec in *.
    change (Prim2SF 0) with (S754_zero false) in *.
    unfold SFeqb, SFcompare in *.
    destruct (Prim2SF x) as [s| s| |s m e], (Prim2SF z) as [s'| s'| |s' m' e'];
      try destruct s; try destruct s'; try discriminate; reflexivity.
Qed.

Lemma eqb_not_nan_r : forall x y, (x =? y) = true -> JS.isNaN y = false.
Proof.
  intros x y H. destruct (JS.isNaN y) eqn:Hn; [ | reflexivity].
  rewrite (nan_eqb_r y x Hn) in H. discriminate H.
Qed.

Lemma eqb_not_nan_l : forall x y, (x =? y) = true -> JS.isNaN x = false.
Proof.
  intros x y H. rewrite float_eqb_sym in H. exact (eqb_not_nan_r _ _ H).
Qed.


(* ================================================================== *)
(** ** The cache of computed values *)
(* ================================================================== *)

Section CacheFacts.

Lemma same_value_zero_number : forall k key, JS.isNaN key = false ->
  same_value_zero k key = (k =? key).
Proof.
  intros k key H. unfold same_value_zero. rewrite H, andb_false_r, orb_false_r.
  reflexivity.
Qed.

Lemma Map_get_ok : forall cache key c,
  cache_ok cache -> JS.isNaN key = false -> Map_get cache key = Some c ->
  exists k', (k' =? key) = true /\ c = getComputedTime k'.
Proof.
  induction cache as [|[k0 c0] rest IH]; intros key c Hok Hn Hget.
  - discriminate Hget.
  - cbn [Map_get] in Hget. rewrite same_value_zero_number in Hget by exact Hn.
    destruct (k0 =? key) eqn:Hk.
    + injection Hget as <-.
      destruct (Hok k0 c0 (or_introl eq_refl)) as (k' & Hk' & Ec).
      exists k'. split; [exact (eqb_trans _ _ _ Hk' Hk) | exact Ec].
    + apply (IH key c); [ | exact Hn | exact Hget].
      intros k c' Hin. apply Hok. right. exact Hin.
Qed.

Lemma Map_set_ok : forall cache key c k',
  cache_ok cache -> (k' =? key) = true -> c = getComputedTime k' ->
  cache_ok (Map_set cache key c).
Proof.
  induction cache as [|[k0 c0] rest IH]; intros key c k' Hok Hk' Ec.
  - intros k c1 [E | []]. injection E as <- <-.
    exists k'. split; [ | exact Ec].
    unfold PrimFloat.is_zero. change PrimFloat.zero with 0.
    destruct (key =? 0) eqn:Hz; [ | exact Hk'].
    exact (eqb_trans _ _ _ Hk' Hz).
  - assert (Hn : JS.isNaN key = false).
    { exact (eqb_not_nan_r _ _ Hk'). }
    cbn [Map_set]. rewrite same_value_zero_number by exact Hn.
    destruct (k0 =? key) eqn:Hk.
    + intros k c1 [E | Hin].
      * injection E as <- <-. exists k'. split; [ | exact Ec].
        rewrite float_eqb_sym in Hk. exact (eqb_trans _ _ _ Hk' Hk).
      * apply Hok. right. exact Hin.
    + intros k c1 [E | Hin].
      * apply Hok. left. exact E.
      * apply (IH key c k'); [ | exact Hk' | exact Ec | exact Hin].
        intros k2 c2 Hin2. apply Hok. right. exact Hin2.
Qed.

Lemma Map_get_set : forall cache key c, JS.isNaN key = false ->
  Map_get (Map_set cache key c) key = Some c.
Proof.
  induction cache as [|[k0 c0] rest IH]; intros key c Hn.
  - cbn [Map_set Map_get]. rewrite same_value_zero_number by exact Hn.
    unfold PrimFloat.is_zero. change PrimFloat.zero with 0.
    destruct (key =? 0) eqn:Hz.
    + rewrite float_eqb_sym, Hz. reflexivity.
    + rewrite (eqb_refl_not_nan key Hn). reflexivity.
  - cbn [Map_set]. destruct (same_value_zero k0 key) eqn:Hk; cbn [Map_get]; rewrite Hk.
    + reflexivity.
    + apply IH. exact Hn.
Qed.

Lemma Map_set_set : forall cache key c, JS.isNaN key = false ->
  Map_set (Map_set cache key c) key c = Map_set cache key c.
Proof.
  induction cache as [|[k0 c0] rest IH]; intros key c Hn.
  - cbn [Map_set]. rewrite same_value_zero_number by exact Hn.
    unfold PrimFloat.is_zero. change PrimFloat.zero with 0.
    destruct (key =? 0) eqn:Hz.
    + rewrite float_eqb_sym, Hz. reflexivity.
    + rewrite (eqb_refl_not_nan key Hn). reflexivity.
  - cbn [Map_set]. destruct (same_value_zero k0 key) eqn:Hk; cbn [Map_set]; rewrite Hk.
    + reflexivity.
    + rewrite IH by exact Hn. reflexivity.
Qed.

End CacheFacts.

(** The cache of [get computed] keeps its invariant and is not seen, but
    for the sign of a zero: from a cache in which every breakdown is that of
    a number equal to its key (the empty cache of a fresh module is one),
    reading [computed] leaves such a cache; reading again returns the same
    breakdown and changes nothing more; an invalid time gives [null] and
    leaves the cache alone; a valid one gives the breakdown of a number
    equal to its value, which is the breakdown of the value itself unless
    the value is a zero.  Once the breakdown of [0] is in the cache, a time
    of value [-0] reads [totalSeconds] 0, where [getComputedTime(-0)] has
    [-0]. *)
Theorem computed_through_cache : forall (cache : Cache) (t : Time),
  cache_ok cache ->
  let r := fst (Time_computed_in cache t) in
  let cache' := snd (Time_computed_in cache t) in
  cache_ok cache' /\
  Time_computed_in cache' t = (r, cache') /\
  (isValid t = false -> r = None /\ cache' = cache) /\
  (isValid t = true ->
     exists k, (k =? value t) = true /\ r = Some (getComputedTime k)) /\
  (isValid t = true -> (value t =? 0) = false -> r = Time_computed t) /\
  (let warm := snd (Time_computed_in nil (new_Time 0)) in
   fst (Time_get_in warm totalSeconds (new_Time (-0))) = Normal 0 /\
   Time_get totalSeconds (new_Time (-0)) = Normal (-0) /\
   0 <> (-0)).
Proof.
  intros cache t Hok r cache'. subst r cache'.
  unfold Time_computed_in, Time_computed, isValid.
  destruct (JS.isNaN (value t)) eqn:Hn; cbn [fst snd Bool.eqb].
  - repeat split; try discriminate; try exact Hok.
  - assert (Hc : exists k, (k =? value t) = true /\
                   match Map_get cache (value t) with
                   | Some c => c
                   | None => getComputedTime (value t)
                   end = getComputedTime k).
    { destruct (Map_get cache (value t)) as [c|] eqn:Hget.
      - destruct (Map_get_ok cache (value t) c Hok Hn Hget) as (k & Hk & Ec).
        exists k. split; assumption.
      - exists (value t). split; [exact (eqb_refl_not_nan _ Hn) | reflexivity]. }
    destruct Hc as (k & Hk & Ec). rewrite Ec.
    split; [exact (Map_set_ok cache (value t) _ k Hok Hk eq_refl) | ].
    split; [rewrite Map_get_set, Map_set_set by exact Hn; reflexivity | ].
    split; [discriminate | ].
    split; [intros _; exists k; split; [exact Hk | reflexivity] | ].
    split.
    + intros _ Hz. destruct (eqb_true_cases k (value t) Hk) as [-> | [_ Hv]];
        [reflexivity | ]. rewrite Hv in Hz. discriminate Hz.
    + split; [reflexivity | split; [reflexivity | ]].
      apply float_neq. reflexivity.
Qed.

Lemma computed_through_cache_witness :
  cache_ok nil /\
  fst (Time_computed_in nil (new_Time 1.23)) = Time_computed (new_Time 1.23).
Proof.
  assert (Hok : cache_ok nil) by (intros k c []).
  split; [exact Hok | ].
  destruct (computed_through_cache nil (new_Time 1.23) Hok)
    as (_ & _ & _ & _ & H & _).
  apply H; reflexivity.
Defined.


(* ================================================================== *)
(** ** The breakdown of whole seconds *)
(* ================================================================== *)

Section WholeSeconds.

Import QArith Qabs Qround Qpower Lqa.
Local Open Scope Z_scope.
Local Open Scope Q_scope.

(** Finite numbers of the same exact value are equal under [===]. *)
Lemma Qof_eqb : forall x y, finite x = true -> finite y = true ->
  Qof x == Qof y -> (x =? y)%float = true.
Proof.
  intros x y Fx Fy E. rewrite FloatAxioms.eqb_spec. unfold finite, Qof in *.
  pose proof (Prim2SF_valid x) as Vx. pose proof (Prim2SF_valid y) as Vy.
  destruct (Prim2SF x) as [s| s| |s m e], (Prim2SF y) as [s'| s'| |s' m' e'];
    try discriminate.
  - reflexivity.
  - exfalso. rewrite Qval_zero, Qval_finite in E.
    pose proof (Qmag_pos_finite s' m' e') as P. cbn [Qmag] in P.
    destruct s'; lra.
  - exfalso. rewrite Qval_zero, Qval_finite in E.
    pose proof (Qmag_pos_finite s m e) as P. cbn [Qmag] in P.
    destruct s; lra.
  - rewrite !Qval_finite in E.
    pose proof (Qmag_pos_finite s m e) as P. cbn [Qmag] in P.
    pose proof (Qmag_pos_finite s' m' e') as P'. cbn [Qmag] in P'.
    destruct (valid_finite s m e Vx) as (Dm & He & Hc).
    destruct (valid_finite s' m' e' Vy) as (Dm' & He' & Hc').
    destruct (Zdigits2_bounds (Zpos m) ltac:(lia)) as [[Hlo Hhi] Hd].
    destruct (Zdigits2_bounds (Zpos m') ltac:(lia)) as [[Hlo' Hhi'] Hd'].
    set (d := Zdigits2 (Zpos m)) in *. set (d' := Zdigits2 (Zpos m')) in *.
    assert (Em : inject_Z (Zpos m) * pow2 e == inject_Z (Zpos m') * pow2 e').
    { destruct s, s'; lra. }
    assert (Ss : s = s').
    { destruct s, s'; try reflexivity; exfalso; lra. }
    assert (B : forall (k : positive) (c j : Z), (1 <= c)%Z ->
              (2 ^ (c - 1) <= Zpos k < 2 ^ c)%Z ->
              pow2 (c - 1 + j) <= inject_Z (Zpos k) * pow2 j /\
              inject_Z (Zpos k) * pow2 j < pow2 (c + j)).
    { intros k c j Hc1 [L U]. pose proof (pow2_pos j) as Pj.
      rewrite !pow2_add, (pow2_inject (c - 1)), (pow2_inject c) by lia. split.
      - apply Qmult_le_compat_r; [rewrite <- Zle_Qle; exact L | lra].
      - apply Qmult_lt_compat_r; [exact Pj | rewrite <- Zlt_Qlt; exact U]. }
    destruct (B m d e Hd (conj Hlo Hhi)) as [L1 U1].
    destruct (B m' d' e' Hd' (conj Hlo' Hhi')) as [L2 U2].
    assert (H1 : pow2 (d - 1 + e) < pow2 (d' + e')) by lra.
    assert (H2 : pow2 (d' - 1 + e') < pow2 (d + e)) by lra.
    apply pow2_lt_cancel in H1. apply pow2_lt_cancel in H2.
    assert (Ee : e = e') by lia. subst e' s'.
    assert (Emm : inject_Z (Zpos m) == inject_Z (Zpos m')).
    { pose proof (pow2_pos e) as Pe.
      apply (Qmult_inj_r _ _ (pow2 e)); [lra | exact Em]. }
    assert (Hmm : Zpos m = Zpos m') by (apply inject_Z_injective; exact Emm).
    injection Hmm as <-.
    unfold SFeqb, SFcompare. rewrite Z.compare_refl.
    rewrite Pos.compare_cont_refl. destruct s; reflexivity.
Qed.

Lemma Qfloor_unique : forall x z,
  inject_Z z <= x -> x < inject_Z z + 1 -> Qfloor x = z.
Proof.
  intros x z L U. destruct (floor_bounds x) as [L' U'].
  assert (A : inject_Z (Qfloor x) < inject_Z (z + 1))
    by (rewrite inject_Z_plus; change (inject_Z 1) with 1; lra).
  assert (B : inject_Z z < inject_Z (Qfloor x + 1))
    by (rewrite inject_Z_plus; change (inject_Z 1) with 1; lra).
  rewrite <- Zlt_Qlt in A, B. lia.
Qed.

Lemma inject_Z_unit : forall z, 0 <= inject_Z z -> inject_Z z < 1 -> z = 0%Z.
Proof.
  intros z L U. change 0 with (inject_Z 0) in L. change 1 with (inject_Z 1) in U.
  rewrite <- Zle_Qle in L. rewrite <- Zlt_Qlt in U. lia.
Qed.

Section Whole.

Variable n : Z.
Hypothesis Hn : (0 <= n < 2147483648)%Z.

Lemma whole_value :
  finite (JS.number_of_Z n) = true /\ Qof (JS.number_of_Z n) == inject_Z n /\
  0 <= Qof (JS.number_of_Z n) /\ Qof (JS.number_of_Z n) < pow2 31.
Proof.
  destruct (Qof_number_of_Z n) as [F E]; [lia | ].
  split; [exact F | split; [exact E | ]]. rewrite E.
  change 0 with (inject_Z 0). change (pow2 31) with (inject_Z 2147483648).
  rewrite <- Zle_Qle, <- Zlt_Qlt. lia.
Qed.

(** The hours of a whole number of seconds are its quotient by 3600. *)
Lemma whole_hours :
  Qfloor (Qof (totalHours (getComputedTime (JS.number_of_Z n)))) = (n / 3600)%Z.
Proof.
  destruct whole_value as (Fv & Ev & P0 & P31).
  destruct (th_facts _ Fv P0 P31) as (Fth & Pth & Lth & Uth).
  set (v := JS.number_of_Z n) in *.
  change (totalHours (getComputedTime v)) with (v / 60 / 60)%float in *.
  pose proof (Z.div_mod n 3600 ltac:(lia)) as Dn.
  pose proof (Z.mod_pos_bound n 3600 ltac:(lia)) as Rn.
  set (H := (n / 3600)%Z) in *. set (r := (n mod 3600)%Z) in *.
  assert (HH : (0 <= H < 600000)%Z) by (subst H; split;
    [apply Z.div_pos; lia | apply Z.div_lt_upper_bound; lia]).
  assert (En : Qof v == 3600 * inject_Z H + inject_Z r).
  { rewrite Ev, Dn, inject_Z_plus, inject_Z_mult. reflexivity. }
  assert (Pr : 0 <= inject_Z r /\ inject_Z r <= 3599).
  { change 0 with (inject_Z 0). change 3599 with (inject_Z 3599).
    rewrite <- !Zle_Qle. lia. }
  destruct (Z.eq_dec r 0) as [R0 | R1].
  - (* a whole number of hours: both divisions are exact *)
    rewrite R0 in En. change (inject_Z 0) with 0 in En.
    assert (E31' : pow2 31 == 2147483648) by reflexivity.
    destruct (div60 v Fv) as [F1 R1].
    { apply small_lt_pow2; [lia | lra | lra]. }
    assert (E1 : Qof (v / 60)%float == inject_Z (60 * H)).
    { assert (ET : Qof v * (1 # 60) == inject_Z (60 * H)).
      { rewrite En, inject_Z_mult. change (inject_Z 60) with 60. field. }
      rewrite <- ET. apply (rounds_exact _ _ R1).
      apply (repr_compat (inject_Z (60 * H))); [symmetry; exact ET | ].
      apply repr_Z. lia. }
    assert (B1 : 0 <= inject_Z (60 * H) /\ inject_Z (60 * H) < 2147483648).
    { change 0 with (inject_Z 0). change 2147483648 with (inject_Z 2147483648).
      rewrite <- Zle_Qle, <- Zlt_Qlt. lia. }
    destruct (div60 (v / 60)%float F1) as [F2 R2].
    { apply small_lt_pow2; [lia | lra | lra]. }
    assert (E2 : Qof (v / 60 / 60)%float == inject_Z H).
    { assert (ET : Qof (v / 60)%float * (1 # 60) == inject_Z H).
      { rewrite E1, inject_Z_mult. change (inject_Z 60) with 60. field. }
      rewrite <- ET. apply (rounds_exact _ _ R2).
      apply (repr_compat (inject_Z H)); [symmetry; exact ET | ].
      apply repr_Z. lia. }
    rewrite E2. apply Qfloor_Z.
  - apply Qfloor_unique.
    + assert (1 <= inject_Z r)
        by (change 1 with (inject_Z 1); rewrite <- Zle_Qle; lia).
      lra.
    + lra.
Qed.

(** The minutes are not above those of the exact breakdown. *)
Lemma whole_minutes_upper :
  let c := getComputedTime (JS.number_of_Z n) in
  Qof (minutes c) <= inject_Z ((n mod 3600) / 60).
Proof.
  intros c.
  destruct whole_value as (Fv & Ev & P0 & P31).
  destruct (th_facts _ Fv P0 P31) as (Fth & Pth & Lth & Uth).
  pose proof whole_hours as EH.
  set (v := JS.number_of_Z n) in *.
  set (th := (v / 60 / 60)%float).
  set (h := JS.Math_floor th).
  change (totalHours (getComputedTime v)) with th in *.
  change (minutes c) with (JS.Math_floor ((th - h) * 60)%float). clear c.
  pose proof (Z.div_mod n 3600 ltac:(lia)) as Dn.
  pose proof (Z.mod_pos_bound n 3600 ltac:(lia)) as Rn.
  set (H := (n / 3600)%Z) in *. set (r := (n mod 3600)%Z) in *.
  pose proof (Z.div_mod r 60 ltac:(lia)) as Dr.
  pose proof (Z.mod_pos_bound r 60 ltac:(lia)) as Rr.
  set (M0 := (r / 60)%Z) in *. set (S0 := (r mod 60)%Z) in *.
  assert (HH : (0 <= H < 600000)%Z) by (subst H; split;
    [apply Z.div_pos; lia | apply Z.div_lt_upper_bound; lia]).
  assert (En : Qof v == 3600 * inject_Z H + 60 * inject_Z M0 + inject_Z S0).
  { rewrite Ev, Dn, Dr, !inject_Z_plus, !inject_Z_mult.
    change (inject_Z 3600) with 3600. change (inject_Z 60) with 60. ring. }
  assert (PS : 0 <= inject_Z S0 /\ inject_Z S0 <= 59).
  { change 0 with (inject_Z 0). change 59 with (inject_Z 59).
    rewrite <- !Zle_Qle. lia. }
  assert (PH : 0 <= inject_Z H /\ inject_Z H < 600000).
  { change 0 with (inject_Z 0). change 600000 with (inject_Z 600000).
    rewrite <- Zle_Qle, <- Zlt_Qlt. lia. }
  assert (PM : 0 <= inject_Z M0 /\ inject_Z M0 <= 59).
  { change 0 with (inject_Z 0). change 59 with (inject_Z 59).
    rewrite <- !Zle_Qle. subst M0. split;
      [apply Z.div_pos; lia | apply Z.lt_succ_r, Z.div_lt_upper_bound; lia]. }
  assert (E31' : pow2 31 == 2147483648) by reflexivity.
  (* the fraction of an hour *)
  destruct (Qof_floor th Fth) as [Fh Eh]. fold h in Fh, Eh. rewrite EH in Eh.
  destruct (floor_bounds (Qof th)) as [LH UH]. rewrite EH in LH, UH.
  destruct (float_grid th Fth ltac:(lra) ltac:(lra)) as (gt & Hgt & Gth & Lgt & Ugt).
  destruct (sub_grid_exact th h gt Fth Fh Hgt Gth) as [Fu Eu].
  { apply (on_grid_compat gt (inject_Z H)); [symmetry; exact Eh | apply on_grid_Z; lia]. }
  { rewrite Eh. lra. }
  { rewrite Eh. lra. }
  rewrite Eh in Eu.
  (* times 60 *)
  assert (E6 : pow2 6 == 64) by reflexivity.
  assert (E6' : pow2 (6 - 54) == 1 # 281474976710656) by reflexivity.
  destruct (mul60 (th - h)%float Fu) as [Ftm Rtm].
  { apply Qabs_Qlt_condition. pose proof (pow2_le 6 900 ltac:(lia)). lra. }
  destruct (rounds_bound _ _ 6 Rtm ltac:(lia)) as [Ltm Utm]; [lra | lra | ].
  destruct (Qof_floor _ Ftm) as [Fm Em].
  destruct (floor_bounds (Qof ((th - h) * 60)%float)) as [LM UM].
  rewrite Em.
  assert (A : inject_Z (Qfloor (Qof ((th - h) * 60)%float)) < inject_Z (M0 + 1)).
  { rewrite inject_Z_plus. change (inject_Z 1) with 1. lra. }
  rewrite <- Zlt_Qlt in A. rewrite <- Zle_Qle. lia.
Qed.

(** The breakdown of a whole number of seconds. *)
Lemma whole_breakdown :
  let c := getComputedTime (JS.number_of_Z n) in
  exists M S : Z,
    (finite (hours c) = true /\ Qof (hours c) == inject_Z (n / 3600)) /\
    (finite (minutes c) = true /\ Qof (minutes c) == inject_Z M) /\
    (finite (seconds c) = true /\ Qof (seconds c) == inject_Z S) /\
    milliseconds c = 0%float /\
    ((M = (n mod 3600) / 60 /\ S = n mod 60) \/
     (n mod 60 = 0 /\ 1 <= (n mod 3600) / 60 /\
      M = (n mod 3600) / 60 - 1 /\ S = 60))%Z.
Proof.
  intros c.
  destruct whole_value as (Fv & Ev & P0 & P31).
  destruct (decompose_facts _ Fv P0 P31)
    as (H & M & S & [Fh Eh] & [Fm Em] & [Fs Es] & HH & HM & HS & Ff & Ef & Pf & Uf).
  pose proof whole_hours as EH. pose proof whole_minutes_upper as UM.
  cbv zeta in UM. fold c in Fh, Eh, Fm, Em, Fs, Es, Ff, Ef, Pf, Uf, UM.
  (* the hours *)
  destruct (th_facts _ Fv P0 P31) as (Fth & _).
  destruct (Qof_floor _ Fth) as [_ Eh'].
  change (JS.Math_floor (totalHours (getComputedTime (JS.number_of_Z n))))
    with (hours c) in Eh'.
  rewrite EH, Eh in Eh'.
  assert (EHH : H = (n / 3600)%Z) by (apply inject_Z_injective; exact Eh').
  (* nothing is left for the fraction *)
  set (I := (3600 * H + 60 * M + S)%Z) in *.
  assert (EI : I = n).
  { rewrite Ev in Ef. assert (Ed : Qof
      (totalSeconds c - hours c * 60 * 60 - minutes c * 60 - seconds c)%float
      == inject_Z (n - I)).
    { rewrite Ef. unfold Z.sub. rewrite inject_Z_plus, inject_Z_opp. ring. }
    rewrite Ed in Pf, Uf. pose proof (inject_Z_unit _ Pf Uf). lia. }
  assert (E0 : Qof
      (totalSeconds c - hours c * 60 * 60 - minutes c * 60 - seconds c)%float == 0).
  { rewrite Ef, Ev, EI. ring. }
  exists M, S.
  split; [split; [exact Fh | rewrite Eh, EHH; reflexivity] | ].
  split; [split; assumption | ].
  split; [split; assumption | ].
  split.
  - change (milliseconds c) with
      (1000 * JS.parseFloat (JS.Number_toFixed 3
         (totalSeconds c - hours c * 60 * 60 - minutes c * 60 - seconds c)))%float.
    rewrite (toFixed3_unit _ Ff Pf Uf).
    assert (Ez : Qfloor (1000 * Qof
      (totalSeconds c - hours c * 60 * 60 - minutes c * 60 - seconds c)%float
      + (1 # 2)) = 0%Z).
    { apply Qfloor_unique; rewrite E0; change (inject_Z 0) with 0; lra. }
    rewrite Ez. vm_compute. reflexivity.
  - rewrite Em in UM. rewrite <- Zle_Qle in UM.
    pose proof (Z.div_mod n 3600 ltac:(lia)) as Dn.
    pose proof (Z.mod_pos_bound n 3600 ltac:(lia)) as Rn.
    pose proof (Z.div_mod (n mod 3600) 60 ltac:(lia)) as Dr.
    pose proof (Z.mod_pos_bound (n mod 3600) 60 ltac:(lia)) as Rr.
    assert (E60 : (n mod 60 = (n mod 3600) mod 60)%Z).
    { symmetry. apply (Z.mod_unique n 60 (60 * (n / 3600) + (n mod 3600) / 60));
        [lia | lia]. }
    rewrite E60. subst I. lia.
Qed.

End Whole.

Lemma minute_table : all_from 60 0 minute_exact = true.
Proof. vm_compute. reflexivity. Qed.

(** The same in terms of [===]: the hours are [n / 3600], there are no
    milliseconds, and the minutes and seconds are those of [n mod 3600], or
    one minute less and 60 seconds; below one hour, always the first. *)
Lemma whole_breakdown_eqb : forall n : Z, (0 <= n < 2147483648)%Z ->
  let c := getComputedTime (JS.number_of_Z n) in
  let M := ((n mod 3600) / 60)%Z in
  let S := (n mod 60)%Z in
  (hours c =? JS.number_of_Z (n / 3600))%float = true /\
  milliseconds c = 0%float /\
  (((minutes c =? JS.number_of_Z M)%float = true /\
    (seconds c =? JS.number_of_Z S)%float = true) \/
   (S = 0%Z /\ (1 <= M)%Z /\
    (minutes c =? JS.number_of_Z (M - 1))%float = true /\
    (seconds c =? 60)%float = true)) /\
  ((n < 3600)%Z ->
   (minutes c =? JS.number_of_Z M)%float = true /\
   (seconds c =? JS.number_of_Z S)%float = true).
Proof.
  intros n Hn c M S.
  destruct (whole_breakdown n Hn) as (M' & S' & [Fh Eh] & [Fm Em] & [Fs Es] & Ems & D).
  fold c in Fh, Eh, Fm, Em, Fs, Es, Ems. fold M S in D.
  pose proof (Z.mod_pos_bound n 3600 ltac:(lia)) as Rn.
  pose proof (Z.mod_pos_bound n 60 ltac:(lia)) as Rs.
  assert (HM : (0 <= M < 60)%Z).
  { subst M. split; [apply Z.div_pos; lia | apply Z.div_lt_upper_bound; lia]. }
  assert (HH : (0 <= n / 3600 < 600000)%Z).
  { split; [apply Z.div_pos; lia | apply Z.div_lt_upper_bound; lia]. }
  assert (eqZ : forall x z, finite x = true -> (Z.abs z < 2 ^ 53)%Z ->
            Qof x == inject_Z z -> (x =? JS.number_of_Z z)%float = true).
  { intros x z Fx Hz Ex. destruct (Qof_number_of_Z z Hz) as [Fz Ez].
    apply Qof_eqb; [exact Fx | exact Fz | ].
    rewrite Ex, Ez. reflexivity. }
  assert (Dis : ((minutes c =? JS.number_of_Z M)%float = true /\
                 (seconds c =? JS.number_of_Z S)%float = true) \/
                (S = 0%Z /\ (1 <= M)%Z /\
                 (minutes c =? JS.number_of_Z (M - 1))%float = true /\
                 (seconds c =? 60)%float = true)).
  { destruct D as [[-> ->] | (S0 & M1 & -> & ->)].
    - left. split; apply eqZ; try assumption; lia.
    - right. split; [exact S0 | split; [exact M1 | ]].
      split; [apply eqZ; try assumption; lia | ].
      apply (eqZ _ 60%Z); try assumption; lia. }
  split; [apply eqZ; try assumption; lia | ].
  split; [exact Ems | ].
  split; [exact Dis | ].
  intros Hlt. destruct Dis as [Ok | (S0 & M1 & _)]; [exact Ok | ].
  pose proof (all_from_spec 60 0 minute_exact minute_table M ltac:(lia)) as T.
  unfold minute_exact in T. apply andb_prop in T.
  assert (En : (60 * M = n)%Z).
  { pose proof (Z.div_mod n 60 ltac:(lia)) as Dn. subst M.
    rewrite (Z.mod_small n 3600) by lia. fold S in Dn. lia. }
  rewrite En, (Z.mod_small M 60) in T by lia. fold c in T.
  rewrite S0. exact T.
Qed.

End WholeSeconds.

(** For a whole number of seconds [n] below [2^31], the breakdown has
    [n / 3600] hours and no milliseconds, and its minutes and seconds are
    those of the division of [n mod 3600] by 60, or, and only when [n] is a
    whole number of minutes, one minute less and 60 seconds.  Below one hour
    it is always the first.  It is the second at 3660 (one hour and one
    minute), which prints as "01:00:60", and for 623 of the 1440 whole
    minutes of a day. *)
Theorem whole_seconds_breakdown : forall n : Z, (0 <= n < 2147483648)%Z ->
  let c := getComputedTime (JS.number_of_Z n) in
  let M := ((n mod 3600) / 60)%Z in
  let S := (n mod 60)%Z in
  (hours c =? JS.number_of_Z (n / 3600)) = true /\
  milliseconds c = 0 /\
  (((minutes c =? JS.number_of_Z M) = true /\
    (seconds c =? JS.number_of_Z S) = true) \/
   (S = 0%Z /\ (1 <= M)%Z /\
    (minutes c =? JS.number_of_Z (M - 1)) = true /\ (seconds c =? 60) = true)) /\
  ((n < 3600)%Z ->
   (minutes c =? JS.number_of_Z M) = true /\
   (seconds c =? JS.number_of_Z S) = true) /\
  minutes (getComputedTime 3660) = 0 /\
  seconds (getComputedTime 3660) = 60 /\
  Time_toString (new_Time 3660) None = "01:00:60" /\
  count_from 1440 0 (fun k => negb (minute_exact k)) = 623%nat.
Proof.
  intros n Hn c M S.
  destruct (whole_breakdown_eqb n Hn) as (A & B & C & D).
  split; [exact A | split; [exact B | split; [exact C | split; [exact D | ]]]].
  split; [vm_compute; reflexivity | ].
  split; [vm_compute; reflexivity | ].
  split; vm_compute; reflexivity.
Qed.

Lemma whole_seconds_breakdown_witness :
  (0 <= 21930 < 2147483648)%Z /\
  (hours (getComputedTime (JS.number_of_Z 21930)) =? JS.number_of_Z 6) = true.
Proof.
  split; [lia | ].
  exact (proj1 (whole_seconds_breakdown 21930 ltac:(lia))).
Defined.


(* ================================================================== *)
(** ** Invalid times and the empty string *)
(* ================================================================== *)

Lemma app_nonempty_r : forall a b : string, b <> "" -> a ++ b <> "".
Proof. intros [|c a] b H; [exact H | discriminate]. Qed.

Lemma app_nonempty_l : forall a b : string, a <> "" -> a ++ b <> "".
Proof. intros [|c a] b H; [contradiction | discriminate]. Qed.

Lemma string_eqb_empty : forall s : string, (s =? "")%string = false <-> s <> "".
Proof.
  intros s. rewrite <- String.eqb_eq. destruct (s =? "")%string; split;
    congruence.
Qed.

(** Under the default format, a time that is not Invalid never prints as the
    empty string. *)
Lemma default_string_nonempty : forall t,
  isValid t = true -> Time_toString t None <> "".
Proof.
  intros t Hv. destruct (isNow t) eqn:Hnow.
  - unfold Time_toString. unfold isNow, NOW in Hnow. rewrite Hnow. discriminate.
  - change (Time_toString t None) with (Time_toString t (Some "hh:mm:ss")).
    rewrite Time_toString_numeric by assumption.
    cbv beta iota delta [String.eqb]. rewrite format_default.
    apply app_nonempty_r. discriminate.
Qed.

Lemma invalid_string_empty : forall t format,
  isValid t = false -> Time_toString t format = "".
Proof.
  intros t format Hinv. unfold Time_toString, Time_computed.
  unfold isValid in Hinv.
  destruct (JS.isNaN (value t)) eqn:Hnan; [ | discriminate].
  rewrite (nan_eqb_r _ _ Hnan). reflexivity.
Qed.

Lemma replace_empty : forall c pat' rep, JS.replace (String c pat') rep "" = "".
Proof. reflexivity. Qed.

(** A format of one space prints nothing. *)
Lemma format_blank : forall c, format_computed c " " = "".
Proof.
  intros c. unfold format_computed.
  repeat (rewrite replace_skip by discriminate; rewrite replace_empty).
  reflexivity.
Qed.

(** Printing with the default format tells an Invalid time from the others:
    [toString()] is the empty string exactly when the time is Invalid, the
    accessors throw exactly then, and a range prints as the empty string
    exactly when both its ends are Invalid.  It is the default format that
    makes it so: under the format [" "] every numeric time prints as the
    empty string.  The Now time is not Invalid: its accessors read the
    breakdown of -1, which has -1 hours, 59 minutes and 59 seconds. *)
Theorem empty_string_iff_invalid : forall (t : Time) (r : Range),
  (Time_toString t None = "" <-> isValid t = false) /\
  (forall field, Time_get field t = Throw TypeError <-> isValid t = false) /\
  (Range_toString r None = "" <->
     isValid (start r) = false /\ isValid (stop r) = false) /\
  (isNow t = false -> isValid t = true -> Time_toString t (Some " ") = "") /\
  Time_get hours (new_Time NOW) = Normal (-1) /\
  Time_get minutes (new_Time NOW) = Normal 59 /\
  Time_get seconds (new_Time NOW) = Normal 59 /\
  Time_get milliseconds (new_Time NOW) = Normal 0.
Proof.
  intros t r.
  assert (T : forall t', Time_toString t' None = "" <-> isValid t' = false).
  { intros t'. split.
    - intros E. destruct (isValid t') eqn:Hv; [ | reflexivity].
      exfalso. exact (default_string_nonempty t' Hv E).
    - apply invalid_string_empty. }
  split; [apply T | ].
  split.
  { intros field. unfold Time_get, Time_computed, isValid.
    destruct (JS.isNaN (value t)); cbn [Bool.eqb]; split; congruence. }
  split.
  { rewrite <- !T. unfold Range_toString, truthy.
    destruct (Time_toString (start r) None =? "")%string eqn:Es;
      destruct (Time_toString (stop r) None =? "")%string eqn:Ee;
      cbn [negb andb].
    - apply String.eqb_eq in Es, Ee. split; [intros _; split; assumption | reflexivity].
    - apply string_eqb_empty in Ee. apply String.eqb_eq in Es. split.
      + intros E. exfalso. revert E. apply app_nonempty_r. exact Ee.
      + intros [_ E]. exfalso. exact (Ee E).
    - apply string_eqb_empty in Es. apply String.eqb_eq in Ee. split.
      + intros E. exfalso. revert E. apply app_nonempty_l. exact Es.
      + intros [E _]. exfalso. exact (Es E).
    - apply string_eqb_empty in Es. apply string_eqb_empty in Ee. split.
      + intros E. exfalso. revert E.
        destruct (Time_valueOf (start r) <=? Time_valueOf (stop r));
          apply app_nonempty_l; exact Es.
      + intros [E _]. exfalso. exact (Es E). }
  split.
  { intros Hnow Hv. rewrite Time_toString_numeric by assumption.
    cbv beta iota delta [String.eqb]. apply format_blank. }
  vm_compute. repeat split.
Qed.


(* ================================================================== *)
(** ** The forms of Range.from *)
(* ================================================================== *)

Lemma split_no_dash : forall s, no_dash s = true -> JS.split "-" s = [s].
Proof.
  induction s as [|c s IH]; intros H; [reflexivity | ].
  cbn [no_dash] in H. apply andb_true_iff in H as [Hc Hs].
  apply negb_true_iff in Hc. cbn [JS.split]. rewrite Hc, (IH Hs). reflexivity.
Qed.

Lemma split_dash : forall a b, no_dash a = true ->
  JS.split "-" (a ++ "-" ++ b) = a :: JS.split "-" b.
Proof.
  induction a as [|c a IH]; intros b H; [reflexivity | ].
  cbn [no_dash] in H. apply andb_true_iff in H as [Hc Ha].
  apply negb_true_iff in Hc. cbn [append JS.split]. rewrite Hc.
  change (a ++ String "-" b) with (a ++ "-" ++ b). rewrite (IH b Ha). reflexivity.
Qed.

Section RangeFrom.

Variable npt_parse : string -> option float.

Lemma Range_from_plain : forall a b more, plain a = true ->
  Range_from npt_parse (a :: b :: more) = new_Range npt_parse a b.
Proof. intros [ | |x|x|s|items|o] b more H; try discriminate H; reflexivity. Qed.

Lemma Range_from_string : forall s,
  Range_from npt_parse [JStr s] =
    new_Range npt_parse (arg_at 0 (map JStr (JS.split "-" s)))
      (arg_at 1 (map JStr (JS.split "-" s))).
Proof. reflexivity. Qed.

(** A stop that is falsy is not given to the stop at all. *)
Lemma new_Range_falsy_stop : forall a b, truthy b = false ->
  new_Range npt_parse a b = new_Range npt_parse a JUndefined.
Proof.
  intros a b H. rewrite !new_Range_unfold, !Range_set_unfold. rewrite H.
  reflexivity.
Qed.

End RangeFrom.

(** The ways of calling [Range.from] agree: for [a] that is neither an array
    nor an object, [from([a, b])], [from({ start: a, stop: b })] and
    [from(a, b)] build the same range, and arguments or array items past
    the second are not read; a string is cut at its dashes, so that
    ['a-b'] stands for [('a', 'b')], a third piece is dropped, and a string
    without a dash leaves the stop alone; any other single argument sets the
    start only. *)
Theorem Range_from_forms :
  forall (npt_parse : string -> option float) (a b : jsval)
         (more : list jsval) (s1 s2 s3 : string),
  plain a = true ->
  Range_from npt_parse [JArr (a :: b :: more)] = Range_from npt_parse [a; b] /\
  Range_from npt_parse
    [JObj (Obj None None None None None None (Some a) (Some b))]
    = Range_from npt_parse [a; b] /\
  Range_from npt_parse (a :: b :: more) = Range_from npt_parse [a; b] /\
  (no_dash s1 = true -> no_dash s2 = true ->
   Range_from npt_parse [JStr (s1 ++ "-" ++ s2)]
     = Range_from npt_parse [JStr s1; JStr s2] /\
   Range_from npt_parse [JStr (s1 ++ "-" ++ s2 ++ "-" ++ s3)]
     = Range_from npt_parse [JStr s1; JStr s2]) /\
  (no_dash s1 = true ->
   Range_from npt_parse [JStr s1] = Range_from npt_parse [JStr s1; JUndefined]) /\
  (match a with JStr _ => False | _ => True end ->
   Range_from npt_parse [a] = Range_from npt_parse [a; JUndefined]).
Proof.
  intros npt_parse a b more s1 s2 s3 Ha.
  rewrite !(Range_from_plain npt_parse a b) by exact Ha.
  split; [reflexivity | split; [reflexivity | split; [reflexivity | ]]].
  split; [ | split].
  - intros H1 H2. rewrite !Range_from_string.
    rewrite (Range_from_plain npt_parse (JStr s1) (JStr s2) []) by reflexivity.
    rewrite !split_dash by assumption.
    rewrite (split_no_dash s2 H2). split; reflexivity.
  - intros H1. rewrite Range_from_string, (split_no_dash s1 H1).
    reflexivity.
  - intros Hs. rewrite (Range_from_plain npt_parse a JUndefined []) by exact Ha.
    destruct a as [ | |x|x|s|items|o]; try discriminate Ha; try contradiction;
      try reflexivity;
      change (Range_from npt_parse [?v]) with (new_Range npt_parse v JNull);
      apply new_Range_falsy_stop; reflexivity.
Qed.

Lemma Range_from_forms_witness :
  plain (JNum 30) = true /\
  Range_from test_parse [JArr [JNum 30; JNum 90]]
    = Range_from test_parse [JNum 30; JNum 90].
Proof.
  split; [reflexivity | ].
  exact (proj1 (Range_from_forms test_parse (JNum 30) (JNum 90) [] "" "" ""
                  eq_refl)).
Defined.

(** A stop that is falsy (0, the empty string, [NaN], [null], [undefined],
    [false]) is ignored: [Range.from(a, b)] is then [Range.from(a, undefined)],
    its stop is Invalid, and the range prints as its start followed by a
    dash, or as the empty string when the start prints as nothing.  So
    [Range.from(10, 0)] has no stop. *)
Theorem Range_from_falsy_stop :
  forall (npt_parse : string -> option float) (a b : jsval) (r : Range),
  plain a = true -> truthy b = false ->
  Range_from npt_parse [a; b] = Range_from npt_parse [a; JUndefined] /\
  (Range_from npt_parse [a; b] = Normal r ->
   isValid (stop r) = false /\
   forall format,
     Range_toString r format =
       if truthy (JStr (Time_toString (start r) format))
       then Time_toString (start r) format ++ "-" else "") /\
  truthy (JNum 0) = false /\ truthy (JStr "") = false /\
  truthy (JNum nan) = false /\ truthy JNull = false /\
  truthy (JBool false) = false.
Proof.
  intros npt_parse a b r Ha Hb.
  rewrite !(Range_from_plain npt_parse a) by exact Ha.
  rewrite (new_Range_falsy_stop npt_parse a b Hb).
  split; [reflexivity | ].
  split; [ | repeat split].
  rewrite new_Range_unfold, Range_set_unfold. cbn [truthy start stop].
  destruct (Time_set npt_parse (new_Time nan) a) as [s|e]; cbn [bind];
    [ | discriminate].
  intros E. injection E as <-. cbn [start stop].
  split; [reflexivity | ].
  intros format. unfold Range_toString. cbn [start stop].
  rewrite (invalid_string_empty (new_Time nan) format eq_refl).
  cbn [truthy String.eqb negb]. rewrite andb_false_r. cbn [andb].
  reflexivity.
Qed.

Lemma Range_from_falsy_stop_witness :
  plain (JNum 10) = true /\ truthy (JNum 0) = false /\
  Range_from test_parse [JNum 10; JNum 0]
    = Range_from test_parse [JNum 10; JUndefined].
Proof.
  split; [reflexivity | split; [reflexivity | ]].
  exact (proj1 (Range_from_falsy_stop test_parse (JNum 10) (JNum 0)
                  {| start := new_Time 10; stop := new_Time nan |}
                  eq_refl eq_refl)).
Defined.

(** [Time.from(time)] and [Range.from(range)] copy: the result has the
    value of the time, and the start and the stop of the range, whatever
    they are (Invalid ends, and a stop below the start, included); and
    [time.set(other)] gives [time] the value of [other]. *)
Theorem from_copies :
  forall (npt_parse : string -> option float) (t t' : Time) (r : Range),
  Time_from npt_parse (jsval_of_Time t) = Normal t /\
  Time_set npt_parse t' (jsval_of_Time t) = Normal t /\
  Range_from npt_parse [jsval_of_Range r] = Normal r /\
  Timecode_from npt_parse [jsval_of_Range r] = Normal r.
Proof.
  intros npt_parse [v] t' [[v1] [v2]].
  split; [reflexivity | split; [reflexivity | ]].
  assert (E : Range_from npt_parse
                [jsval_of_Range {| start := {| value := v1 |};
                                   stop := {| value := v2 |} |}]
              = Normal {| start := {| value := v1 |}; stop := {| value := v2 |} |}).
  { change (Range_from npt_parse [jsval_of_Range ?x])
      with (new_Range npt_parse (jsval_of_Time (start x)) (jsval_of_Time (stop x))).
    rewrite new_Range_unfold, Range_set_unfold. reflexivity. }
  split; exact E.
Qed.


(* ================================================================== *)
(** ** More formats *)
(* ================================================================== *)





Section Formats.

Variable c : computed.











End Formats.




(* ================================================================== *)
(** ** The tests on strings, and objects of time fields *)
(* ================================================================== *)



(** Adding a zero to a number gives a number equal to it. *)
Lemma add_zero_r_eqb : forall y, JS.isNaN y = false -> (y + 0 =? y) = true.
Proof.
  intros y H. unfold JS.isNaN, PrimFloat.is_nan in H.
  apply negb_false_iff in H. rewrite FloatAxioms.eqb_spec in *.
  rewrite add_spec. change (Prim2SF 0) with (S754_zero false).
  unfold SF64add, SFadd.
  destruct (Prim2SF y) as [s|s| |s m e]; try exact H; try discriminate H.
  destruct s; reflexivity.
Qed.

Lemma add_zero_l_eqb : forall y, JS.isNaN y = false -> (0 + y =? y) = true.
Proof.
  intros y H. unfold JS.isNaN, PrimFloat.is_nan in H.
  apply negb_false_iff in H. rewrite FloatAxioms.eqb_spec in *.
  rewrite add_spec. change (Prim2SF 0) with (S754_zero false).
  unfold SF64add, SFadd.
  destruct (Prim2SF y) as [s|s| |s m e]; try exact H; try discriminate H.
  destruct s; reflexivity.
Qed.

Lemma finite_not_nan : forall x, finite x = true -> JS.isNaN x = false.
Proof.
  intros x H. unfold JS.isNaN, PrimFloat.is_nan. apply negb_false_iff.
  rewrite FloatAxioms.eqb_spec. unfold finite in H.
  destruct (Prim2SF x) as [s|s| |s m e]; try discriminate H.
  - reflexivity.
  - unfold SFeqb, SFcompare. rewrite Z.compare_refl, Pos.compare_cont_refl.
    destruct s; reflexivity.
Qed.

(** Adding a zero keeps a number equal to what it was equal to. *)
Lemma eqb_add_zero_r : forall y z, (y =? z) = true -> (y + 0 =? z) = true.
Proof.
  intros y z E. apply (eqb_trans _ y); [ | exact E].
  apply add_zero_r_eqb. exact (eqb_not_nan_l _ _ E).
Qed.

(** [Time.from] of an object of time fields.  An object with neither
    [value] nor [hours], [minutes] or [seconds] gives an Invalid time, also
    when it has [milliseconds] or [ms]; a [value] that is a number is taken
    and the fields are not read; [{ seconds: x }] gives a time equal to
    [Time.from(x)] for every number [x] but [NaN], for which it gives the
    valid time 0; so [{ seconds: -1 }] is the Now time. *)
Theorem Time_from_fields :
  forall (npt_parse : string -> option float) (x : float),
  (forall ml mss,
     Time_from npt_parse (fields None None None ml mss) = Normal (new_Time nan)) /\
  (forall v h m s ml mss,
     Time_from npt_parse (JObj (Obj (Some (JNum v)) h m s ml mss None None))
       = Normal (new_Time v)) /\
  (JS.isNaN x = false ->
   exists t, Time_from npt_parse (fields None None (Some x) None None) = Normal t
             /\ (value t =? x) = true) /\
  Time_from npt_parse (fields None None (Some nan) None None)
    = Normal (new_Time 0) /\
  (exists t, Time_from npt_parse (fields None None (Some (-1)) None None)
               = Normal t /\ isNow t = true /\ Time_toString t None = "now").
Proof.
  intros npt_parse x.
  split; [reflexivity | split; [reflexivity | ]].
  split; [ | split; [reflexivity | eexists; split; [reflexivity | split; reflexivity]]].
  intros Hx. eexists. split; [reflexivity | ].
  cbn [value new_Time]. unfold getComputedSeconds.
  cbn [obj_hours obj_minutes obj_seconds obj_milliseconds obj_ms].
  change (0 + 60 * 60 * or_zero None + 60 * or_zero None) with 0.
  change (or_zero None / 1000) with 0.
  unfold or_zero, JS.truthy_number.
  unfold JS.isNaN in Hx. rewrite Hx, orb_false_r.
  unfold PrimFloat.is_zero. change PrimFloat.zero with 0.
  destruct (x =? 0) eqn:Hz; cbn [negb].
  - change (0 + 0 + 0) with 0. rewrite float_eqb_sym. exact Hz.
  - apply eqb_add_zero_r, add_zero_l_eqb. exact Hx.
Qed.

Lemma Time_from_fields_witness :
  JS.isNaN 5.5 = false /\
  exists t, Time_from test_parse (fields None None (Some 5.5) None None) = Normal t
            /\ (value t =? 5.5) = true.
Proof.
  split; [reflexivity | ].
  destruct (Time_from_fields test_parse 5.5) as (_ & _ & H & _).
  exact (H eq_refl).
Defined.


(* ================================================================== *)
(** ** Whole hours, minutes and seconds as an object *)
(* ================================================================== *)

Section FieldsRoundTrip.

Import QArith Qabs Qround Qpower Lqa.
Local Open Scope Z_scope.
Local Open Scope Q_scope.

Lemma zero_cases : forall x, (x =? 0)%float = true -> x = 0%float \/ x = (-0)%float.
Proof.
  intros x H. rewrite FloatAxioms.eqb_spec in H.
  change (Prim2SF 0) with (S754_zero false) in H.
  pose proof (SF2Prim_Prim2SF x) as E.
  destruct (Prim2SF x) as [s|s| |s m e]; try destruct s; try discriminate H;
    [right | left]; rewrite <- E; reflexivity.
Qed.

(** Numbers equal under [===] have the same exact value. *)
Lemma eqb_Qof : forall x y, (x =? y)%float = true -> Qof x == Qof y.
Proof.
  intros x y H. destruct (eqb_true_cases x y H) as [-> | [Hx Hy]]; [reflexivity | ].
  destruct (zero_cases x Hx) as [-> | ->], (zero_cases y Hy) as [-> | ->];
    reflexivity.
Qed.

Lemma Qof_or_zero_Z : forall z, (Z.abs z < 2 ^ 53)%Z ->
  finite (or_zero (Some (JS.number_of_Z z))) = true /\
  Qof (or_zero (Some (JS.number_of_Z z))) == inject_Z z.
Proof.
  intros z Hz. destruct (Qof_number_of_Z z Hz) as [F E].
  destruct (Qof_or_zero _ F) as [F' E']. split; [exact F' | ].
  rewrite E'. exact E.
Qed.

Variables H M S : Z.
Hypothesis HH : (0 <= H < 500000)%Z.
Hypothesis HM : (0 <= M < 60)%Z.
Hypothesis HS : (0 <= S < 60)%Z.

(** The seconds of whole hours, minutes and seconds are their exact sum. *)
Lemma fields_value :
  getComputedSeconds
    (Obj None (Some (JS.number_of_Z H)) (Some (JS.number_of_Z M))
         (Some (JS.number_of_Z S)) None None None None)
  = JS.number_of_Z (3600 * H + 60 * M + S).
Proof.
  set (n := (3600 * H + 60 * M + S)%Z).
  destruct (Z.eq_dec n 0) as [Z0 | NZ].
  { assert (H = 0 /\ M = 0 /\ S = 0)%Z as (-> & -> & ->) by lia.
    vm_compute. reflexivity. }
  unfold getComputedSeconds.
  cbn [obj_hours obj_minutes obj_seconds obj_milliseconds obj_ms].
  change (or_zero None / 1000)%float with 0%float.
  destruct (Qof_or_zero_Z H ltac:(lia)) as [Fh Eh].
  destruct (Qof_or_zero_Z M ltac:(lia)) as [Fm Em].
  destruct (Qof_or_zero_Z S ltac:(lia)) as [Fs Es].
  assert (F3600 : finite (60 * 60)%float = true) by reflexivity.
  assert (E3600 : Qof (60 * 60)%float == inject_Z 3600) by reflexivity.
  destruct Qof_60 as [F60 E60]. change 60 with (inject_Z 60) in E60.
  assert (F0 : finite 0%float = true) by reflexivity.
  assert (E0 : Qof 0%float == inject_Z 0) by reflexivity.
  destruct (mulZ_exact _ _ 3600 H F3600 Fh E3600 Eh ltac:(lia)) as [F1 E1].
  destruct (addZ_exact _ _ 0 (3600 * H) F0 F1 E0 E1 ltac:(lia)) as [F2 E2].
  destruct (mulZ_exact _ _ 60 M F60 Fm E60 Em ltac:(lia)) as [F3 E3].
  destruct (addZ_exact _ _ _ _ F2 F3 E2 E3 ltac:(lia)) as [F4 E4].
  destruct (addZ_exact _ _ _ _ F4 Fs E4 Es ltac:(lia)) as [F5 E5].
  destruct (addZ_exact _ _ _ _ F5 F0 E5 E0 ltac:(lia)) as [F6 E6].
  replace (0 + 3600 * H + 60 * M + S + 0)%Z with n in E6 by (subst n; lia).
  destruct (Qof_number_of_Z n ltac:(lia)) as [Fn En].
  assert (Eq : (_ =? JS.number_of_Z n)%float = true)
    by (apply (Qof_eqb _ _ F6 Fn); rewrite E6, En; reflexivity).
  destruct (eqb_true_cases _ _ Eq) as [E | [_ Hz]]; [exact E | exfalso].
  apply eqb_Qof in Hz. rewrite En in Hz. change (Qof 0) with (inject_Z 0) in Hz.
  apply NZ. apply inject_Z_injective. exact Hz.
Qed.

End FieldsRoundTrip.

(** Whole hours, minutes and seconds given as an object come back from the
    accessors, but for the breakdowns of a whole minute that read one minute
    less and 60 seconds: for whole [H < 500000], [M < 60] and [S < 60],
    [Time.from({ hours: H, minutes: M, seconds: S })] has the value
    [3600 * H + 60 * M + S] exactly; its [hours] are [H], its [milliseconds]
    0, and its [minutes] and [seconds] are [M] and [S], or, only when [S] is
    0 and [M] is not, [M - 1] and 60; with no hours they are always [M] and
    [S].  [Time.from({ hours: 1, minutes: 1 })] reads 0 minutes and 60
    seconds, and prints as "01:00:60". *)
Theorem fields_round_trip :
  forall (npt_parse : string -> option float) (H M S : Z),
  (0 <= H < 500000)%Z -> (0 <= M < 60)%Z -> (0 <= S < 60)%Z ->
  (exists t h m s,
     Time_from npt_parse
       (fields (Some (JS.number_of_Z H)) (Some (JS.number_of_Z M))
               (Some (JS.number_of_Z S)) None None) = Normal t /\
     value t = JS.number_of_Z (3600 * H + 60 * M + S) /\
     Time_get hours t = Normal h /\ Time_get minutes t = Normal m /\
     Time_get seconds t = Normal s /\ Time_get milliseconds t = Normal 0 /\
     (h =? JS.number_of_Z H) = true /\
     (((m =? JS.number_of_Z M) = true /\ (s =? JS.number_of_Z S) = true) \/
      (S = 0%Z /\ (1 <= M)%Z /\
       (m =? JS.number_of_Z (M - 1)) = true /\ (s =? 60) = true)) /\
     (H = 0%Z -> (m =? JS.number_of_Z M) = true /\ (s =? JS.number_of_Z S) = true)) /\
  (exists t, Time_from npt_parse (fields (Some 1) (Some 1) None None None)
               = Normal t /\
     Time_get minutes t = Normal 0 /\ Time_get seconds t = Normal 60 /\
     Time_toString t None = "01:00:60").
Proof.
  intros npt_parse H M S HH HM HS.
  split; [ | eexists; split; [reflexivity | vm_compute; repeat split]].
  set (n := (3600 * H + 60 * M + S)%Z).
  assert (Hn : (0 <= n < 2147483648)%Z) by (subst n; lia).
  pose proof (fields_value H M S HH HM HS) as Ev. fold n in Ev.
  destruct (whole_breakdown_eqb n Hn) as (A & B & C & D).
  assert (Eh : (n / 3600 = H)%Z).
  { symmetry. apply (Z.div_unique n 3600 H (60 * M + S)); subst n; lia. }
  assert (Er : (n mod 3600 = 60 * M + S)%Z).
  { symmetry. apply (Z.mod_unique n 3600 H (60 * M + S)); subst n; lia. }
  assert (Em : ((n mod 3600) / 60 = M)%Z).
  { rewrite Er. symmetry. apply (Z.div_unique (60 * M + S) 60 M S); lia. }
  assert (Es : (n mod 60 = S)%Z).
  { symmetry. apply (Z.mod_unique n 60 (60 * H + M) S); subst n; lia. }
  rewrite Eh in A. rewrite Em, Es in C, D.
  destruct (Qof_number_of_Z n ltac:(lia)) as [Fn _].
  assert (Nn : JS.isNaN (JS.number_of_Z n) = false) by (apply finite_not_nan; exact Fn).
  exists (new_Time (JS.number_of_Z n)).
  exists (hours (getComputedTime (JS.number_of_Z n))).
  exists (minutes (getComputedTime (JS.number_of_Z n))).
  exists (seconds (getComputedTime (JS.number_of_Z n))).
  split.
  { unfold fields, Time_from. cbn [truthy get_value obj_value or_undefined
      has_property obj_hours is_some bind]. rewrite Ev. reflexivity. }
  split; [reflexivity | ].
  unfold Time_get, Time_computed. cbn [value new_Time]. rewrite Nn.
  split; [reflexivity | split; [reflexivity | split; [reflexivity | ]]].
  split; [rewrite B; reflexivity | ].
  split; [exact A | split; [exact C | ]].
  intros H0. apply D. subst n. lia.
Qed.

Lemma fields_round_trip_witness :
  (0 <= 6 < 500000)%Z /\ (0 <= 5 < 60)%Z /\ (0 <= 30 < 60)%Z /\
  exists t, Time_from test_parse (fields (Some 6) (Some 5) (Some 30) None None)
              = Normal t /\ value t = 21930.
Proof.
  split; [lia | split; [lia | split; [lia | ]]].
  destruct (fields_round_trip test_parse 6 5 30 ltac:(lia) ltac:(lia) ltac:(lia))
    as [(t & _ & _ & _ & E & V & _) _].
  exists t. split; [exact E | exact V].
Defined.


(* ================================================================== *)
(** ** Errors of Range.set, and how whole seconds print *)
(* ================================================================== *)



Section WholePrint.

Import QArith Qabs Qround Qpower Lqa.
Local Open Scope Z_scope.

(** Numbers equal under [===] print alike. *)
Lemma eqb_toString : forall x y, (x =? y)%float = true ->
  JS.Number_toString x = JS.Number_toString y.
Proof.
  intros x y H. destruct (eqb_true_cases x y H) as [-> | [Hx Hy]]; [reflexivity | ].
  destruct (zero_cases x Hx) as [-> | ->], (zero_cases y Hy) as [-> | ->];
    reflexivity.
Qed.

Lemma eqb_pad : forall x y, (x =? y)%float = true -> pad 2 x = pad 2 y.
Proof. intros x y H. unfold pad. rewrite (eqb_toString x y H). reflexivity. Qed.

Lemma pad_table : all_from 100 0 pad_check = true.
Proof. vm_compute. reflexivity. Qed.

Lemma pad_two_digits : forall x k, (0 <= k < 100) ->
  (x =? JS.number_of_Z k)%float = true -> pad 2 x = two_digits k.
Proof.
  intros x k Hk E. rewrite (eqb_pad _ _ E).
  pose proof (all_from_spec 100 0 pad_check pad_table k ltac:(lia)) as T.
  unfold pad_check in T. apply String.eqb_eq in T. exact T.
Qed.

Lemma whole_not_now : forall n, (0 <= n < 2147483648) ->
  isNow (new_Time (JS.number_of_Z n)) = false /\
  isValid (new_Time (JS.number_of_Z n)) = true.
Proof.
  intros n Hn. destruct (Qof_number_of_Z n ltac:(lia)) as [Fn En].
  unfold isNow, isValid, NOW. cbn [value new_Time]. split.
  - destruct (-1 =? JS.number_of_Z n)%float eqn:E; [exfalso | reflexivity].
    apply eqb_Qof in E. rewrite En in E.
    assert (E1 : Qof (-1) == inject_Z (-1)) by reflexivity. rewrite E1 in E.
    assert (-1 = n) by (apply inject_Z_injective; exact E). lia.
  - rewrite (finite_not_nan _ Fn). reflexivity.
Qed.

End WholePrint.

(** How a whole number of seconds [n] below 100 hours prints: as the two
    digits of [n / 3600], of the minutes and of the seconds of [n mod 3600],
    separated by colons, or, for some whole minutes past the first hour,
    with one minute less and ":60"; 7200 prints as "02:00:00" and 3660 as
    "01:00:60". *)
Theorem whole_seconds_print : forall n : Z, (0 <= n < 360000)%Z ->
  let t := new_Time (JS.number_of_Z n) in
  let H := (n / 3600)%Z in
  let M := ((n mod 3600) / 60)%Z in
  let S := (n mod 60)%Z in
  (Time_toString t None
     = two_digits H ++ ":" ++ two_digits M ++ ":" ++ two_digits S \/
   (S = 0%Z /\ (1 <= M)%Z /\
    Time_toString t None
      = two_digits H ++ ":" ++ two_digits (M - 1) ++ ":60")) /\
  ((n < 3600)%Z ->
   Time_toString t None = "00:" ++ two_digits M ++ ":" ++ two_digits S) /\
  Time_toString (new_Time 7200) None = "02:00:00" /\
  Time_toString (new_Time 3660) None = "01:00:60".
Proof.
  intros n Hn t H M S.
  assert (Hn' : (0 <= n < 2147483648)%Z) by lia.
  destruct (whole_not_now n Hn') as [Hnow Hvalid]. fold t in Hnow, Hvalid.
  destruct (whole_breakdown_eqb n Hn') as (A & B & C & D).
  fold H M S in A, C, D.
  assert (HH : (0 <= H < 100)%Z).
  { subst H. split; [apply Z.div_pos; lia | apply Z.div_lt_upper_bound; lia]. }
  pose proof (Z.mod_pos_bound n 3600 ltac:(lia)) as Rn.
  pose proof (Z.mod_pos_bound n 60 ltac:(lia)) as Rs. fold S in Rs.
  assert (HM : (0 <= M < 60)%Z).
  { subst M. split; [apply Z.div_pos; lia | apply Z.div_lt_upper_bound; lia]. }
  assert (P : Time_toString t None =
              pad 2 (hours (getComputedTime (JS.number_of_Z n))) ++ ":"
                ++ pad 2 (minutes (getComputedTime (JS.number_of_Z n))) ++ ":"
                ++ pad 2 (seconds (getComputedTime (JS.number_of_Z n)))).
  { change (Time_toString t None) with (Time_toString t (Some "hh:mm:ss")).
    rewrite Time_toString_numeric by assumption.
    cbv beta iota delta [String.eqb]. rewrite format_default.
    unfold fraction_suffix.
    change (ms (getComputedTime (value t)))
      with (milliseconds (getComputedTime (JS.number_of_Z n))).
    rewrite B. cbn [JS.truthy_number]. rewrite !append_empty_r. reflexivity. }
  rewrite P. rewrite (pad_two_digits _ H HH A).
  assert (Ok : forall m s, (0 <= m < 60)%Z ->
            (minutes (getComputedTime (JS.number_of_Z n)) =? JS.number_of_Z m) = true ->
            (seconds (getComputedTime (JS.number_of_Z n)) =? JS.number_of_Z s) = true ->
            (0 <= s < 100)%Z ->
            two_digits H ++ ":"
              ++ pad 2 (minutes (getComputedTime (JS.number_of_Z n))) ++ ":"
              ++ pad 2 (seconds (getComputedTime (JS.number_of_Z n)))
            = two_digits H ++ ":" ++ two_digits m ++ ":" ++ two_digits s).
  { intros m s Hm Em Es Hs.
    rewrite (pad_two_digits _ m ltac:(lia) Em), (pad_two_digits _ s Hs Es).
    reflexivity. }
  split; [ | split; [ | split; vm_compute; reflexivity]].
  - destruct C as [[Em Es] | (S0 & M1 & Em & Es)].
    + left. apply Ok; try assumption; lia.
    + right. split; [exact S0 | split; [exact M1 | ]].
      apply (Ok (M - 1)%Z 60%Z); try assumption; lia.
  - intros Hlt. destruct (D Hlt) as [Em Es].
    rewrite (Ok M S) by (try assumption; lia).
    assert (E0 : H = 0%Z) by (subst H; apply Z.div_small; lia).
    rewrite E0. reflexivity.
Qed.

Lemma whole_seconds_print_witness :
  (0 <= 21930 < 360000)%Z /\
  Time_toString (new_Time (JS.number_of_Z 21930)) None = "06:05:30".
Proof.
  split; [lia | ].
  destruct (whole_seconds_print 21930 ltac:(lia)) as ([E | (S0 & _)] & _).
  - exact E.
  - discriminate S0.
Defined.


(* ================================================================== *)
(** ** Printing through the cache *)
(* ================================================================== *)

(** The breakdowns of numbers equal under [===] print alike. *)
Lemma format_equal_values : forall k x format, (k =? x) = true ->
  format_computed (getComputedTime k) format
  = format_computed (getComputedTime x) format.
Proof.
  intros k x format E.
  destruct (eqb_true_cases k x E) as [-> | [Hk Hx]]; [reflexivity | ].
  assert (Z : forall y, (y =? 0) = true ->
            format_computed (getComputedTime y) format
            = format_computed (getComputedTime 0) format).
  { intros y Hy. destruct (zero_cases y Hy) as [-> | ->]; [reflexivity | ].
    unfold format_computed, pad, fraction_suffix.
    replace (getComputedTime (-0)) with
      {| totalMilliseconds := -0; totalSeconds := -0; totalMinutes := -0;
         totalHours := -0; milliseconds := 0; seconds := 0; minutes := 0;
         hours := -0; ms := 0 |} by (vm_compute; reflexivity).
    replace (getComputedTime 0) with
      {| totalMilliseconds := 0; totalSeconds := 0; totalMinutes := 0;
         totalHours := 0; milliseconds := 0; seconds := 0; minutes := 0;
         hours := 0; ms := 0 |} by (vm_compute; reflexivity).
    cbn [totalSeconds totalMinutes totalHours hours minutes seconds ms
         milliseconds].
    change (JS.Number_toString (-0)) with "0".
    change (JS.Number_toString 0) with "0".
    reflexivity. }
  rewrite (Z k Hk), (Z x Hx). reflexivity.
Qed.

Lemma Time_toString_in_ok : forall cache t format, cache_ok cache ->
  fst (Time_toString_in cache t format) = Time_toString t format /\
  cache_ok (snd (Time_toString_in cache t format)).
Proof.
  intros cache t format Hok.
  unfold Time_toString_in, Time_toString, Time_computed_in, Time_computed.
  destruct (JS.isNaN (value t)) eqn:Hn; cbn [fst snd].
  - split; [reflexivity | exact Hok].
  - assert (Hc : exists k, (k =? value t) = true /\
                   match Map_get cache (value t) with
                   | Some c => c
                   | None => getComputedTime (value t)
                   end = getComputedTime k).
    { destruct (Map_get cache (value t)) as [c|] eqn:Hget.
      - destruct (Map_get_ok cache (value t) c Hok Hn Hget) as (k & Hk & Ec).
        exists k. split; assumption.
      - exists (value t). split; [exact (eqb_refl_not_nan _ Hn) | reflexivity]. }
    destruct Hc as (k & Hk & Ec). rewrite Ec.
    split; [ | exact (Map_set_ok cache (value t) _ k Hok Hk eq_refl)].
    destruct (-1 =? value t); [reflexivity | ].
    apply format_equal_values. exact Hk.
Qed.

(** The cache does not show in what is printed: from a cache that holds
    under each key the breakdown of a number equal to the key, [toString]
    of a time and of a range return, under every format, the strings they
    return without a cache, and leave such a cache. *)
Theorem toString_through_cache :
  forall (cache : Cache) (t : Time) (r : Range) (format : option string),
  cache_ok cache ->
  fst (Time_toString_in cache t format) = Time_toString t format /\
  cache_ok (snd (Time_toString_in cache t format)) /\
  fst (Range_toString_in cache r format) = Range_toString r format /\
  cache_ok (snd (Range_toString_in cache r format)).
Proof.
  intros cache t r format Hok.
  destruct (Time_toString_in_ok cache t format Hok) as [A B].
  split; [exact A | split; [exact B | ]].
  unfold Range_toString_in, Range_toString.
  destruct (Time_toString_in_ok cache (start r) format Hok) as [A1 B1].
  destruct (Time_toString_in cache (start r) format) as [s1 c1].
  cbn [fst snd] in A1, B1.
  destruct (Time_toString_in_ok c1 (stop r) format B1) as [A2 B2].
  destruct (Time_toString_in c1 (stop r) format) as [s2 c2].
  cbn [fst snd] in A2, B2. cbn [fst snd]. subst s1 s2.
  split; [reflexivity | exact B2].
Qed.

Lemma toString_through_cache_witness :
  let warm := snd (Time_computed_in nil (new_Time 0)) in
  cache_ok warm /\
  fst (Time_toString_in warm (new_Time (-0)) (Some "S"))
    = Time_toString (new_Time (-0)) (Some "S").
Proof.
  assert (Hnil : cache_ok nil) by (intros k c []).
  assert (Hok : cache_ok (snd (Time_computed_in nil (new_Time 0)))).
  { intros k c [E | []]. injection E as <- <-. exists 0. split; reflexivity. }
  split; [exact Hok | ].
  exact (proj1 (toString_through_cache _ (new_Time (-0))
                  {| start := new_Time nan; stop := new_Time nan |}
                  (Some "S") Hok)).
Defined.


(* ================================================================== *)
(** ** The milliseconds and the printed fraction *)
(* ================================================================== *)

Lemma ms_whole_table : all_from 1001 0 ms_whole_check = true.
Proof. vm_compute. reflexivity. Qed.

Section MillisecondsWhole.

Import QArith Qabs Qround Qpower Lqa.
Local Open Scope Z_scope.
Local Open Scope Q_scope.

Variable v : float.
Hypothesis Fv : finite v = true.
Hypothesis H0 : 0 <= Qof v.
Hypothesis H31 : Qof v < pow2 31.

Lemma milliseconds_facts :
  let c := getComputedTime v in
  let frac := (totalSeconds c - hours c * 60 * 60 - minutes c * 60 - seconds c)%float in
  exists n : Z, (0 <= n <= 1000)%Z /\
    inject_Z n <= 1000 * Qof frac + (1 # 2) /\
    1000 * Qof frac + (1 # 2) < inject_Z n + 1 /\
    (milliseconds c =? JS.number_of_Z n)%float = true /\
    fraction_suffix c = frac_digits n.
Proof.
  intros c frac.
  destruct (decompose_facts v Fv H0 H31)
    as (H & M & S & _ & _ & _ & _ & _ & _ & Ff & _ & Pf & Uf).
  fold c in Ff, Pf, Uf. fold frac in Ff, Pf, Uf.
  set (n := Qfloor (1000 * Qof frac + (1 # 2))).
  destruct (floor_bounds (1000 * Qof frac + (1 # 2))) as [Ln Un]. fold n in Ln, Un.
  assert (Hn : (0 <= n < 0 + Z.of_nat 1001)%Z).
  { assert (inject_Z (-1) < inject_Z n) by (change (inject_Z (-1)) with (-1); lra).
    assert (inject_Z n < inject_Z 1001) by (change (inject_Z 1001) with 1001; lra).
    rewrite <- Zlt_Qlt in *. lia. }
  pose proof (all_from_spec 1001 0 ms_whole_check ms_whole_table n Hn) as T.
  unfold ms_whole_check in T. apply andb_prop in T. destruct T as [T1 T2].
  apply String.eqb_eq in T2.
  assert (Em : milliseconds c = milliseconds_of n).
  { change (milliseconds c)
      with (1000 * JS.parseFloat (JS.Number_toFixed 3 frac))%float.
    rewrite (toFixed3_unit frac Ff Pf Uf). reflexivity. }
  exists n. split; [lia | split; [exact Ln | split; [exact Un | ]]].
  split; [rewrite Em; exact T1 | ].
  change (fraction_suffix c) with (suffix_of (milliseconds c)).
  rewrite Em. exact T2.
Qed.

End MillisecondsWhole.

Section MillisecondsPrinted.

Import QArith Qround Qabs.

(** For every number [v] with [0 <= v < 2^31], the milliseconds of the
    breakdown are a whole number [n] from 0 to 1000, the thousandths of the
    fraction of a second rounded half up, and [ms] is the same number; the
    fraction that [toString] prints after the seconds is [n] thousandths
    without zeros at the end: nothing for 0, at most three digits, and the
    point alone when the fraction rounds up to 1000.  So 1.23 prints ".23",
    1.005 prints ".005" and 59.9996 prints ".". *)
Theorem milliseconds_whole : forall v : float,
  (0 <=? v)%float = true -> (v <? 2147483648)%float = true ->
  let c := getComputedTime v in
  let frac :=
    (totalSeconds c - hours c * 60 * 60 - minutes c * 60 - seconds c)%float in
  (exists n : Z, (0 <= n <= 1000)%Z /\
     (inject_Z n <= 1000 * Qof frac + (1 # 2))%Q /\
     (1000 * Qof frac + (1 # 2) < inject_Z n + 1)%Q /\
     (milliseconds c =? JS.number_of_Z n)%float = true /\
     ms c = milliseconds c /\
     fraction_suffix c = frac_digits n) /\
  frac_digits 0 = "" /\ frac_digits 5 = ".005" /\ frac_digits 230 = ".23" /\
  frac_digits 500 = ".5" /\ frac_digits 1000 = "." /\
  fraction_suffix (getComputedTime 1.23) = ".23" /\
  fraction_suffix (getComputedTime 1.005) = ".005" /\
  fraction_suffix (getComputedTime 59.9996) = ".".
Proof.
  intros v Hge Hlt c frac.
  destruct (below_2_31 v Hge Hlt) as (Fv & H0 & H31).
  split; [ | vm_compute; repeat split].
  destruct (milliseconds_facts v Fv H0 H31) as (n & Hn & L & U & E & P).
  exists n. split; [exact Hn | ].
  split; [exact L | split; [exact U | ]].
  split; [exact E | split; [reflexivity | exact P]].
Qed.

Lemma milliseconds_whole_witness :
  (0 <=? 22290.23)%float = true /\ (22290.23 <? 2147483648)%float = true /\
  exists n : Z, (0 <= n <= 1000)%Z /\
    (milliseconds (getComputedTime 22290.23) =? JS.number_of_Z n)%float = true /\
    fraction_suffix (getComputedTime 22290.23) = frac_digits n.
Proof.
  split; [reflexivity | split; [reflexivity | ]].
  destruct (milliseconds_whole 22290.23 eq_refl eq_refl)
    as ((n & Hn & _ & _ & E & _ & P) & _).
  exists n. split; [exact Hn | split; [exact E | exact P]].
Defined.

End MillisecondsPrinted.


(* ================================================================== *)
(** ** What toString prints below 100 hours *)
(* ================================================================== *)

Lemma wide_table : all_from 102 (-1) wide_check = true.
Proof. vm_compute. reflexivity. Qed.

Section Shape.

Import QArith Qabs Qround Qpower Lqa.
Local Open Scope Z_scope.
Local Open Scope Q_scope.

(** Of two valid mantissas, the one with the smaller exponent is the
    smaller number. *)
Lemma mag_lt : forall s1 m1 e1 s2 m2 e2,
  SpecFloat.valid_binary 53 1024 (S754_finite s1 m1 e1) = true ->
  SpecFloat.valid_binary 53 1024 (S754_finite s2 m2 e2) = true ->
  (e1 < e2)%Z ->
  inject_Z (Zpos m1) * pow2 e1 < inject_Z (Zpos m2) * pow2 e2.
Proof.
  intros s1 m1 e1 s2 m2 e2 V1 V2 He.
  destruct (valid_finite s1 m1 e1 V1) as (D1 & B1 & _).
  destruct (valid_finite s2 m2 e2 V2) as (D2 & B2 & C2).
  destruct (Zdigits2_bounds (Zpos m1) ltac:(lia)) as [[_ Hhi] Hd1].
  destruct (Zdigits2_bounds (Zpos m2) ltac:(lia)) as [[Hlo _] Hd2].
  assert (E2 : Zdigits2 (Zpos m2) = 53%Z) by lia. rewrite E2 in Hlo.
  assert (U1 : (Zpos m1 < 2 ^ 53)%Z).
  { assert (2 ^ Zdigits2 (Zpos m1) <= 2 ^ 53)%Z by (apply Z.pow_le_mono_r; lia).
    lia. }
  pose proof (pow2_pos e1) as P1. pose proof (pow2_pos e2) as P2.
  assert (A : inject_Z (Zpos m1) * pow2 e1 < pow2 (53 + e1)).
  { rewrite pow2_add, (pow2_inject 53) by lia.
    apply Qmult_lt_compat_r; [exact P1 | rewrite <- Zlt_Qlt; exact U1]. }
  assert (B : pow2 (52 + e2) <= inject_Z (Zpos m2) * pow2 e2).
  { rewrite pow2_add, (pow2_inject 52) by lia.
    apply Qmult_le_compat_r; [rewrite <- Zle_Qle; exact Hlo | lra]. }
  pose proof (pow2_le (53 + e1) (52 + e2) ltac:(lia)). lra.
Qed.

(** [x < y] on finite numbers is the order of their exact values. *)
Lemma ltb_Qof : forall x y, (x <? y)%float = true ->
  finite x = true -> finite y = true -> Qof x < Qof y.
Proof.
  intros x y H Fx Fy. rewrite ltb_spec in H. unfold finite, Qof in *.
  pose proof (Prim2SF_valid x) as Vx. pose proof (Prim2SF_valid y) as Vy.
  destruct (Prim2SF x) as [s1|s1| |s1 m1 e1], (Prim2SF y) as [s2|s2| |s2 m2 e2];
    try discriminate Fx; try discriminate Fy.
  - discriminate H.
  - rewrite Qval_zero, Qval_finite.
    pose proof (Qmag_pos_finite s2 m2 e2) as P. cbn [Qmag] in P.
    destruct s2; [discriminate H | exact P].
  - rewrite Qval_zero, Qval_finite.
    pose proof (Qmag_pos_finite s1 m1 e1) as P. cbn [Qmag] in P.
    destruct s1; [lra | discriminate H].
  - rewrite !Qval_finite.
    pose proof (Qmag_pos_finite s1 m1 e1) as P1. cbn [Qmag] in P1.
    pose proof (Qmag_pos_finite s2 m2 e2) as P2. cbn [Qmag] in P2.
    pose proof (pow2_pos e1) as Pe.
    unfold SFltb, SFcompare in H.
    destruct s1, s2; try discriminate H; try lra.
    + destruct (e1 ?= e2)%Z eqn:Ce; try discriminate H.
      * apply Z.compare_eq in Ce. subst e2.
        rewrite Pos.compare_cont_spec in H. cbn [Pos.switch_Eq] in H.
        destruct (m1 ?= m2)%positive eqn:Cm; try discriminate H.
        rewrite Pos.compare_gt_iff in Cm.
        assert (inject_Z (Zpos m2) < inject_Z (Zpos m1))
          by (rewrite <- Zlt_Qlt; exact Cm).
        assert (inject_Z (Zpos m2) * pow2 e1 < inject_Z (Zpos m1) * pow2 e1)
          by (apply Qmult_lt_compat_r; assumption).
        lra.
      * rewrite Z.compare_gt_iff in Ce.
        pose proof (mag_lt true m2 e2 true m1 e1 Vy Vx Ce). lra.
    + destruct (e1 ?= e2)%Z eqn:Ce; try discriminate H.
      * apply Z.compare_eq in Ce. subst e2.
        rewrite Pos.compare_cont_spec in H. cbn [Pos.switch_Eq] in H.
        destruct (m1 ?= m2)%positive eqn:Cm; try discriminate H.
        rewrite Pos.compare_lt_iff in Cm.
        assert (inject_Z (Zpos m1) < inject_Z (Zpos m2))
          by (rewrite <- Zlt_Qlt; exact Cm).
        apply Qmult_lt_compat_r; assumption.
      * rewrite Z.compare_lt_iff in Ce.
        exact (mag_lt false m1 e1 false m2 e2 Vx Vy Ce).
Qed.

(** The numbers [v] with [0 <= v < b], for a finite [b]. *)
Lemma below_finite : forall v b : float,
  (0 <=? v)%float = true -> (v <? b)%float = true -> finite b = true ->
  finite v = true /\ 0 <= Qof v /\ Qof v < Qof b.
Proof.
  intros v b Hge Hlt Fb.
  assert (Fv : finite v = true).
  { rewrite leb_spec in Hge. rewrite ltb_spec in Hlt. unfold finite in *.
    change (Prim2SF 0%float) with (S754_zero false) in Hge.
    destruct (Prim2SF v) as [s|s| |s m e]; try reflexivity.
    - destruct s; [discriminate Hge | ].
      destruct (Prim2SF b) as [s'|s'| |s' m' e']; try discriminate Fb;
        discriminate Hlt.
    - discriminate Hge. }
  split; [exact Fv | ]. split; [ | exact (ltb_Qof v b Hlt Fv Fb)].
  rewrite leb_spec in Hge. unfold finite, Qof in *.
  change (Prim2SF 0%float) with (S754_zero false) in Hge.
  destruct (Prim2SF v) as [s|s| |s m e]; try discriminate Fv.
  - rewrite Qval_zero. lra.
  - rewrite Qval_finite. pose proof (Qmag_pos_finite s m e) as P. cbn [Qmag] in P.
    destruct s; [discriminate Hge | lra].
Qed.

Lemma pad_two_wide : forall x k, finite x = true -> (-1 <= k <= 100)%Z ->
  Qof x == inject_Z k -> pad 2 x = two_wide k.
Proof.
  intros x k Fx Hk E. destruct (Qof_number_of_Z k ltac:(lia)) as [Fk Ek].
  assert (Eq : (x =? JS.number_of_Z k)%float = true).
  { apply Qof_eqb; [exact Fx | exact Fk | rewrite E, Ek; reflexivity]. }
  rewrite (eqb_pad _ _ Eq).
  pose proof (all_from_spec 102 (-1) wide_check wide_table k ltac:(lia)) as T.
  unfold wide_check in T. apply String.eqb_eq in T. exact T.
Qed.

Lemma shape_facts : forall v, finite v = true -> 0 <= Qof v -> Qof v < 360000 ->
  exists H M S n : Z,
    Time_toString (new_Time v) None
      = (two_wide H ++ ":" ++ two_wide M ++ ":" ++ two_wide S
           ++ frac_digits n)%string /\
    (0 <= H <= 100)%Z /\ (0 <= M <= 60)%Z /\ (-1 <= S <= 60)%Z /\
    (0 <= n <= 1000)%Z /\
    0 <= Qof v - inject_Z (3600 * H + 60 * M + S) /\
    Qof v - inject_Z (3600 * H + 60 * M + S) < 1 /\
    inject_Z n <= 1000 * (Qof v - inject_Z (3600 * H + 60 * M + S)) + (1 # 2) /\
    1000 * (Qof v - inject_Z (3600 * H + 60 * M + S)) + (1 # 2) < inject_Z n + 1.
Proof.
  intros v Fv H0 Hb.
  assert (H31 : Qof v < pow2 31).
  { assert (E31 : pow2 31 == 2147483648) by reflexivity. lra. }
  destruct (decompose_facts v Fv H0 H31)
    as (H & M & S & [Fh Eh] & [Fm Em] & [Fs Es] & HH & HM & HS & Ff & Ef & Pf & Uf).
  destruct (milliseconds_facts v Fv H0 H31) as (n & Hn & L & U & _ & P).
  set (c := getComputedTime v) in *.
  set (I := (3600 * H + 60 * M + S)%Z) in *.
  rewrite Ef in Pf, Uf, L, U.
  assert (H100 : (H <= 100)%Z).
  { assert (A : inject_Z I < inject_Z 360000)
      by (change (inject_Z 360000) with 360000; lra).
    rewrite <- Zlt_Qlt in A. subst I. lia. }
  exists H, M, S, n.
  split; [ | repeat split; try lia; assumption].
  assert (Hnow : isNow (new_Time v) = false).
  { unfold isNow, NOW. cbn [value new_Time].
    destruct (-1 =? v)%float eqn:E; [exfalso | reflexivity].
    apply eqb_Qof in E.
    assert (E1 : Qof (-1) == -1) by reflexivity. lra. }
  assert (Hvalid : isValid (new_Time v) = true).
  { unfold isValid. cbn [value new_Time]. rewrite (finite_not_nan v Fv).
    reflexivity. }
  change (Time_toString (new_Time v) None)
    with (Time_toString (new_Time v) (Some "hh:mm:ss"%string)).
  rewrite Time_toString_numeric by assumption.
  cbv beta iota delta [String.eqb]. rewrite format_default.
  cbn [value new_Time]. fold c.
  rewrite (pad_two_wide _ H Fh ltac:(lia) Eh).
  rewrite (pad_two_wide _ M Fm ltac:(lia) Em).
  rewrite (pad_two_wide _ S Fs ltac:(lia) Es).
  rewrite P. reflexivity.
Qed.

End Shape.

Section Printed.

Import QArith Qround Qabs.

(** What [toString()] prints for a number of seconds [v] with
    [0 <= v < 360000] (100 hours): whole numbers [H], [M] and [S], each in
    decimal and padded to two characters, separated by colons, then the
    thousandths [n] of what is left of [v], without zeros at the end.  Here
    [H] is in 0..100, [M] in 0..60, [S] in -1..60, what is left of [v]
    after [3600 * H + 60 * M + S] is in [[0, 1)], and [n], in 0..1000, is its
    thousandths rounded half up.  So 22290.23 prints as "06:11:30.23",
    59.9996 as "00:00:59." and 59.99999999999999 as "00:01:-1.". *)
Theorem toString_shape : forall v : float,
  (0 <=? v)%float = true -> (v <? 360000)%float = true ->
  (exists H M S n : Z,
     Time_toString (new_Time v) None
       = two_wide H ++ ":" ++ two_wide M ++ ":" ++ two_wide S
           ++ frac_digits n /\
     (0 <= H <= 100)%Z /\ (0 <= M <= 60)%Z /\ (-1 <= S <= 60)%Z /\
     (0 <= n <= 1000)%Z /\
     (0 <= Qof v - inject_Z (3600 * H + 60 * M + S))%Q /\
     (Qof v - inject_Z (3600 * H + 60 * M + S) < 1)%Q /\
     (inject_Z n
        <= 1000 * (Qof v - inject_Z (3600 * H + 60 * M + S)) + (1 # 2))%Q /\
     (1000 * (Qof v - inject_Z (3600 * H + 60 * M + S)) + (1 # 2)
        < inject_Z n + 1)%Q) /\
  two_wide 6 = "06" /\ two_wide 60 = "60" /\ two_wide (-1) = "-1" /\
  two_wide 100 = "100" /\
  Time_toString (new_Time 22290.23) None = "06:11:30.23" /\
  Time_toString (new_Time 59.9996) None = "00:00:59." /\
  Time_toString (new_Time 59.99999999999999) None = "00:01:-1.".
Proof.
  intros v Hge Hlt.
  split; [ | vm_compute; repeat split].
  destruct (below_finite v 360000 Hge Hlt eq_refl) as (Fv & H0 & Hb).
  apply shape_facts; [exact Fv | exact H0 | ].
  assert (E : (Qof 360000 == 360000)%Q) by reflexivity.
  rewrite E in Hb. exact Hb.
Qed.

Lemma toString_shape_witness :
  (0 <=? 22290.23)%float = true /\ (22290.23 <? 360000)%float = true /\
  exists H M S n : Z,
    Time_toString (new_Time 22290.23) None
      = two_wide H ++ ":" ++ two_wide M ++ ":" ++ two_wide S ++ frac_digits n.
Proof.
  split; [reflexivity | split; [reflexivity | ]].
  destruct (toString_shape 22290.23 eq_refl eq_refl)
    as ((H & M & S & n & E & _) & _).
  exists H, M, S, n. exact E.
Defined.

End Printed.

